(** * smailnail: search-criteria compiler and message-retrieval pipeline

    A shallow embedding of the Go package [dsl] of smailnail (the rule
    types of the package, [BuildSearchCriteria] and its helpers, and
    [Rule.FetchMessages]) together with the properties of the
    specification that concern them.

    Conventions.
    - Go [string] is a byte string: Rocq [string].
    - Go [int] and [int64] are 64-bit two's complement integers: [Z] with
      the wrap-around written out ([Int64.wrap]); [uint32] is [Z] with
      [UInt32.wrap].
    - A Go function returning [(T, error)] returns [result T]; the error
      is its message ([err.Error()]).
    - Library functions whose code is not part of the repository
      ([time.Parse], [strings.ToLower], [SearchCriteria.And], the IMAP
      client) and the functions of the package that are not part of the
      verified sources are fields of the classes [GoRuntime], [ImapLib] and
      [FetchDeps], or of the record [Client]. *)

From Stdlib Require Import ZArith Ascii String List Lia Bool.
From stdpp Require Import base tactics option list strings pretty gmap.

Local Open Scope string_scope.
Local Open Scope list_scope.
Local Open Scope Z_scope.

(** ** Machine integers *)

Module Int64.
Definition min_int : Z := - 2 ^ 63.
Definition max_int : Z := 2 ^ 63 - 1.
(** The value a Go [int64] holds after an operation whose mathematical
    result is [z]. *)
Definition wrap (z : Z) : Z := (z + 2 ^ 63) mod 2 ^ 64 - 2 ^ 63.
Definition add (a b : Z) : Z := wrap (a + b).
Definition sub (a b : Z) : Z := wrap (a - b).
Definition mul (a b : Z) : Z := wrap (a * b).
Definition in_range (z : Z) : Prop := min_int <= z <= max_int.
End Int64.

Module UInt32.
Definition max_uint : Z := 2 ^ 32 - 1.
Definition wrap (z : Z) : Z := z mod 2 ^ 32.
Definition add (a b : Z) : Z := wrap (a + b).
Definition sub (a b : Z) : Z := wrap (a - b).
Definition in_range (z : Z) : Prop := 0 <= z <= max_uint.
End UInt32.

(** ** Results *)

Inductive result (A : Type) : Type :=
| Ok (a : A)
| Err (msg : string).
Arguments Ok {A} a.
Arguments Err {A} msg.

Global Instance result_ret : MRet result := fun A a => Ok a.
Global Instance result_bind : MBind result := fun A B k r =>
  match r with
  | Ok a => k a
  | Err e => Err e
  end.

Definition is_Ok {A : Type} (r : result A) : Prop :=
  match r with Ok _ => True | Err _ => False end.

(** [fmt.Errorf("...: %w", err)] *)
Definition wrapErr {A : Type} (prefix : string) (r : result A) : result A :=
  match r with
  | Ok a => Ok a
  | Err e => Err (prefix +:+ e)
  end.

(** ** Byte strings: the functions of package [strings] used by the code *)

(** [strings.HasPrefix(s, prefix)] *)
Fixpoint HasPrefix (s prefix : string) : bool :=
  match prefix, s with
  | EmptyString, _ => true
  | String p prefix', String c s' => if decide (p = c) then HasPrefix s' prefix' else false
  | String _ _, EmptyString => false
  end.

(** [strings.HasSuffix(s, suffix)] *)
Definition HasSuffix (s suffix : string) : bool :=
  HasPrefix (String.rev s) (String.rev suffix).

(** [strings.TrimSuffix(s, suffix)] *)
Definition TrimSuffix (s suffix : string) : string :=
  if HasSuffix s suffix
  then substring 0 (String.length s - String.length suffix) s
  else s.

Definition is_digit (c : ascii) : bool :=
  let n := N_of_ascii c in ((48 <=? n) && (n <=? 57))%N.

Definition digit_val (c : ascii) : Z := Z.of_N (N_of_ascii c) - 48.

(** ** Regular expressions: the fragment used by [parseSize]

    Go's [regexp] package is not part of the repository.  The pattern
    [^(\d+)([BKMG])?$] is anchored at both ends ([$] without the [m] flag
    is the end of the text), [\d] is an ASCII digit.  [matches] is the
    language of a pattern; [FindStringSubmatch_size] computes the two
    submatches of the anchored pattern. *)

Inductive regex : Type :=
| Class (p : ascii -> bool)
| Cat (r1 r2 : regex)
| Plus (r : regex)
| Opt (r : regex).

Inductive matches : regex -> string -> Prop :=
| m_class p c : p c = true -> matches (Class p) (String c "")
| m_cat r1 r2 s1 s2 : matches r1 s1 -> matches r2 s2 -> matches (Cat r1 r2) (s1 +:+ s2)
| m_plus_one r s : matches r s -> matches (Plus r) s
| m_plus_more r s1 s2 : matches r s1 -> matches (Plus r) s2 -> matches (Plus r) (s1 +:+ s2)
| m_opt_none r : matches (Opt r) ""
| m_opt_some r s : matches r s -> matches (Opt r) s.

Definition is_unit (c : ascii) : bool :=
  if decide (c = "B"%char) then true
  else if decide (c = "K"%char) then true
  else if decide (c = "M"%char) then true
  else if decide (c = "G"%char) then true
  else false.

(** [^(\d+)([BKMG])?$] *)
Definition size_re : regex := Cat (Plus (Class is_digit)) (Opt (Class is_unit)).

(** The longest prefix of digits and what follows it. *)
Fixpoint span_digits (s : string) : string * string :=
  match s with
  | EmptyString => ("", "")
  | String c s' =>
      if is_digit c
      then let '(ds, rest) := span_digits s' in (String c ds, rest)
      else ("", s)
  end.

(** [re.FindStringSubmatch(s)] for [re = size_re]: [None] is Go's [nil];
    [Some (g1, g2)] are [matches[1]] and [matches[2]] (an unmatched
    optional group is the empty string). *)
Definition FindStringSubmatch_size (s : string) : option (string * string) :=
  let '(ds, rest) := span_digits s in
  match ds with
  | EmptyString => None
  | String _ _ =>
      match rest with
      | EmptyString => Some (ds, "")
      | String u EmptyString => if is_unit u then Some (ds, rest) else None
      | String _ (String _ _) => None
      end
  end.

(** ** [strconv.ParseInt(s, 10, 64)] *)

Inductive NumError : Type := ErrSyntax | ErrRange.

(** [strconv.ParseUint(s, 10, 64)] after its empty-string check: digits
    are consumed left to right; a non-digit is a syntax error, a value
    above [2^64 - 1] a range error, whichever comes first. *)
Fixpoint ParseUint_go (s : string) (n : Z) : NumError + Z :=
  match s with
  | EmptyString => inr n
  | String c s' =>
      if is_digit c then
        let n1 := n * 10 + digit_val c in
        if 2 ^ 64 - 1 <? n1 then inl ErrRange else ParseUint_go s' n1
      else inl ErrSyntax
  end.

Definition ParseUint (s : string) : NumError + Z :=
  match s with
  | EmptyString => inl ErrSyntax
  | String _ _ => ParseUint_go s 0
  end.

Definition ParseInt (s : string) : NumError + Z :=
  match s with
  | EmptyString => inl ErrSyntax
  | String c s' =>
      let neg := bool_decide (c = "-"%char) in
      let body := if decide (c = "+"%char) then s'
                  else if decide (c = "-"%char) then s' else s in
      match ParseUint body with
      | inl e => inl e
      | inr un =>
          if negb neg && (2 ^ 63 <=? un) then inl ErrRange
          else if neg && (2 ^ 63 <? un) then inl ErrRange
          else inr (if neg then - un else un)
      end
  end.

(** ** Package [dsl]: rule types (types.go) *)

(** [parseSize] parses a size string with units (B, K, M, G). *)
Definition parseSize (sizeStr : string) : result Z :=
  match FindStringSubmatch_size sizeStr with
  | None =>
      Err ("invalid size format: " +:+ sizeStr +:+ " (expected format: 100B, 10K, 5M, 1G)")
  | Some (num, unit) =>
      match ParseInt num with
      | inl _ => Err ("invalid size number: " +:+ num)
      | inr size =>
          if decide (unit = "B" \/ unit = "") then Ok size
          else if decide (unit = "K") then Ok (Int64.mul size 1024)
          else if decide (unit = "M") then Ok (Int64.mul size (1024 * 1024))
          else if decide (unit = "G") then Ok (Int64.mul size (1024 * 1024 * 1024))
          else Err ("invalid size unit: " +:+ unit +:+ " (expected B, K, M, or G)")
      end
  end.

(** [Operator] represents a boolean logic operator. *)
Definition Operator : Type := string.
Definition OperatorAnd : Operator := "and".
Definition OperatorOr : Operator := "or".
Definition OperatorNot : Operator := "not".

(** [HeaderCriteria] *)
Record HeaderCriteria : Type := mkHeaderCriteria {
  Header_Name : string;
  Header_Value : string }.

(** [FlagCriteria] *)
Record FlagCriteria : Type := mkFlagCriteria {
  Has : list string;
  NotHas : list string }.

(** [SizeCriteria] *)
Record SizeCriteria : Type := mkSizeCriteria {
  LargerThan : string;
  SmallerThan : string }.

(** [SearchConfig].  [ComplexSearchConfig] only embeds a [SearchConfig]
    (an inline struct), so [Conditions] is a list of [SearchConfig];
    pointer fields are options. *)
#[warnings="-register-all"]
Inductive SearchConfig : Type := mkSearchConfig {
  Since : string;
  Before : string;
  On : string;
  WithinDays : Z;
  From : string;
  To : string;
  Cc : string;
  Bcc : string;
  Subject : string;
  SubjectContains : string;
  Header : option HeaderCriteria;
  BodyContains : string;
  Text : string;
  Flags : option FlagCriteria;
  Size : option SizeCriteria;
  Operator_ : Operator;
  Conditions : list SearchConfig }.

Definition ComplexSearchConfig : Type := SearchConfig.

(** [ContentField] *)
Record ContentField : Type := mkContentField {
  Type_ : string;
  MaxLength : Z;
  MinLength : Z;
  Mode : string;
  Types : list string;
  ShowTypes : bool;
  ShowContent : bool }.

(** [Field] *)
Record Field : Type := mkField {
  Field_Name : string;
  Field_Content : option ContentField }.

(** An element of [Fields []interface{}]: a [Field], or a value of
    another dynamic type, which the type assertion [.(Field)] rejects. *)
Inductive AnyField : Type :=
| IsField (f : Field)
| NotField.

(** [OutputConfig] *)
Record OutputConfig : Type := mkOutputConfig {
  Format : string;
  Limit : Z;
  Offset : Z;
  AfterUID : Z;
  BeforeUID : Z;
  Fields : list AnyField }.

(** [OutputConfig.Validate]; [Ok ()] is the [nil] error. *)
Definition validate_field (fieldInterface : AnyField) : result unit :=
  match fieldInterface with
  | NotField => Ok tt
  | IsField field =>
      match Field_Content field with
      | Some content =>
          if decide (Field_Name field = "mime_parts") then
            if bool_decide (Mode content <> "") && bool_decide (Mode content <> "text_only")
               && bool_decide (Mode content <> "full") && bool_decide (Mode content <> "filter")
            then Err ("invalid mime_parts mode: " +:+ Mode content
                      +:+ " (must be 'text_only', 'full', or 'filter')")
            else if bool_decide (Mode content = "filter")
                    && bool_decide (length (Types content) = 0%nat)
            then Err "mime_parts types must be specified when mode is 'filter'"
            else Ok tt
          else Ok tt
      | None => Ok tt
      end
  end.

Fixpoint validate_fields (fields : list AnyField) : result unit :=
  match fields with
  | [] => Ok tt
  | f :: fields' => _ ← validate_field f; validate_fields fields'
  end.

Definition OutputConfig_Validate (o : OutputConfig) : result unit :=
  if bool_decide (Format o <> "") && bool_decide (Format o <> "json")
     && bool_decide (Format o <> "text") && bool_decide (Format o <> "table")
  then Err ("invalid format: " +:+ Format o +:+ " (must be 'json', 'text', or 'table')")
  else if bool_decide (length (Fields o) = 0%nat)
  then Err "at least one output field is required"
  else if Limit o <? 0
  then Err "limit cannot be negative"
  else validate_fields (Fields o).

(** [ContentField.ShouldInclude]: the loop over [c.Types] of the
    ["filter"] case, returning at the first match. *)
Fixpoint matches_any (mediaType : string) (types : list string) : bool :=
  match types with
  | [] => false
  | allowedType :: types' =>
      if HasSuffix allowedType "/*" then
        let prefix := TrimSuffix allowedType "/*" in
        if HasPrefix mediaType (prefix +:+ "/") then true
        else matches_any mediaType types'
      else if decide (mediaType = allowedType) then true
      else matches_any mediaType types'
  end.

Definition ShouldInclude (c : ContentField) (mediaType : string) : bool :=
  if decide (Mode c = "text_only") then HasPrefix mediaType "text/plain"
  else if decide (Mode c = "filter") then
    if decide (length (Types c) = 0%nat) then true
    else matches_any mediaType (Types c)
  else true.

(** ** The Go runtime

    Library functions of [time] and [strings] that the package calls.
    [time_Date0 t] is
    [time.Date(t.Year(), t.Month(), t.Day(), 0, 0, 0, 0, t.Location())];
    [time_Now] is the instant [time.Now()] returns during the call. *)
Class GoRuntime : Type := {
  Time : Type;
  time_zero : Time;
  time_Parse : string -> string -> option Time;
  time_Now : Time;
  time_Date0 : Time -> Time;
  time_AddDate : Time -> Z -> Z -> Z -> Time;
  strings_ToLower : string -> string }.

Definition time_RFC3339 : string := "2006-01-02T15:04:05Z07:00".
Definition time_RFC822 : string := "02 Jan 06 15:04 MST".
Definition time_RFC1123 : string := "Mon, 02 Jan 2006 15:04:05 MST".

(** The byte-wise lower-casing of ASCII letters; [strings.ToLower] agrees
    with it on strings of ASCII characters. *)
Definition ascii_lower (c : ascii) : ascii :=
  let n := N_of_ascii c in
  if ((65 <=? n) && (n <=? 90))%N then ascii_of_N (n + 32) else c.

Fixpoint ascii_ToLower (s : string) : string :=
  match s with
  | EmptyString => EmptyString
  | String c s' => String (ascii_lower c) (ascii_ToLower s')
  end.

(** The one-character string of a backslash. *)
Definition backslash : string := String (ascii_of_N 92) EmptyString.

Section Flags.
Context `{GoRuntime}.

(** Map of standard flag names to IMAP format. *)
Definition standardFlags : gmap string string :=
  <["seen" := "\Seen"]> (
  <["answered" := "\Answered"]> (
  <["flagged" := "\Flagged"]> (
  <["deleted" := "\Deleted"]> (
  <["draft" := "\Draft"]> (
  <["recent" := "\Recent"]> (
  <["important" := "$Important"]> ∅)))))).

(** [convertToIMAPFlag] converts a user-friendly flag name to IMAP
    format. *)
Definition convertToIMAPFlag (flag : string) : string :=
  if HasPrefix flag backslash || HasPrefix flag "$" then flag
  else
    let flagLower := strings_ToLower flag in
    match standardFlags !! flagLower with
    | Some imapFlag => imapFlag
    | None => flag
    end.
End Flags.

(** ** Package [imap] (go-imap v2): the types the compiler builds

    The library is not part of the repository.  A number set ([UIDSet],
    [SeqSet]) is modelled by the sequence of ranges that its [AddNum] and
    [AddRange] calls stored, each a pair [(start, stop)]; a stop of [0]
    stands for ["*"].  [AddRange] stores the range as the library does:
    with the two ends exchanged when the stop is a number below the start,
    or when the start is [0], so that [AddRange(6, 5)] stores [5:6] and
    [AddRange(1, 0)] stores [1:*].  [SearchCriteria] has the fields that
    the package assigns; the zero value of a slice is the empty list. *)
Module imap.

Definition NumSet : Type := list (Z * Z).
Definition AddRange (s : NumSet) (start stop : Z) : NumSet :=
  if ((stop <? start) && negb (stop =? 0)) || (start =? 0)
  then s ++ [(stop, start)]
  else s ++ [(start, stop)].
Definition AddNum (s : NumSet) (num : Z) : NumSet := s ++ [(num, num)].

Record SearchOptions : Type := mkSearchOptions {
  ReturnAll : bool;
  ReturnCount : bool }.

Definition no_options : SearchOptions := mkSearchOptions false false.

Section Criteria.
Context `{GoRuntime}.

#[warnings="-register-all"]
Inductive SearchCriteria : Type := mkSearchCriteria {
  UID : list NumSet;
  Since : Time;
  Before : Time;
  Header : list (string * string);
  Body : list string;
  Text : list string;
  Flag : list string;
  NotFlag : list string;
  Larger : Z;
  Smaller : Z;
  Not : list SearchCriteria;
  Or : list (SearchCriteria * SearchCriteria) }.

(** [imap.SearchCriteria{}] *)
Definition empty : SearchCriteria :=
  mkSearchCriteria [] time_zero time_zero [] [] [] [] [] 0 0 [] [].

Definition set_UID (c : SearchCriteria) (v : list NumSet) : SearchCriteria :=
  mkSearchCriteria v (Since c) (Before c) (Header c) (Body c) (Text c)
    (Flag c) (NotFlag c) (Larger c) (Smaller c) (Not c) (Or c).
Definition set_Since (c : SearchCriteria) (v : Time) : SearchCriteria :=
  mkSearchCriteria (UID c) v (Before c) (Header c) (Body c) (Text c)
    (Flag c) (NotFlag c) (Larger c) (Smaller c) (Not c) (Or c).
Definition set_Before (c : SearchCriteria) (v : Time) : SearchCriteria :=
  mkSearchCriteria (UID c) (Since c) v (Header c) (Body c) (Text c)
    (Flag c) (NotFlag c) (Larger c) (Smaller c) (Not c) (Or c).
Definition set_Header (c : SearchCriteria) (v : list (string * string)) : SearchCriteria :=
  mkSearchCriteria (UID c) (Since c) (Before c) v (Body c) (Text c)
    (Flag c) (NotFlag c) (Larger c) (Smaller c) (Not c) (Or c).
Definition set_Body (c : SearchCriteria) (v : list string) : SearchCriteria :=
  mkSearchCriteria (UID c) (Since c) (Before c) (Header c) v (Text c)
    (Flag c) (NotFlag c) (Larger c) (Smaller c) (Not c) (Or c).
Definition set_Text (c : SearchCriteria) (v : list string) : SearchCriteria :=
  mkSearchCriteria (UID c) (Since c) (Before c) (Header c) (Body c) v
    (Flag c) (NotFlag c) (Larger c) (Smaller c) (Not c) (Or c).
Definition set_Flag (c : SearchCriteria) (v : list string) : SearchCriteria :=
  mkSearchCriteria (UID c) (Since c) (Before c) (Header c) (Body c) (Text c)
    v (NotFlag c) (Larger c) (Smaller c) (Not c) (Or c).
Definition set_NotFlag (c : SearchCriteria) (v : list string) : SearchCriteria :=
  mkSearchCriteria (UID c) (Since c) (Before c) (Header c) (Body c) (Text c)
    (Flag c) v (Larger c) (Smaller c) (Not c) (Or c).
Definition set_Larger (c : SearchCriteria) (v : Z) : SearchCriteria :=
  mkSearchCriteria (UID c) (Since c) (Before c) (Header c) (Body c) (Text c)
    (Flag c) (NotFlag c) v (Smaller c) (Not c) (Or c).
Definition set_Smaller (c : SearchCriteria) (v : Z) : SearchCriteria :=
  mkSearchCriteria (UID c) (Since c) (Before c) (Header c) (Body c) (Text c)
    (Flag c) (NotFlag c) (Larger c) v (Not c) (Or c).

(** [&imap.SearchCriteria{Not: v}] and [resultCriteria.Or = v] on a
    zero value. *)
Definition of_Not (v : list SearchCriteria) : SearchCriteria :=
  mkSearchCriteria [] time_zero time_zero [] [] [] [] [] 0 0 v [].
Definition of_Or (v : list (SearchCriteria * SearchCriteria)) : SearchCriteria :=
  mkSearchCriteria [] time_zero time_zero [] [] [] [] [] 0 0 [] v.
End Criteria.

End imap.

(** [criteria.And(other)] of go-imap, as the value [criteria] holds after
    the call. *)
Class ImapLib `{GoRuntime} : Type := {
  criteria_And : imap.SearchCriteria -> imap.SearchCriteria -> imap.SearchCriteria }.

(** ** Package [dsl]: the search-criteria compiler (search.go) *)

Section Compiler.
Context `{ImapLib}.

(** The value of the three results [(criteria, options, nil)]; an
    error is returned as [(nil, nil, err)]. *)
Definition compiled : Type := imap.SearchCriteria * option imap.SearchOptions.

(** [parseDate]: the layouts tried after RFC3339 and ["2006-01-02"]. *)
Definition formats : list string :=
  ["2006/01/02"; "01/02/2006"; "02/01/2006"; "Jan 2, 2006"; "2 Jan 2006";
   time_RFC822; time_RFC1123].

Fixpoint parseDate_formats (fs : list string) (dateStr : string) : result Time :=
  match fs with
  | [] => Err ("could not parse date: " +:+ dateStr)
  | format :: fs' =>
      match time_Parse format dateStr with
      | Some t => Ok t
      | None => parseDate_formats fs' dateStr
      end
  end.

Definition parseDate (dateStr : string) : result Time :=
  match time_Parse time_RFC3339 dateStr with
  | Some t => Ok t
  | None =>
      match time_Parse "2006-01-02" dateStr with
      | Some t => Ok t
      | None => parseDate_formats formats dateStr
      end
  end.

(** [criteria.Header = append(criteria.Header, {Key, Value})] when
    [value != ""]. *)
Definition add_header (key value : string) (criteria : imap.SearchCriteria)
  : imap.SearchCriteria :=
  if decide (value = "") then criteria
  else imap.set_Header criteria (imap.Header criteria ++ [(key, value)]).

(** The UID range of the pagination block of [BuildSearchCriteria]. *)
Definition uid_pagination (outputConfig : OutputConfig) (criteria : imap.SearchCriteria)
  : imap.SearchCriteria :=
  if (0 <? AfterUID outputConfig) || (0 <? BeforeUID outputConfig) then
    let uidSet : imap.NumSet := [] in
    let uidSet :=
      if (0 <? AfterUID outputConfig) && (0 <? BeforeUID outputConfig) then
        imap.AddRange uidSet (UInt32.add (AfterUID outputConfig) 1)
                             (UInt32.sub (BeforeUID outputConfig) 1)
      else if 0 <? AfterUID outputConfig then
        imap.AddRange uidSet (UInt32.add (AfterUID outputConfig) 1) 0
      else if 0 <? BeforeUID outputConfig then
        imap.AddRange uidSet 1 (UInt32.sub (BeforeUID outputConfig) 1)
      else uidSet in
    imap.set_UID criteria [uidSet]
  else criteria.

Definition pagination_options (outputConfig : option OutputConfig) : imap.SearchOptions :=
  match outputConfig with
  | Some oc => if 0 <? Limit oc then imap.mkSearchOptions true true else imap.no_options
  | None => imap.no_options
  end.

(** [BuildSearchCriteria], "Process date criteria". *)
Definition date_criteria (config : SearchConfig) (criteria : imap.SearchCriteria)
  : result imap.SearchCriteria :=
  criteria ←
    (if decide (Since config = "") then Ok criteria
     else since ← wrapErr "invalid 'since' date: " (parseDate (Since config));
          Ok (imap.set_Since criteria since));
  criteria ←
    (if decide (Before config = "") then Ok criteria
     else before ← wrapErr "invalid 'before' date: " (parseDate (Before config));
          Ok (imap.set_Before criteria before));
  criteria ←
    (if decide (On config = "") then Ok criteria
     else on ← wrapErr "invalid 'on' date: " (parseDate (On config));
          let startOfDay := time_Date0 on in
          let endOfDay := time_AddDate startOfDay 0 0 1 in
          Ok (imap.set_Before (imap.set_Since criteria startOfDay) endOfDay));
  if 0 <? WithinDays config then
    let since := time_AddDate time_Now 0 0 (- WithinDays config) in
    Ok (imap.set_Since criteria (time_Date0 since))
  else Ok criteria.

(** "Process header-based search criteria". *)
Definition header_criteria (config : SearchConfig) (criteria : imap.SearchCriteria)
  : imap.SearchCriteria :=
  let criteria := add_header "From" (From config) criteria in
  let criteria := add_header "To" (To config) criteria in
  let criteria := add_header "Cc" (Cc config) criteria in
  let criteria := add_header "Bcc" (Bcc config) criteria in
  let criteria := add_header "Subject" (Subject config) criteria in
  let criteria := add_header "Subject" (SubjectContains config) criteria in
  match Header config with
  | Some h =>
      if decide (Header_Name h = "") then criteria
      else imap.set_Header criteria
             (imap.Header criteria ++ [(Header_Name h, Header_Value h)])
  | None => criteria
  end.

(** "Process content-based search criteria". *)
Definition content_criteria (config : SearchConfig) (criteria : imap.SearchCriteria)
  : imap.SearchCriteria :=
  let criteria :=
    if decide (BodyContains config = "") then criteria
    else imap.set_Body criteria [BodyContains config] in
  if decide (Text config = "") then criteria
  else imap.set_Text criteria [Text config].

(** "Process flag-based search criteria". *)
Definition flag_criteria (config : SearchConfig) (criteria : imap.SearchCriteria)
  : imap.SearchCriteria :=
  match Flags config with
  | Some fl =>
      let criteria :=
        imap.set_Flag criteria (imap.Flag criteria ++ map convertToIMAPFlag (Has fl)) in
      imap.set_NotFlag criteria
        (imap.NotFlag criteria ++ map convertToIMAPFlag (NotHas fl))
  | None => criteria
  end.

(** "Process size-based search criteria". *)
Definition size_criteria (config : SearchConfig) (criteria : imap.SearchCriteria)
  : result imap.SearchCriteria :=
  match Size config with
  | Some sz =>
      criteria ←
        (if decide (LargerThan sz = "") then Ok criteria
         else size ← wrapErr "invalid 'larger_than' size: " (parseSize (LargerThan sz));
              Ok (imap.set_Larger criteria size));
      if decide (SmallerThan sz = "") then Ok criteria
      else size ← wrapErr "invalid 'smaller_than' size: " (parseSize (SmallerThan sz));
           Ok (imap.set_Smaller criteria size)
  | None => Ok criteria
  end.

(** The part of [BuildSearchCriteria] after the operator test: the
    translation of the fields of a flat condition, block by block, then
    the UID range and the search options of the output configuration. *)
Definition buildFlatCriteria (config : SearchConfig) (outputConfig : option OutputConfig)
  : result compiled :=
  let criteria := imap.empty in
  criteria ← date_criteria config criteria;
  let criteria := header_criteria config criteria in
  let criteria := content_criteria config criteria in
  let criteria := flag_criteria config criteria in
  criteria ← size_criteria config criteria;
  let criteria :=
    match outputConfig with
    | Some oc => uid_pagination oc criteria
    | None => criteria
    end in
  Ok (criteria, Some (pagination_options outputConfig)).

(** The error of [BuildSearchCriteria] for an operator without
    conditions. *)
Definition empty_conditions_error (op : Operator) : string :=
  if decide (op = OperatorAnd) then "empty conditions list for AND operator"
  else if decide (op = OperatorOr) then "empty conditions list for OR operator"
  else if decide (op = OperatorNot) then "NOT operator requires at least one condition"
  else "unsupported operator: " +:+ op.

(** [BuildSearchCriteria], its call of [buildComplexSearchCriteria]
    being the argument [complex]. *)
Definition BuildSearchCriteria_with
    (complex : SearchConfig -> option OutputConfig -> result compiled)
    (config : SearchConfig) (outputConfig : option OutputConfig) : result compiled :=
  if decide (Operator_ config <> "") then
    if decide (length (Conditions config) = 0%nat)
    then Err (empty_conditions_error (Operator_ config))
    else complex config outputConfig
  else buildFlatCriteria config outputConfig.

(** [buildSingleCondition] *)
Definition buildSingleCondition_with
    (complex : SearchConfig -> option OutputConfig -> result compiled)
    (condition : ComplexSearchConfig) (outputConfig : option OutputConfig) : result compiled :=
  if bool_decide (Operator_ condition <> "")
     && bool_decide (0 < length (Conditions condition))%nat
  then complex condition outputConfig
  else BuildSearchCriteria_with complex condition outputConfig.

Section Combinators.
Variable single : ComplexSearchConfig -> option OutputConfig -> result compiled.

(** The loop of [buildAndCondition] over [conditions[1:]]. *)
Fixpoint and_loop (conditions : list ComplexSearchConfig)
    (mainCriteria : imap.SearchCriteria) : result imap.SearchCriteria :=
  match conditions with
  | [] => Ok mainCriteria
  | condition :: conditions' =>
      '(subCriteria, _) ← single condition None;
      and_loop conditions' (criteria_And mainCriteria subCriteria)
  end.

Definition buildAndCondition_with (conditions : list ComplexSearchConfig)
    (outputConfig : option OutputConfig) : result compiled :=
  match conditions with
  | [] => Err "empty conditions list for AND operator"
  | first :: conditions' =>
      '(mainCriteria, options) ← single first outputConfig;
      mainCriteria ← and_loop conditions' mainCriteria;
      Ok (mainCriteria, options)
  end.

(** Modelled from the spec: the second element of the array literal
    [[2]imap.SearchCriteria{*c1, ...}] that [buildOrCondition] builds
    for the last condition of an odd-length list is missing from the
    source text.  The specification says that the trailing child is
    paired with itself. *)
Definition trailing_partner (c1 : imap.SearchCriteria) : imap.SearchCriteria := c1.

(** The loop of [buildOrCondition]: [conditions] is [conditions[i:]],
    [resultOr] is [resultCriteria.Or]. *)
Fixpoint or_loop (outputConfig : option OutputConfig) (i : Z)
    (conditions : list ComplexSearchConfig)
    (resultOr : list (imap.SearchCriteria * imap.SearchCriteria))
    (options : option imap.SearchOptions)
  : result (list (imap.SearchCriteria * imap.SearchCriteria) * option imap.SearchOptions) :=
  match conditions with
  | [] => Ok (resultOr, options)
  | condition :: conditions' =>
      '(c1, opts) ← single condition None;
      let options :=
        if bool_decide (i = 0) && bool_decide (outputConfig <> None)
        then opts else options in
      match conditions' with
      | [] => Ok (resultOr ++ [(c1, trailing_partner c1)], options)
      | condition2 :: conditions'' =>
          '(c2, _) ← single condition2 None;
          or_loop outputConfig (i + 2) conditions'' (resultOr ++ [(c1, c2)]) options
      end
  end.

Definition buildOrCondition_with (conditions : list ComplexSearchConfig)
    (outputConfig : option OutputConfig) : result compiled :=
  match conditions with
  | [] => Err "empty conditions list for OR operator"
  | [condition] => single condition outputConfig
  | _ :: _ :: _ =>
      '(resultOr, options) ← or_loop outputConfig 0 conditions [] None;
      Ok (imap.of_Or resultOr, options)
  end.

Definition buildNotCondition_with (condition : ComplexSearchConfig)
    (outputConfig : option OutputConfig) : result compiled :=
  '(subCriteria, options) ← single condition outputConfig;
  Ok (imap.of_Not [subCriteria], options).

(** [buildComplexSearchCriteria]; the options it prepares are not
    returned. *)
Definition buildComplexSearchCriteria_with (config : SearchConfig)
    (outputConfig : option OutputConfig) : result compiled :=
  if decide (Operator_ config = OperatorAnd) then
    buildAndCondition_with (Conditions config) outputConfig
  else if decide (Operator_ config = OperatorOr) then
    buildOrCondition_with (Conditions config) outputConfig
  else if decide (Operator_ config = OperatorNot) then
    match Conditions config with
    | [] => Err "NOT operator requires at least one condition"
    | condition :: _ =>
        if decide (1 < length (Conditions config))%nat then
          Err ("operator 'not' can only have one condition, but "
               +:+ pretty (length (Conditions config)) +:+ " were provided")
        else buildNotCondition_with condition outputConfig
    end
  else Err ("unsupported operator: " +:+ Operator_ config).
End Combinators.

(** [buildComplexSearchCriteria] handles the conversion of complex
    nested conditions. *)
Fixpoint buildComplexSearchCriteria (config : SearchConfig)
    (outputConfig : option OutputConfig) {struct config} : result compiled :=
  buildComplexSearchCriteria_with
    (buildSingleCondition_with buildComplexSearchCriteria) config outputConfig.

(** [BuildSearchCriteria] converts [SearchConfig] to
    [imap.SearchCriteria] and returns appropriate [SearchOptions]. *)
Definition BuildSearchCriteria : SearchConfig -> option OutputConfig -> result compiled :=
  BuildSearchCriteria_with buildComplexSearchCriteria.

Definition buildSingleCondition
  : ComplexSearchConfig -> option OutputConfig -> result compiled :=
  buildSingleCondition_with buildComplexSearchCriteria.

Definition buildAndCondition := buildAndCondition_with buildSingleCondition.
Definition buildOrCondition := buildOrCondition_with buildSingleCondition.
Definition buildNotCondition := buildNotCondition_with buildSingleCondition.
End Compiler.

(** ** A runtime for closed examples

    The examples below have no date field: the instance reads no date
    ([time_Parse] rejects every string) and counts time in whole days.
    [example_And] merges two criteria field by field, keeping the
    tighter bound of each pair. *)
#[export] Instance example_runtime : GoRuntime := {|
  Time := Z;
  time_zero := 0;
  time_Parse := fun _ _ => None;
  time_Now := 0;
  time_Date0 := fun t => t;
  time_AddDate := fun t _ _ d => t + d;
  strings_ToLower := ascii_ToLower |}.

Definition example_And (a b : imap.SearchCriteria) : imap.SearchCriteria :=
  imap.mkSearchCriteria
    (imap.UID a ++ imap.UID b)
    (if decide (imap.Since a = 0) then imap.Since b
     else if decide (imap.Since b = 0) then imap.Since a
     else Z.max (imap.Since a) (imap.Since b))
    (if decide (imap.Before a = 0) then imap.Before b
     else if decide (imap.Before b = 0) then imap.Before a
     else Z.min (imap.Before a) (imap.Before b))
    (imap.Header a ++ imap.Header b)
    (imap.Body a ++ imap.Body b)
    (imap.Text a ++ imap.Text b)
    (imap.Flag a ++ imap.Flag b)
    (imap.NotFlag a ++ imap.NotFlag b)
    (Z.max (imap.Larger a) (imap.Larger b))
    (if decide (imap.Smaller a = 0) then imap.Smaller b
     else if decide (imap.Smaller b = 0) then imap.Smaller a
     else Z.min (imap.Smaller a) (imap.Smaller b))
    (imap.Not a ++ imap.Not b)
    (imap.Or a ++ imap.Or b).

#[export] Instance example_imap : ImapLib := {| criteria_And := example_And |}.

(** A flat condition on the [From] header, and a combinator node. *)
Definition from_condition (addr : string) : SearchConfig :=
  mkSearchConfig "" "" "" 0 addr "" "" "" "" "" None "" "" None None "" [].

Definition combinator (op : Operator) (conditions : list SearchConfig) : SearchConfig :=
  mkSearchConfig "" "" "" 0 "" "" "" "" "" "" None "" "" None None op conditions.

Definition paging (limit offset afterUID beforeUID : Z) : OutputConfig :=
  mkOutputConfig "" limit offset afterUID beforeUID [IsField (mkField "subject" None)].


(** ** Package [imapclient] and the fetch items of [imap]

    The session is an external collaborator.  A fetch command is modelled
    by what the server answers: [Collect] gives the buffered messages,
    the streaming interface ([Next] on the command and on each message,
    then [Close]) gives the messages with their data items and the error
    of [Close]. *)
Module imapclient.

(** [imap.FetchItemBodySection] *)
Record FetchItemBodySection : Type := mkFetchItemBodySection {
  Specifier : string;
  Part : list Z;
  Peek : bool }.

(** [imap.FetchOptions] *)
Record FetchOptions : Type := mkFetchOptions {
  Envelope : bool;
  Flags : bool;
  InternalDate : bool;
  RFC822Size : bool;
  UID : bool;
  BodyStructure : bool;
  BodySection : list FetchItemBodySection }.

Definition set_BodySection (o : FetchOptions) (v : list FetchItemBodySection) : FetchOptions :=
  mkFetchOptions (Envelope o) (Flags o) (InternalDate o) (RFC822Size o) (UID o)
    (BodyStructure o) v.
Definition set_BodyStructure (o : FetchOptions) (v : bool) : FetchOptions :=
  mkFetchOptions (Envelope o) (Flags o) (InternalDate o) (RFC822Size o) (UID o)
    v (BodySection o).

(** [var o imap.FetchOptions; o.UID = true] *)
Definition uid_only : FetchOptions :=
  mkFetchOptions false false false false true false [].

(** A data item of a streamed message: a body section with its literal
    ([None] is a nil literal; the literal is the result of
    [io.ReadAll] on it), or an item of another type. *)
Inductive FetchItemData : Type :=
| FetchItemDataBodySection (Section : FetchItemBodySection)
    (Literal : option (result string))
| FetchItemDataOther.

Record FetchMessageData : Type := mkFetchMessageData {
  data_SeqNum : Z;
  data_items : list FetchItemData }.

Section Buffer.
Variable BodyStructureT : Type.
Variable EnvelopeT : Type.

(** [imapclient.FetchMessageBuffer] *)
Record FetchMessageBuffer : Type := mkFetchMessageBuffer {
  SeqNum : Z;
  buf_UID : Z;
  buf_BodyStructure : BodyStructureT;
  buf_Envelope : EnvelopeT }.

(** What a fetch command yields: through [Collect], or through
    [Next] and [Close]. *)
Record FetchCommand : Type := mkFetchCommand {
  Collect : result (list FetchMessageBuffer);
  stream : list FetchMessageData;
  Close : option string }.
End Buffer.

(** [imap.SearchData] *)
Record SearchData : Type := mkSearchData {
  AllSeqNums : list Z;
  Count : Z }.

End imapclient.

(** ** Package [dsl]: message types and the functions [FetchMessages] calls

    The declarations of [MimePartMetadata], [MimePart] and
    [EmailMessage], and the functions [BuildFetchOptions],
    [determineRequiredBodySections] and [NewEmailMessageFromIMAP] are
    not part of the verified sources.  The two records below are
    modelled; the
    message type and the functions are fields of [FetchDeps]. *)

(** Modelled from the spec: the declaration of [MimePartMetadata] is
    missing.  The specification describes a requirement as a tuple
    (part-path, media-type, subtype, filename, charset,
    protocol-native-fetch-descriptor); the fields are those that
    [FetchMessages] reads, the charset being [Params["charset"]] and the
    path a [[]int] as [FetchItemBodySection.Part]. *)
Record MimePartMetadata : Type := mkMimePartMetadata {
  meta_Path : list Z;
  meta_Type : string;
  meta_Subtype : string;
  meta_Params : gmap string string;
  meta_Filename : string;
  meta_FetchSection : imapclient.FetchItemBodySection }.

(** Modelled from the spec: the declaration of [MimePart] is missing.
    The specification gives it the fields type, subtype, content
    (decoded string), size, charset and filename, which are the fields
    of the struct literal in [FetchMessages]. *)
Record MimePart : Type := mkMimePart {
  part_Type : string;
  part_Subtype : string;
  part_Content : string;
  part_Size : Z;
  part_Charset : string;
  part_Filename : string }.

(** [Rule] (its [Actions] are not read by [FetchMessages]). *)
Record Rule : Type := mkRule {
  Name : string;
  Description : string;
  Search : SearchConfig;
  Output : OutputConfig }.

Class FetchDeps `{GoRuntime} : Type := {
  BodyStructureT : Type;
  EnvelopeT : Type;
  EmailMessage : Type;
  set_TotalCount : EmailMessage -> Z -> EmailMessage;
  BuildFetchOptions : OutputConfig -> result imapclient.FetchOptions;
  determineRequiredBodySections :
    BodyStructureT -> OutputConfig -> result (list MimePartMetadata);
  NewEmailMessageFromIMAP :
    imapclient.FetchMessageBuffer BodyStructureT EnvelopeT -> list MimePart
    -> result EmailMessage }.

(** ** Formatting and scanning ([fmt]) *)

Fixpoint join_space (l : list string) : string :=
  match l with
  | [] => ""
  | [x] => x
  | x :: l' => x +:+ " " +:+ join_space l'
  end.

(** [fmt.Sprintf("%v", path)] for [path []int] *)
Definition Sprintf_v (path : list Z) : string :=
  "[" +:+ join_space (map pretty path) +:+ "]".

(** [fmt.Sprintf("%d:%v", seqNum, path)] *)
Definition Sprintf_key (seqNum : Z) (path : list Z) : string :=
  pretty seqNum +:+ ":" +:+ Sprintf_v path.

(** [strings.SplitN(s, ":", 2)] when it has two elements. *)
Fixpoint SplitN_colon (s : string) : option (string * string) :=
  match s with
  | EmptyString => None
  | String c s' =>
      if decide (c = ":"%char) then Some ("", s')
      else match SplitN_colon s' with
           | Some (a, b) => Some (String c a, b)
           | None => None
           end
  end.

(** [fmt.Sscanf(s, "%d", &seqNum)] for [seqNum uint32] on an input that
    starts with no blank: the leading digits are the token, which must
    be a number of 32 bits; [None] is an error. *)
Definition Sscanf_uint32 (s : string) : option Z :=
  let '(tok, _) := span_digits s in
  match ParseUint tok with
  | inr i => if i <=? UInt32.max_uint then Some i else None
  | inl _ => None
  end.

(** ** Package [dsl]: [Rule.FetchMessages] (processor.go) *)

Section Fetch.
Context `{rt : GoRuntime} {il : @ImapLib rt} {fd : @FetchDeps rt}.

Definition Buffer : Type := imapclient.FetchMessageBuffer BodyStructureT EnvelopeT.

(** The session: [client.Search(criteria, options).Wait()] and
    [client.Fetch(seqSet, options)]. *)
Record Client : Type := mkClient {
  client_Search :
    imap.SearchCriteria -> option imap.SearchOptions -> result imapclient.SearchData;
  client_Fetch :
    imap.NumSet -> imapclient.FetchOptions
    -> imapclient.FetchCommand BodyStructureT EnvelopeT }.

Definition len {A : Type} (l : list A) : Z := Z.of_nat (length l).

(** Step 3, the branch taken when no sequence numbers were returned
    but the count is positive.  [None] is the early [return nil, nil];
    otherwise the sequence numbers of the fetched messages, reversed. *)
Definition reconstructSeqNums (output : OutputConfig) (client : Client) (totalFound : Z)
  : result (option (list Z)) :=
  let limit := totalFound in
  let limit := if (0 <? Limit output) && (Limit output <? limit)
               then Limit output else limit in
  let offset := Offset output in
  if totalFound <? offset then Ok None
  else
    let startSeq := Int64.sub totalFound offset in
    let endSeq := Int64.add (Int64.sub startSeq limit) 1 in
    let endSeq := if endSeq <? 1 then 1 else endSeq in
    let manualSeqSet := imap.AddRange [] (UInt32.wrap endSeq) (UInt32.wrap startSeq) in
    uidMessages ←
      wrapErr "failed to fetch message UIDs: "
        (imapclient.Collect _ _ (client_Fetch client manualSeqSet imapclient.uid_only));
    let seqNums := map (imapclient.SeqNum _ _) uidMessages in
    Ok (Some (rev seqNums)).

(** [for i := startIdx; i >= endIdx; i-- { seqSet.AddNum(seqNums[i]) }],
    [n] being the number of iterations left.  An index out of range is
    a run-time panic, here an error. *)
Fixpoint add_down (seqNums : list Z) (i : Z) (n : nat) (seqSet : imap.NumSet)
  : result imap.NumSet :=
  match n with
  | O => Ok seqSet
  | S n' =>
      match (if i <? 0 then None else seqNums !! Z.to_nat i) with
      | Some num => add_down seqNums (i - 1) n' (imap.AddNum seqSet num)
      | None => Err "index out of range"
      end
  end.

(** Step 4: the sequence set of the first fetch.  [None] is the early
    [return nil, nil] of an invalid start index. *)
Definition selectWindow (output : OutputConfig) (seqNums : list Z)
  : result (option imap.NumSet) :=
  let limit := len seqNums in
  let limit := if (0 <? Limit output) && (Limit output <? limit)
               then Limit output else limit in
  let offset := Offset output in
  let offset := if len seqNums <? offset then len seqNums else offset in
  let startIdx := Int64.sub (Int64.sub (len seqNums) 1) offset in
  let endIdx := Int64.add (Int64.sub startIdx limit) 1 in
  let endIdx := if endIdx <? 0 then 0 else endIdx in
  if (0 <=? startIdx) && (startIdx <? len seqNums) then
    seqSet ← add_down seqNums startIdx (Z.to_nat (startIdx - endIdx + 1)) [];
    Ok (Some seqSet)
  else Ok None.

Record MessageFetchInfo : Type := mkMessageFetchInfo {
  Message : Buffer;
  MimePartMetadata_ : list MimePartMetadata;
  Index : Z }.

(** Step 7, first pass: the messages that need MIME parts are set
    aside, the others are converted at once. *)
Fixpoint firstPass (output : OutputConfig) (totalFound : Z) (messages : list Buffer)
    (msgIdx : Z) (result_ : list EmailMessage) (messagesToFetch : list MessageFetchInfo)
  : result (list EmailMessage * list MessageFetchInfo) :=
  match messages with
  | [] => Ok (result_, messagesToFetch)
  | msg :: messages' =>
      mimePartMetadata ←
        wrapErr "failed to determine required body sections: "
          (determineRequiredBodySections
             (imapclient.buf_BodyStructure _ _ msg) output);
      if 0 <? len mimePartMetadata then
        firstPass output totalFound messages' (msgIdx + 1) result_
          (messagesToFetch ++ [mkMessageFetchInfo msg mimePartMetadata msgIdx])
      else
        email ← wrapErr "failed to convert message: " (NewEmailMessageFromIMAP msg []);
        let email := set_TotalCount email (UInt32.wrap totalFound) in
        firstPass output totalFound messages' (msgIdx + 1) (result_ ++ [email])
          messagesToFetch
  end.

(** Second pass: the combined sequence set and the sections of all the
    messages that need MIME parts.  ([sectionToMessageMap] is written
    in the same loop and never read; it is left out.) *)
Definition batchSeqSet (messagesToFetch : list MessageFetchInfo) : imap.NumSet :=
  fold_left (fun seqSet msgInfo =>
               imap.AddNum seqSet (imapclient.SeqNum _ _ (Message msgInfo)))
            messagesToFetch [].

Definition allFetchSections (messagesToFetch : list MessageFetchInfo)
  : list imapclient.FetchItemBodySection :=
  fold_left (fun sections msgInfo =>
               fold_left (fun sections metadata => sections ++ [meta_FetchSection metadata])
                         (MimePartMetadata_ msgInfo) sections)
            messagesToFetch [].

(** The inner loop over the data items of one streamed message. *)
Fixpoint read_items (seqNum : Z) (items : list imapclient.FetchItemData)
    (contentMap : gmap string string) : result (gmap string string) :=
  match items with
  | [] => Ok contentMap
  | imapclient.FetchItemDataBodySection section literal :: items' =>
      match literal with
      | None => read_items seqNum items' contentMap
      | Some read =>
          content ← wrapErr "failed to read body section: " read;
          let sectionKey := Sprintf_key seqNum (imapclient.Part section) in
          read_items seqNum items' (<[sectionKey := content]> contentMap)
      end
  | imapclient.FetchItemDataOther :: items' => read_items seqNum items' contentMap
  end.

(** The outer loop over the streamed messages. *)
Fixpoint read_stream (msgs : list imapclient.FetchMessageData)
    (contentMap : gmap string string) : result (gmap string string) :=
  match msgs with
  | [] => Ok contentMap
  | fetchedMsg :: msgs' =>
      contentMap ←
        read_items (imapclient.data_SeqNum fetchedMsg)
          (imapclient.data_items fetchedMsg) contentMap;
      read_stream msgs' contentMap
  end.

(** Third pass, grouping: one step of the loop over [contentMap]. *)
Definition group_step (sectionKey content : string)
    (messageContents : gmap Z (gmap string string)) : gmap Z (gmap string string) :=
  match SplitN_colon sectionKey with
  | None => messageContents
  | Some (part0, part1) =>
      match Sscanf_uint32 part0 with
      | None => messageContents
      | Some seqNum =>
          let inner := default ∅ (messageContents !! seqNum) in
          <[seqNum := <[part1 := content]> inner]> messageContents
      end
  end.

(** [for sectionKey, content := range contentMap { ... }]: Go leaves
    the order of the iteration open; [map_fold] takes one. *)
Definition groupContents (contentMap : gmap string string)
  : gmap Z (gmap string string) :=
  map_fold group_step ∅ contentMap.

Definition newMimePart (metadata : MimePartMetadata) (content : string) : MimePart :=
  mkMimePart (meta_Type metadata) (meta_Subtype metadata) content
    (UInt32.wrap (Z.of_nat (String.length content)))
    (default "" (meta_Params metadata !! "charset"))
    (meta_Filename metadata).

(** The loop that creates the MIME parts of one message from the
    fetched content; a part that is not found is passed over. *)
Fixpoint collectParts (msgContent : gmap string string)
    (metadatas : list MimePartMetadata) (mimeParts : list MimePart) : list MimePart :=
  match metadatas with
  | [] => mimeParts
  | metadata :: metadatas' =>
      let pathKey := Sprintf_v (meta_Path metadata) in
      match msgContent !! pathKey with
      | None => collectParts msgContent metadatas' mimeParts
      | Some content =>
          collectParts msgContent metadatas' (mimeParts ++ [newMimePart metadata content])
      end
  end.

(** Third pass: each message with its content. *)
Fixpoint processFetched (totalFound : Z) (messageContents : gmap Z (gmap string string))
    (messagesToFetch : list MessageFetchInfo) (result_ : list EmailMessage)
  : result (list EmailMessage) :=
  match messagesToFetch with
  | [] => Ok result_
  | msgInfo :: messagesToFetch' =>
      let seqNum := imapclient.SeqNum _ _ (Message msgInfo) in
      match messageContents !! seqNum with
      | None =>
          email ← wrapErr "failed to convert message: "
                    (NewEmailMessageFromIMAP (Message msgInfo) []);
          let email := set_TotalCount email (UInt32.wrap totalFound) in
          processFetched totalFound messageContents messagesToFetch' (result_ ++ [email])
      | Some msgContent =>
          let mimeParts := collectParts msgContent (MimePartMetadata_ msgInfo) [] in
          email ← wrapErr "failed to convert message: "
                    (NewEmailMessageFromIMAP (Message msgInfo) mimeParts);
          let email := set_TotalCount email (UInt32.wrap totalFound) in
          processFetched totalFound messageContents messagesToFetch' (result_ ++ [email])
      end
  end.

(** Second and third pass: the batched content fetch for the messages
    set aside by the first pass, and their assembly. *)
Definition fetchContent (output : OutputConfig) (client : Client) (totalFound : Z)
    (messagesToFetch : list MessageFetchInfo) (result_ : list EmailMessage)
  : result (list EmailMessage) :=
  batchFetchOptions ←
    wrapErr "failed to build batch fetch options: " (BuildFetchOptions output);
  let batchFetchOptions := imapclient.set_BodyStructure batchFetchOptions true in
  let batchFetchOptions :=
    imapclient.set_BodySection batchFetchOptions (allFetchSections messagesToFetch) in
  let batchFetchCmd := client_Fetch client (batchSeqSet messagesToFetch) batchFetchOptions in
  contentMap ← read_stream (imapclient.stream _ _ batchFetchCmd) ∅;
  match imapclient.Close _ _ batchFetchCmd with
  | Some err => Err ("failed to close batch fetch command: " +:+ err)
  | None =>
      processFetched totalFound (groupContents contentMap) messagesToFetch result_
  end.

(** Steps 5 to 7: the structure fetch of the selected window, then the
    passes over its messages. *)
Definition fetchWindow (output : OutputConfig) (client : Client) (totalFound : Z)
    (seqSet : imap.NumSet) : result (list EmailMessage) :=
  fetchOptions ← wrapErr "failed to build fetch options: " (BuildFetchOptions output);
  let fetchOptions := imapclient.set_BodySection fetchOptions [] in
  messages ←
    wrapErr "failed to fetch messages: "
      (imapclient.Collect _ _ (client_Fetch client seqSet fetchOptions));
  '(result_, messagesToFetch) ← firstPass output totalFound messages 0 [] [];
  if len messagesToFetch =? 0 then Ok result_
  else fetchContent output client totalFound messagesToFetch result_.

(** Steps 3 and 4: the window of a search response.  [None] is an
    early [return nil, nil]. *)
Definition windowOf (output : OutputConfig) (client : Client)
    (searchData : imapclient.SearchData) : result (option imap.NumSet) :=
  let seqNums := imapclient.AllSeqNums searchData in
  let totalFound := len seqNums in
  let totalFound := if 0 <? imapclient.Count searchData
                    then imapclient.Count searchData else totalFound in
  if totalFound =? 0 then Ok None
  else
    seqNums ←
      (if (len seqNums =? 0) && (0 <? totalFound)
       then reconstructSeqNums output client totalFound
       else Ok (Some seqNums));
    match seqNums with
    | None => Ok None
    | Some seqNums => selectWindow output seqNums
    end.

(** [FetchMessages] retrieves messages from IMAP server based on the
    rule; [Ok []] is the result [nil, nil]. *)
Definition FetchMessages (rule : Rule) (client : Client) : result (list EmailMessage) :=
  '(criteria, options) ←
    wrapErr "failed to build search criteria: "
      (BuildSearchCriteria (Search rule) (Some (Output rule)));
  searchData ← wrapErr "failed to execute search: " (client_Search client criteria options);
  let totalFound :=
    if 0 <? imapclient.Count searchData then imapclient.Count searchData
    else len (imapclient.AllSeqNums searchData) in
  seqSet ← windowOf (Output rule) client searchData;
  match seqSet with
  | None => Ok []
  | Some seqSet => fetchWindow (Output rule) client totalFound seqSet
  end.
End Fetch.

(** ** A session for closed examples *)

(** Modelled from the spec: [EmailMessage] and [NewEmailMessageFromIMAP]
    are not part of the verified sources.  The specification describes
    the assembled message as the fetched structure record (identifier,
    envelope, flags, size) with the total match count and the ordered
    list of MIME parts it is given; the assembler of the examples stores
    its two arguments and never fails. *)
Record ExampleEmail : Type := mkExampleEmail {
  em_SeqNum : Z;
  em_UID : Z;
  em_Subject : string;
  em_MimeParts : list MimePart;
  em_TotalCount : Z }.

(** In the examples the body structure of a message is the list of the
    parts that the output asks for, and every output asks for them all. *)
#[export] Instance example_deps : FetchDeps := {|
  BodyStructureT := list MimePartMetadata;
  EnvelopeT := string;
  EmailMessage := ExampleEmail;
  set_TotalCount := fun e n =>
    mkExampleEmail (em_SeqNum e) (em_UID e) (em_Subject e) (em_MimeParts e) n;
  BuildFetchOptions := fun _ =>
    Ok (imapclient.mkFetchOptions true true false false true true []);
  determineRequiredBodySections := fun bs _ => Ok bs;
  NewEmailMessageFromIMAP := fun msg parts =>
    Ok (mkExampleEmail (imapclient.SeqNum _ _ msg) (imapclient.buf_UID _ _ msg)
          (imapclient.buf_Envelope _ _ msg) parts 0) |}.

(** [seq_range lo n] is [lo; lo + 1; ...] of length [n]. *)
Fixpoint seq_range (lo : Z) (n : nat) : list Z :=
  match n with
  | O => []
  | S n' => lo :: seq_range (lo + 1) n'
  end.

(** Whether a number is in a number set, in a mailbox whose last message
    has the number [exists_]: for sequence numbers the count of messages,
    for UIDs the largest UID ([0] in a range stands for the last one). *)
Definition in_set (exists_ : Z) (set : imap.NumSet) (num : Z) : bool :=
  existsb (fun '(a, b) =>
             let a := if a =? 0 then exists_ else a in
             let b := if b =? 0 then exists_ else b in
             (Z.min a b <=? num) && (num <=? Z.max a b)) set.

(** A mailbox of [exists_] messages without content, on a server that
    answers a search with the count only, and a fetch with the messages
    of the set in ascending order. *)
Definition count_only_client (exists_ : Z) : Client :=
  mkClient
    (fun _ _ => Ok (imapclient.mkSearchData [] exists_))
    (fun set _ =>
       imapclient.mkFetchCommand _ _
         (Ok (map (fun n => imapclient.mkFetchMessageBuffer _ _ n (1000 + n) [] "")
                  (filter (fun n => in_set exists_ set n = true)
                          (seq_range 1 (Z.to_nat exists_)))))
         [] None).

Definition example_rule (search : SearchConfig) (output : OutputConfig) : Rule :=
  mkRule "example" "" search output.

(** The same mailbox on a server that answers a search with the sequence
    numbers [1..exists_] of all its messages, oldest first, and their
    count. *)
Definition listing_client (exists_ : Z) : Client :=
  mkClient
    (fun _ _ => Ok (imapclient.mkSearchData (seq_range 1 (Z.to_nat exists_)) exists_))
    (client_Fetch (count_only_client exists_)).


(** ** Package [dsl]: validation of a search configuration (types.go) *)

(** A character of the class [[a-zA-Z0-9_.-]]. *)
Definition is_keyword_char (c : ascii) : bool :=
  let n := N_of_ascii c in
  (((97 <=? n) && (n <=? 122)) || ((65 <=? n) && (n <=? 90))
   || ((48 <=? n) && (n <=? 57)) || (n =? 95) || (n =? 46) || (n =? 45))%N.

(** [^[a-zA-Z0-9_.-]+$] *)
Definition keyword_re : regex := Plus (Class is_keyword_char).

Fixpoint all_chars (p : ascii -> bool) (s : string) : bool :=
  match s with
  | EmptyString => true
  | String c s' => p c && all_chars p s'
  end.

(** [regexp.MatchString(`^[a-zA-Z0-9_.-]+$`, flag)] *)
Definition MatchString_keyword (s : string) : bool :=
  match s with
  | EmptyString => false
  | String _ _ => all_chars is_keyword_char s
  end.

(** The map [standardFlags] of [isValidFlag]; a missing key reads as
    [false]. *)
Definition validFlagNames : gmap string bool :=
  <["seen" := true]> (
  <["answered" := true]> (
  <["flagged" := true]> (
  <["deleted" := true]> (
  <["draft" := true]> (
  <["recent" := true]> (
  <["important" := true]> ∅)))))).

(** [isValidFlag] checks if a flag name is valid. *)
Definition isValidFlag `{GoRuntime} (flag : string) : bool :=
  let flagLower := strings_ToLower flag in
  if default false (validFlagNames !! flagLower) then true
  else if HasPrefix flag backslash || HasPrefix flag "$" then true
  else MatchString_keyword flag.

(** [if _, err := f(x); err != nil { return fmt.Errorf(prefix + "%w", err) }] *)
Definition check {A : Type} (prefix : string) (r : result A) : result unit :=
  match r with
  | Ok _ => Ok tt
  | Err e => Err (prefix +:+ e)
  end.

(** The loop over a flag list of [SearchConfig.Validate] and of
    [FlagActions.Validate]: the first invalid flag is the error. *)
Fixpoint validate_flags `{GoRuntime} (listName : string) (flags : list string)
  : result unit :=
  match flags with
  | [] => Ok tt
  | flag :: flags' =>
      if isValidFlag flag then validate_flags listName flags'
      else Err ("invalid flag in '" +:+ listName +:+ "' list: " +:+ flag)
  end.

Section Validation.
Context `{ImapLib}.

(** The checks of [SearchConfig.Validate] before those of the operator:
    dates, header, flags and sizes. *)
Definition validate_criteria (s : SearchConfig) : result unit :=
  _ ← (if decide (Since s = "") then Ok tt
       else check "invalid 'since' date: " (parseDate (Since s)));
  _ ← (if decide (Before s = "") then Ok tt
       else check "invalid 'before' date: " (parseDate (Before s)));
  _ ← (if decide (On s = "") then Ok tt
       else check "invalid 'on' date: " (parseDate (On s)));
  _ ← match Header s with
      | Some h =>
          if decide (Header_Name h = "")
          then Err "header name is required when using header search"
          else Ok tt
      | None => Ok tt
      end;
  _ ← match Flags s with
      | Some fl => _ ← validate_flags "has" (Has fl); validate_flags "not_has" (NotHas fl)
      | None => Ok tt
      end;
  match Size s with
  | Some sz =>
      _ ← (if decide (LargerThan sz = "") then Ok tt
           else check "invalid 'larger_than' size: " (parseSize (LargerThan sz)));
      if decide (SmallerThan sz = "") then Ok tt
      else check "invalid 'smaller_than' size: " (parseSize (SmallerThan sz))
  | None => Ok tt
  end.

(** [for i, condition := range s.Conditions { ... condition.Validate() ... }],
    the call of [Validate] being the argument [validate]. *)
Fixpoint validate_conditions (validate : SearchConfig -> result unit) (i : Z)
    (conditions : list ComplexSearchConfig) : result unit :=
  match conditions with
  | [] => Ok tt
  | condition :: conditions' =>
      match validate condition with
      | Ok _ => validate_conditions validate (i + 1) conditions'
      | Err e => Err ("invalid condition at index " +:+ pretty i +:+ ": " +:+ e)
      end
  end.

Definition SearchConfig_Validate_with (validate : SearchConfig -> result unit)
    (s : SearchConfig) : result unit :=
  _ ← validate_criteria s;
  if decide (Operator_ s <> "") then
    if bool_decide (Operator_ s <> OperatorAnd) && bool_decide (Operator_ s <> OperatorOr)
       && bool_decide (Operator_ s <> OperatorNot)
    then Err ("invalid operator: " +:+ Operator_ s +:+ " (must be 'and', 'or', or 'not')")
    else if decide (length (Conditions s) = 0%nat)
    then Err ("operator " +:+ Operator_ s +:+ " specified but no conditions provided")
    else if bool_decide (Operator_ s = OperatorNot)
            && bool_decide (1 < length (Conditions s))%nat
    then Err ("operator 'not' can only have one condition, but "
              +:+ pretty (length (Conditions s)) +:+ " were provided")
    else validate_conditions validate 0 (Conditions s)
  else Ok tt.

(** [SearchConfig.Validate] checks if the search config is valid
    ([ComplexSearchConfig.Validate] is the same function). *)
Fixpoint SearchConfig_Validate (s : SearchConfig) {struct s} : result unit :=
  SearchConfig_Validate_with SearchConfig_Validate s.
End Validation.

(** ** Specification-side definitions *)

(** The number that a string of decimal digits denotes. *)
Fixpoint decimal_acc (s : string) (n : Z) : Z :=
  match s with
  | EmptyString => n
  | String c s' => decimal_acc s' (n * 10 + digit_val c)
  end.

Definition decimal_value (s : string) : Z := decimal_acc s 0.

Fixpoint all_digits (s : string) : bool :=
  match s with
  | EmptyString => true
  | String c s' => is_digit c && all_digits s'
  end.

(** The factor of a unit suffix: 1 for B or none, 1024 for K, 1024^2 for
    M, 1024^3 for G. *)
Definition multiplier (unit : string) : Z :=
  if decide (unit = "K") then 1024
  else if decide (unit = "M") then 1024 ^ 2
  else if decide (unit = "G") then 1024 ^ 3
  else 1.

(** The children of a combinator, compiled in order without output
    configuration; the first error is returned. *)
Fixpoint compile_children `{ImapLib} (conditions : list SearchConfig)
  : result (list imap.SearchCriteria) :=
  match conditions with
  | [] => Ok []
  | condition :: conditions' =>
      '(c, _) ← BuildSearchCriteria condition None;
      cs ← compile_children conditions';
      Ok (c :: cs)
  end.

(** The pairs (0,1), (2,3), ... of a list; a trailing element is paired
    with itself. *)
Fixpoint or_pairs {A : Type} (cs : list A) : list (A * A) :=
  match cs with
  | [] => []
  | [c] => [(c, c)]
  | c1 :: c2 :: cs' => (c1, c2) :: or_pairs cs'
  end.

(** [list[lo..hi]], both ends included. *)
Definition slice {A : Type} (l : list A) (lo hi : Z) : list A :=
  take (Z.to_nat (hi - lo + 1)) (drop (Z.to_nat lo) l).

(** The window of a list of [L] identifiers for a limit and an offset:
    [list[endIdx..startIdx]] with [startIdx = L - 1 - offset] and
    [endIdx = max(0, startIdx - limit + 1)], newest first. *)
Definition window_spec (l : list Z) (limit offset : Z) : list Z :=
  let startIdx := Z.of_nat (length l) - 1 - offset in
  let endIdx := Z.max 0 (startIdx - limit + 1) in
  rev (slice l endIdx startIdx).

(** The sequence set built by [AddNum] on each number in turn. *)
Definition nums (l : list Z) : imap.NumSet := map (fun n => (n, n)) l.

(** The content that a streamed response holds for the body section
    of a message and a part path: that of the last such item with a
    literal that could be read. *)
Definition fragment_item (seqNum : Z) (path : list Z) (itemSeqNum : Z)
    (cur : option string) (item : imapclient.FetchItemData) : option string :=
  match item with
  | imapclient.FetchItemDataBodySection section (Some (Ok content)) =>
      if decide (itemSeqNum = seqNum /\ imapclient.Part section = path)
      then Some content else cur
  | _ => cur
  end.

Definition fragment_from (seqNum : Z) (path : list Z)
    (msgs : list imapclient.FetchMessageData) (cur : option string) : option string :=
  fold_left (fun cur msg =>
               fold_left (fragment_item seqNum path (imapclient.data_SeqNum msg))
                         (imapclient.data_items msg) cur)
            msgs cur.

Definition fragment (msgs : list imapclient.FetchMessageData) (seqNum : Z) (path : list Z)
  : option string :=
  fragment_from seqNum path msgs None.

(** The MIME parts of a message whose fragments the response holds, in
    the order of the requirements; a requirement without fragment gives
    no part. *)
Definition found_parts (msgs : list imapclient.FetchMessageData) (seqNum : Z)
    (metadatas : list MimePartMetadata) : list MimePart :=
  omap (fun metadata =>
          newMimePart metadata <$> fragment msgs seqNum (meta_Path metadata))
       metadatas.

(** The messages of the batch assembled in order, each from the parts
    that [parts_for] gives it. *)
Fixpoint assemble_all `{rt : GoRuntime} {fd : @FetchDeps rt} (totalFound : Z)
    (parts_for : MessageFetchInfo -> list MimePart)
    (messagesToFetch : list MessageFetchInfo) (result_ : list EmailMessage)
  : result (list EmailMessage) :=
  match messagesToFetch with
  | [] => Ok result_
  | msgInfo :: messagesToFetch' =>
      email ← wrapErr "failed to convert message: "
                (NewEmailMessageFromIMAP (Message msgInfo) (parts_for msgInfo));
      assemble_all totalFound parts_for messagesToFetch'
        (result_ ++ [set_TotalCount email (UInt32.wrap totalFound)])
  end.

(** A mailbox of two messages, 7 and 8.  Message 7 needs the parts [1]
    and [2], message 8 the part [1]; the batched response holds part
    [1] of each and omits part [2] of message 7. *)
Definition text_part (path : list Z) : MimePartMetadata :=
  mkMimePartMetadata path "text" "plain" ∅ ""
    (imapclient.mkFetchItemBodySection "" path true).

Definition two_message_client : Client :=
  mkClient
    (fun _ _ => Ok (imapclient.mkSearchData [7; 8] 2))
    (fun _ _ =>
       imapclient.mkFetchCommand _ _
         (Ok [imapclient.mkFetchMessageBuffer _ _ 7 107 [text_part [1]; text_part [2]] "a";
              imapclient.mkFetchMessageBuffer _ _ 8 108 [text_part [1]] "b"])
         [imapclient.mkFetchMessageData 8
            [imapclient.FetchItemDataOther;
             imapclient.FetchItemDataBodySection
               (imapclient.mkFetchItemBodySection "" [1] true) (Some (Ok "world"))];
          imapclient.mkFetchMessageData 7
            [imapclient.FetchItemDataBodySection
               (imapclient.mkFetchItemBodySection "" [1] true) (Some (Ok "hello"))]]
         None).

(** A string without blank. *)
Fixpoint no_space (s : string) : bool :=
  match s with
  | EmptyString => true
  | String c s' => negb (bool_decide (c = " "%char)) && no_space s'
  end.

(** A key is well formed when it is a sequence number of 32 bits, a
    colon and a path key. *)
Definition wf_key (k : string) : Prop :=
  exists n s, UInt32.in_range n /\ k = pretty n +:+ ":" +:+ s.

(** The batch that the first pass sets aside for [two_message_client]. *)
Definition two_message_batch : list MessageFetchInfo :=
  [mkMessageFetchInfo
     (imapclient.mkFetchMessageBuffer _ _ 7 107 [text_part [1]; text_part [2]] "a")
     [text_part [1]; text_part [2]] 0;
   mkMessageFetchInfo
     (imapclient.mkFetchMessageBuffer _ _ 8 108 [text_part [1]] "b")
     [text_part [1]] 1].

(** A runtime for the examples with dates: [time.Parse] reads
    ["2024-01-15"] with the layout ["2006-01-02"], and ["03/04/2025"]
    with the layouts ["01/02/2006"] (March 4) and ["02/01/2006"]
    (April 3); a time is a number of days since 1970-01-01 and
    [time_Now] is 2025-03-04. *)
Definition table_Parse (layout value : string) : option Z :=
  if decide (value = "2024-01-15") then
    if decide (layout = "2006-01-02") then Some 19737 else None
  else if decide (value = "03/04/2025") then
    if decide (layout = "01/02/2006") then Some 20151
    else if decide (layout = "02/01/2006") then Some 20181
    else None
  else None.

Definition table_runtime : GoRuntime := {|
  Time := Z;
  time_zero := 0;
  time_Parse := table_Parse;
  time_Now := 20151;
  time_Date0 := fun t => t;
  time_AddDate := fun t _ _ d => t + d;
  strings_ToLower := ascii_ToLower |}.

(** The examples with dates are flat conditions; their [And] only
    joins the lists of the two criteria. *)
Definition table_imap : @ImapLib table_runtime :=
  {| criteria_And := fun a b =>
       imap.mkSearchCriteria
         (imap.UID a ++ imap.UID b) (imap.Since a) (imap.Before a)
         (imap.Header a ++ imap.Header b) (imap.Body a ++ imap.Body b)
         (imap.Text a ++ imap.Text b) (imap.Flag a ++ imap.Flag b)
         (imap.NotFlag a ++ imap.NotFlag b) (imap.Larger a) (imap.Smaller a)
         (imap.Not a ++ imap.Not b) (imap.Or a ++ imap.Or b) |}.

(** The layouts of [parseDate] in the order in which they are tried. *)
Definition all_layouts : list string := time_RFC3339 :: "2006-01-02" :: formats.

(** A header condition, present when its value is not empty. *)
Definition header_entry (key value : string) : list (string * string) :=
  if decide (value = "") then [] else [(key, value)].

(** The header conditions of a flat search configuration, in the order
    in which [BuildSearchCriteria] appends them. *)
Definition headers_of (config : SearchConfig) : list (string * string) :=
  header_entry "From" (From config) ++ header_entry "To" (To config)
  ++ header_entry "Cc" (Cc config) ++ header_entry "Bcc" (Bcc config)
  ++ header_entry "Subject" (Subject config)
  ++ header_entry "Subject" (SubjectContains config)
  ++ match Header config with
     | Some h =>
         if decide (Header_Name h = "") then []
         else [(Header_Name h, Header_Value h)]
     | None => []
     end.

(** ** The passes of [FetchMessages]: specification-side definitions *)

(** The messages of a structure fetch that need no MIME part, in
    order. *)
Fixpoint immediate `{rt : GoRuntime} {fd : @FetchDeps rt} (output : OutputConfig)
    (messages : list Buffer) : list Buffer :=
  match messages with
  | [] => []
  | msg :: messages' =>
      match determineRequiredBodySections (imapclient.buf_BodyStructure _ _ msg) output with
      | Ok [] => msg :: immediate output messages'
      | _ => immediate output messages'
      end
  end.

(** The messages that need MIME parts, in order, each with its
    requirements and its position in the structure fetch. *)
Fixpoint deferred `{rt : GoRuntime} {fd : @FetchDeps rt} (output : OutputConfig)
    (messages : list Buffer) (msgIdx : Z) : list MessageFetchInfo :=
  match messages with
  | [] => []
  | msg :: messages' =>
      match determineRequiredBodySections (imapclient.buf_BodyStructure _ _ msg) output with
      | Ok (metadata :: metadatas) =>
          mkMessageFetchInfo msg (metadata :: metadatas) msgIdx
          :: deferred output messages' (msgIdx + 1)
      | _ => deferred output messages' (msgIdx + 1)
      end
  end.

(** A message converted from the buffer [msg] with some list of parts
    and stamped with the total count. *)
Definition converted `{rt : GoRuntime} {fd : @FetchDeps rt} (totalFound : Z)
    (msg : Buffer) (email : EmailMessage) : Prop :=
  exists parts e,
    NewEmailMessageFromIMAP msg parts = Ok e
    /\ email = set_TotalCount e (UInt32.wrap totalFound).

(** A mailbox of three messages: 7 and 9 need no MIME part, 8 needs the
    part [1], which the batched response holds. *)
Definition mixed_client : Client :=
  mkClient
    (fun _ _ => Ok (imapclient.mkSearchData [7; 8; 9] 3))
    (fun _ _ =>
       imapclient.mkFetchCommand _ _
         (Ok [imapclient.mkFetchMessageBuffer _ _ 9 109 [] "c";
              imapclient.mkFetchMessageBuffer _ _ 8 108 [text_part [1]] "b";
              imapclient.mkFetchMessageBuffer _ _ 7 107 [] "a"])
         [imapclient.mkFetchMessageData 8
            [imapclient.FetchItemDataBodySection
               (imapclient.mkFetchItemBodySection "" [1] true) (Some (Ok "world"))]]
         None).

(** A data item whose literal cannot be read. *)
Definition unreadable (item : imapclient.FetchItemData) : bool :=
  match item with
  | imapclient.FetchItemDataBodySection _ (Some (Err _)) => true
  | _ => false
  end.

(** A session whose batched response holds a section of message 8 and
    then a section of a message 99 that cannot be read. *)
Definition broken_client : Client :=
  mkClient
    (fun _ _ => Ok (imapclient.mkSearchData [8] 1))
    (fun _ _ =>
       imapclient.mkFetchCommand _ _
         (Ok [imapclient.mkFetchMessageBuffer _ _ 8 108 [text_part [1]] "b"])
         [imapclient.mkFetchMessageData 8
            [imapclient.FetchItemDataBodySection
               (imapclient.mkFetchItemBodySection "" [1] true) (Some (Ok "world"))];
          imapclient.mkFetchMessageData 99
            [imapclient.FetchItemDataOther;
             imapclient.FetchItemDataBodySection
               (imapclient.mkFetchItemBodySection "" [1] true)
               (Some (Err "unexpected EOF"))]]
         None).

(** The batch that the first pass sets aside for [broken_client]. *)
Definition broken_batch : list MessageFetchInfo :=
  [mkMessageFetchInfo
     (imapclient.mkFetchMessageBuffer _ _ 8 108 [text_part [1]] "b") [text_part [1]] 0].

(** ** Package [dsl]: actions (actions.go and the action types of types.go)

    [EmailMessage] is not part of the verified sources; the actions read
    its [UID] and the subject of its envelope only, which are fields of
    [ActionDeps], as are [strings.ToUpper] and [filepath.Join].  The
    session is the sequence of commands sent so far: a command fails or
    not depending on the commands before it. *)

Record FlagActions : Type := mkFlagActions {
  Add : list string;
  Remove : list string }.

Record ExportConfig : Type := mkExportConfig {
  export_Format : string;
  Directory : string;
  FilenameTemplate : string }.

Record DeleteConfig : Type := mkDeleteConfig {
  Trash : bool }.

(** A value held in an [interface{}], by its dynamic type: a [bool], or
    a value of another type with the name that [%T] prints. *)
Inductive AnyValue : Type :=
| AnyBool (b : bool)
| AnyOther (typeName : string).

(** The field [Delete interface{}] when it is not [nil]. *)
Inductive DeleteValue : Type :=
| DeleteBool (b : bool)
| DeleteMap (config : gmap string AnyValue)
| DeleteStruct (config : DeleteConfig)
| DeleteOther (typeName : string).

Record ActionConfig : Type := mkActionConfig {
  action_Flags : option FlagActions;
  MoveTo : string;
  CopyTo : string;
  Delete : option DeleteValue;
  Export : option ExportConfig }.

(** [FlagActions.Validate] *)
Definition FlagActions_Validate `{GoRuntime} (f : FlagActions) : result unit :=
  _ ← validate_flags "add" (Add f);
  validate_flags "remove" (Remove f).

(** [ExportConfig.Validate]; the receiver is a pointer, the result is
    the configuration after the call. *)
Definition ExportConfig_Validate (e : ExportConfig) : result ExportConfig :=
  if bool_decide (export_Format e <> "") && bool_decide (export_Format e <> "eml")
     && bool_decide (export_Format e <> "mbox")
  then Err ("invalid format: " +:+ export_Format e +:+ " (must be 'eml' or 'mbox')")
  else if decide (export_Format e = "")
  then Ok (mkExportConfig "eml" (Directory e) (FilenameTemplate e))
  else Ok e.

(** [ActionConfig.Validate]; the result is the configuration after the
    call. *)
Definition ActionConfig_Validate `{GoRuntime} (a : ActionConfig) : result ActionConfig :=
  _ ← match action_Flags a with
      | Some f => check "invalid flag actions: " (FlagActions_Validate f)
      | None => Ok tt
      end;
  export ← match Export a with
           | Some e => e' ← wrapErr "invalid export config: " (ExportConfig_Validate e);
                       Ok (Some e')
           | None => Ok None
           end;
  _ ← match Delete a with
      | Some (DeleteBool _) => Ok tt
      | Some (DeleteMap deleteConfig) =>
          match deleteConfig !! "trash" with
          | Some _ => Ok tt
          | None => Err "delete config must have a 'trash' field"
          end
      | Some _ => Err "delete config must be a boolean or an object with a 'trash' field"
      | None => Ok tt
      end;
  Ok (mkActionConfig (action_Flags a) (MoveTo a) (CopyTo a) (Delete a) export).

(** [Rule.Validate]; the field [Actions] of the rule is the second
    argument. *)
Definition Rule_Validate `{ImapLib} (r : Rule) (actions : ActionConfig)
  : result ActionConfig :=
  if decide (Name r = "") then Err "rule name is required"
  else
    _ ← check "invalid search config: " (SearchConfig_Validate (Search r));
    _ ← check "invalid output config: " (OutputConfig_Validate (Output r));
    wrapErr "invalid actions config: " (ActionConfig_Validate actions).

(** The flag constants of go-imap. *)
Definition imap_FlagSeen : string := backslash +:+ "Seen".
Definition imap_FlagAnswered : string := backslash +:+ "Answered".
Definition imap_FlagFlagged : string := backslash +:+ "Flagged".
Definition imap_FlagDeleted : string := backslash +:+ "Deleted".
Definition imap_FlagDraft : string := backslash +:+ "Draft".

(** The byte-wise upper-casing of ASCII letters. *)
Definition ascii_upper (c : ascii) : ascii :=
  let n := N_of_ascii c in
  if ((97 <=? n) && (n <=? 122))%N then ascii_of_N (n - 32) else c.

Fixpoint ascii_ToUpper (s : string) : string :=
  match s with
  | EmptyString => EmptyString
  | String c s' => String (ascii_upper c) (ascii_ToUpper s')
  end.

(** [strings.ReplaceAll(s, old, new)] for one-byte [old] and [new]. *)
Fixpoint ReplaceAll_byte (s : string) (old new : ascii) : string :=
  match s with
  | EmptyString => EmptyString
  | String c s' =>
      String (if decide (c = old) then new else c) (ReplaceAll_byte s' old new)
  end.

Class ActionDeps : Type := {
  Msg : Type;
  msg_UID : Msg -> Z;
  msg_Subject : Msg -> string;
  strings_ToUpper : string -> string;
  filepath_Join : string -> string -> string }.

(** [imap.StoreFlags] *)
Inductive StoreFlagsOp : Type := StoreFlagsAdd | StoreFlagsDel.

Record StoreFlags : Type := mkStoreFlags {
  Op : StoreFlagsOp;
  Silent : bool;
  store_Flags : list string }.

(** The static type of a number set given to a command. *)
Inductive NumKind : Type := SeqSet | UIDSet.

(** The commands of the session and of package [os] that the actions
    send. *)
Inductive Command : Type :=
| CmdStore (kind : NumKind) (numSet : imap.NumSet) (storeFlags : StoreFlags)
| CmdCopy (kind : NumKind) (numSet : imap.NumSet) (mailbox : string)
| CmdMove (kind : NumKind) (numSet : imap.NumSet) (mailbox : string)
| CmdExpunge
| CmdFetch (kind : NumKind) (numSet : imap.NumSet) (options : imapclient.FetchOptions)
| CmdMkdirAll (path : string) (perm : Z)
| CmdWriteFile (name : string) (data : string) (perm : Z).

(** What the server and the file system answer: the error of a command
    ([None] when it succeeds) and, for a fetch, the body sections of
    each message collected, both depending on the commands sent
    before. *)
Record Session : Type := mkSession {
  session_error : list Command -> Command -> option string;
  session_bodies : list Command -> Command -> list (list string) }.

(** A computation that sends commands: from the commands sent so far to
    the commands sent afterwards and the value or the error. *)
Definition Act (A : Type) : Type := list Command -> list Command * result A.

Definition act_ret {A : Type} (a : A) : Act A := fun trace => (trace, Ok a).

Definition act_bind {A B : Type} (m : Act A) (k : A -> Act B) : Act B :=
  fun trace =>
    match m trace with
    | (trace', Ok a) => k a trace'
    | (trace', Err e) => (trace', Err e)
    end.

Definition act_fail {A : Type} (e : string) : Act A := fun trace => (trace, Err e).

(** [if err != nil { return fmt.Errorf(prefix + "%w", err) }] *)
Definition act_wrap {A : Type} (prefix : string) (m : Act A) : Act A :=
  fun trace => let '(trace', r) := m trace in (trace', wrapErr prefix r).

Definition act_seq (m : Act unit) (k : Act unit) : Act unit := act_bind m (fun _ => k).

Section Actions.
Context `{GoRuntime} `{ActionDeps}.
Variable session : Session.

(** A command sent to the session. *)
Definition send (cmd : Command) : Act unit :=
  fun trace =>
    (trace ++ [cmd],
     match session_error session trace cmd with
     | Some e => Err e
     | None => Ok tt
     end).

(** [client.Fetch(numSet, options).Collect()], the body sections of
    each message. *)
Definition collect (cmd : Command) : Act (list (list string)) :=
  fun trace =>
    (trace ++ [cmd],
     match session_error session trace cmd with
     | Some e => Err e
     | None => Ok (session_bodies session trace cmd)
     end).

(** [isStandardFlag] checks if a flag is one of the standard IMAP
    flags. *)
Definition isStandardFlag (flag : string) : bool :=
  let flag := strings_ToLower flag in
  existsb (fun std => bool_decide (flag = std))
          ["seen"; "answered"; "flagged"; "deleted"; "draft"; "recent"].

(** The body of the loop of [convertToIMAPFlags]. *)
Definition convertFlag (flag : string) : string :=
  let flag := strings_ToLower flag in
  if decide (flag = "seen") then imap_FlagSeen
  else if decide (flag = "answered") then imap_FlagAnswered
  else if decide (flag = "flagged") then imap_FlagFlagged
  else if decide (flag = "deleted") then imap_FlagDeleted
  else if decide (flag = "draft") then imap_FlagDraft
  else if isStandardFlag flag && negb (HasPrefix flag backslash) then
    if (0 <? String.length flag)%nat
    then backslash +:+ strings_ToUpper (substring 0 1 flag)
         +:+ substring 1 (String.length flag - 1) flag
    else flag
  else flag.

(** [convertToIMAPFlags] converts string flags to IMAP flag format. *)
Definition convertToIMAPFlags (flags : list string) : list string :=
  map convertFlag flags.

(** [var uidSet imap.SeqSet; for _, msg := range messages
    { uidSet.AddNum(uint32(msg.UID)) }] *)
Definition uidSetOf (messages : list Msg) : imap.NumSet :=
  fold_left (fun uidSet msg => imap.AddNum uidSet (UInt32.wrap (msg_UID msg))) messages [].

(** [executeFlags] adds or removes flags from messages. *)
Definition executeFlags (messages : list Msg) (flagActions : option FlagActions)
  : Act unit :=
  match flagActions with
  | None => act_ret tt
  | Some flagActions =>
      if (len (Add flagActions) =? 0) && (len (Remove flagActions) =? 0) then act_ret tt
      else
        let uidSet := uidSetOf messages in
        act_seq
          (if 0 <? len (Add flagActions) then
             let flags := convertToIMAPFlags (Add flagActions) in
             act_wrap "failed to add flags: "
               (send (CmdStore SeqSet uidSet (mkStoreFlags StoreFlagsAdd true flags)))
           else act_ret tt)
          (if 0 <? len (Remove flagActions) then
             let flags := convertToIMAPFlags (Remove flagActions) in
             act_wrap "failed to remove flags: "
               (send (CmdStore SeqSet uidSet (mkStoreFlags StoreFlagsDel true flags)))
           else act_ret tt)
  end.

(** [executeCopy] copies messages to another mailbox. *)
Definition executeCopy (messages : list Msg) (targetMailbox : string) : Act unit :=
  if decide (targetMailbox = "") then act_ret tt
  else
    let uidSet := uidSetOf messages in
    act_wrap ("failed to copy messages to " +:+ targetMailbox +:+ ": ")
      (send (CmdCopy SeqSet uidSet targetMailbox)).

(** [executeMove] moves messages to another mailbox. *)
Definition executeMove (messages : list Msg) (targetMailbox : string) : Act unit :=
  if decide (targetMailbox = "") then act_ret tt
  else
    let uidSet := uidSetOf messages in
    act_wrap ("failed to move messages to " +:+ targetMailbox +:+ ": ")
      (send (CmdMove SeqSet uidSet targetMailbox)).

(** The type switch of [executeDelete]: whether the messages go to the
    trash, or the error of an unknown type. *)
Definition moveToTrash (deleteConfig : DeleteValue) : result bool :=
  match deleteConfig with
  | DeleteBool _ => Ok false
  | DeleteMap config =>
      match config !! "trash" with
      | Some (AnyBool trash) => Ok trash
      | _ => Ok false
      end
  | DeleteStruct config => Ok (Trash config)
  | DeleteOther typeName => Err ("invalid delete configuration type: " +:+ typeName)
  end.

(** [executeDelete] marks messages as deleted and expunges them, or
    moves them to the trash. *)
Definition executeDelete (messages : list Msg) (deleteConfig : option DeleteValue)
  : Act unit :=
  match deleteConfig with
  | None => act_ret tt
  | Some deleteConfig =>
      match moveToTrash deleteConfig with
      | Err e => act_fail e
      | Ok moveToTrash =>
          let uidSet := uidSetOf messages in
          if moveToTrash then
            act_wrap "failed to move messages to Trash: "
              (send (CmdMove SeqSet uidSet "Trash"))
          else
            act_seq
              (act_wrap "failed to mark messages as deleted: "
                 (send (CmdStore SeqSet uidSet
                          (mkStoreFlags StoreFlagsAdd true [imap_FlagDeleted]))))
              (act_wrap "failed to expunge messages: " (send CmdExpunge))
      end
  end.

(** [&imap.FetchOptions{UID: true, BodySection: {{Peek: true}}}] *)
Definition exportFetchOptions : imapclient.FetchOptions :=
  imapclient.mkFetchOptions false false false false true false
    [imapclient.mkFetchItemBodySection "" [] true].

(** The name of the file of an exported message. *)
Definition exportFilename (exportConfig : ExportConfig) (format : string) (msg : Msg)
  : string :=
  if decide (FilenameTemplate exportConfig <> "") then
    ReplaceAll_byte (msg_Subject msg) "/" "_" +:+ "-" +:+ pretty (msg_UID msg)
    +:+ "." +:+ format
  else "message-" +:+ pretty (msg_UID msg) +:+ "." +:+ format.

(** The loop of [executeExport] over the messages, from index [i]. *)
Fixpoint exportMessages (exportConfig : ExportConfig) (directory format : string)
    (i : Z) (messages : list Msg) : Act unit :=
  match messages with
  | [] => act_ret tt
  | msg :: messages' =>
      let uidSet := imap.AddNum [] (UInt32.wrap (msg_UID msg)) in
      act_bind
        (act_wrap ("failed to fetch message " +:+ pretty i +:+ " for export: ")
           (collect (CmdFetch SeqSet uidSet exportFetchOptions)))
        (fun fetchedMsgs =>
           let next := exportMessages exportConfig directory format (i + 1) messages' in
           match fetchedMsgs with
           | [] => next
           | fetchedMsg :: _ =>
               match fetchedMsg with
               | [] => next
               | messageContent :: _ =>
                   if (String.length messageContent =? 0)%nat then next
                   else
                     let filename := exportFilename exportConfig format msg in
                     let filePath := filepath_Join directory filename in
                     act_seq
                       (act_wrap ("failed to write message to file " +:+ filePath +:+ ": ")
                          (send (CmdWriteFile filePath messageContent 420)))
                       next
               end
           end)
  end.

(** [executeExport] exports messages to files.  (The defaults are also
    written to the configuration, which is not read again.) *)
Definition executeExport (messages : list Msg) (exportConfig : option ExportConfig)
  : Act unit :=
  match exportConfig with
  | None => act_ret tt
  | Some exportConfig =>
      let directory :=
        if decide (Directory exportConfig = "") then "." else Directory exportConfig in
      let format :=
        if decide (export_Format exportConfig = "") then "eml"
        else export_Format exportConfig in
      if bool_decide (format <> "eml") && bool_decide (format <> "mbox")
      then act_fail ("unsupported export format: " +:+ format)
      else
        act_seq
          (act_wrap "failed to create export directory: "
             (send (CmdMkdirAll directory 493)))
          (exportMessages exportConfig directory format 0 messages)
  end.

(** [reflect.DeepEqual] of the configuration and [ActionConfig{}]: every
    field is its zero value. *)
Definition isZeroConfig (actions : ActionConfig) : bool :=
  bool_decide (action_Flags actions = None /\ MoveTo actions = "" /\ CopyTo actions = ""
               /\ Delete actions = None /\ Export actions = None).

(** [ExecuteActions] performs the specified actions on the matched
    messages. *)
Definition ExecuteActions (messages : list Msg) (actions : option ActionConfig)
  : Act unit :=
  match actions with
  | None => act_ret tt
  | Some actions =>
      if isZeroConfig actions then act_ret tt
      else
        act_seq
          (match action_Flags actions with
           | Some flags =>
               act_wrap "failed to execute flag actions: "
                 (executeFlags messages (Some flags))
           | None => act_ret tt
           end)
          (act_seq
             (if decide (CopyTo actions <> "") then
                act_wrap ("failed to copy messages to " +:+ CopyTo actions +:+ ": ")
                  (executeCopy messages (CopyTo actions))
              else act_ret tt)
             (if decide (MoveTo actions <> "") then
                act_wrap ("failed to move messages to " +:+ MoveTo actions +:+ ": ")
                  (executeMove messages (MoveTo actions))
              else
                act_seq
                  (match Delete actions with
                   | Some config =>
                       act_wrap "failed to delete messages: "
                         (executeDelete messages (Some config))
                   | None => act_ret tt
                   end)
                  (match Export actions with
                   | Some config =>
                       act_wrap "failed to export messages: "
                         (executeExport messages (Some config))
                   | None => act_ret tt
                   end)))
  end.
End Actions.

(** The actions of the examples: the messages are those of the example
    session, upper-casing is that of ASCII letters, and a path is joined
    with a slash. *)
#[export] Instance example_actions : ActionDeps := {|
  Msg := ExampleEmail;
  msg_UID := em_UID;
  msg_Subject := em_Subject;
  strings_ToUpper := ascii_ToUpper;
  filepath_Join := fun dir name => dir +:+ "/" +:+ name |}.

(** Two messages with the UIDs 101 and 102. *)
Definition two_messages : list (@Msg example_actions) :=
  [mkExampleEmail 1 101 "re: a/b" [] 2; mkExampleEmail 2 102 "b" [] 2].

(** A session in which every command succeeds and every fetch collects
    one message with the body ["body"]. *)
Definition obliging_session : Session :=
  mkSession (fun _ _ => None) (fun _ _ => [["body"]]).


(** A command that names messages names them by a sequence set: the set
    [set] for [STORE], [COPY] and [MOVE], one number for [FETCH]. *)
Definition addresses (set : imap.NumSet) (cmd : Command) : Prop :=
  match cmd with
  | CmdStore kind numSet _ | CmdCopy kind numSet _ | CmdMove kind numSet _ =>
      kind = SeqSet /\ numSet = set
  | CmdFetch kind numSet _ => kind = SeqSet /\ exists num, numSet = [(num, num)]
  | _ => True
  end.

(** The commands that a computation sends all satisfy [P]. *)
Definition sends {A : Type} (P : Command -> Prop) (m : Act A) : Prop :=
  forall trace, exists cmds, fst (m trace) = trace ++ cmds /\ Forall P cmds.

(** ** Values of a YAML document

    A Go map that is iterated is a list of entries in the order of the
    iteration, which Go leaves open; a lookup takes the entry of the
    key. *)

(** A value of the YAML document held in an [interface{}]. *)
#[warnings="-register-all"]
Inductive Value : Type :=
| VString (s : string)
| VInt (n : Z)
| VBool (b : bool)
| VSlice (elems : list Value)
| VMap (entries : list (string * Value))
| VOther (typeName : string).

(** [%T] *)
Definition typeOf (v : Value) : string :=
  match v with
  | VString _ => "string"
  | VInt _ => "int"
  | VBool _ => "bool"
  | VSlice _ => "[]interface {}"
  | VMap _ => "map[string]interface {}"
  | VOther typeName => typeName
  end.

(** [m[key]] with its presence. *)
Fixpoint lookup_entry {A : Type} (key : string) (m : list (string * A)) : option A :=
  match m with
  | [] => None
  | (k, v) :: m' => if decide (k = key) then Some v else lookup_entry key m'
  end.

(** The type assertions [v, ok := m[key].(T)]. *)
Definition asString (v : option Value) : option string :=
  match v with Some (VString s) => Some s | _ => None end.
Definition asInt (v : option Value) : option Z :=
  match v with Some (VInt n) => Some n | _ => None end.
Definition asBool (v : option Value) : option bool :=
  match v with Some (VBool b) => Some b | _ => None end.
Definition asSlice (v : option Value) : option (list Value) :=
  match v with Some (VSlice elems) => Some elems | _ => None end.
Definition asMap (v : option Value) : option (list (string * Value)) :=
  match v with Some (VMap entries) => Some entries | _ => None end.

(** ** Package [dsl]: decoding the output configuration (types.go) *)

(** [contentField.Types[j] = t.(string)]: an element of another type is
    a run-time panic. *)
Fixpoint typesOf (types : list Value) : result (list string) :=
  match types with
  | [] => Ok []
  | VString t :: types' => rest ← typesOf types'; Ok (t :: rest)
  | t :: _ =>
      Err ("panic: interface conversion: interface {} is " +:+ typeOf t +:+ ", not string")
  end.

(** The content of a [body] field. *)
Definition bodyContent (contentMap : list (string * Value)) : ContentField :=
  mkContentField
    (default "" (asString (lookup_entry "type" contentMap)))
    (default 0 (asInt (lookup_entry "max_length" contentMap)))
    (default 0 (asInt (lookup_entry "min_length" contentMap)))
    "" [] false true.

(** The content of a [mime_parts] field. *)
Definition mimePartsContent (contentMap : list (string * Value)) : result ContentField :=
  types ← match asSlice (lookup_entry "types" contentMap) with
          | Some types => typesOf types
          | None => Ok []
          end;
  Ok (mkContentField
        (default "" (asString (lookup_entry "type" contentMap)))
        (default 0 (asInt (lookup_entry "max_length" contentMap)))
        (default 0 (asInt (lookup_entry "min_length" contentMap)))
        (default "" (asString (lookup_entry "mode" contentMap)))
        types
        (default true (asBool (lookup_entry "show_types" contentMap)))
        (default false (asBool (lookup_entry "show_content" contentMap)))).

(** The body of the loop of [UnmarshalYAML] over the fields. *)
Definition decodeField (field : Value) : result AnyField :=
  match field with
  | VString f => Ok (IsField (mkField f None))
  | VMap f =>
      match asMap (lookup_entry "body" f) with
      | Some contentMap => Ok (IsField (mkField "body" (Some (bodyContent contentMap))))
      | None =>
          match asMap (lookup_entry "mime_parts" f) with
          | Some contentMap =>
              contentField ← mimePartsContent contentMap;
              Ok (IsField (mkField "mime_parts" (Some contentField)))
          | None => Ok NotField
          end
      end
  | _ => Ok NotField
  end.

Fixpoint decodeFields (fields : list Value) : result (list AnyField) :=
  match fields with
  | [] => Ok []
  | field :: fields' =>
      f ← decodeField field;
      fs ← decodeFields fields';
      Ok (f :: fs)
  end.

(** [OutputConfig.UnmarshalYAML]: [unmarshal] is the result of decoding
    the document into the temporary struct, which has the three fields
    [format], [limit] and [fields]; the result is the receiver after the
    call. *)
Definition UnmarshalYAML (o : OutputConfig) (unmarshal : result (string * Z * list Value))
  : result OutputConfig :=
  '(format, limit, fields) ← unmarshal;
  fields ← decodeFields fields;
  Ok (mkOutputConfig format limit (Offset o) (AfterUID o) (BeforeUID o) fields).

(** ** Package [types] of mailgen: the template configuration, and
    [MailGenerator.Generate]

    A map that is only handed to the template engine is a [gmap].  The
    template engine
    ([text/template] with the Sprig functions) is a field of
    [TemplateEngine]. *)

Record EmailTemplate : Type := mkEmailTemplate {
  tpl_Subject : string;
  tpl_From : string;
  tpl_To : string;
  tpl_Cc : string;
  tpl_Bcc : string;
  tpl_ReplyTo : string;
  tpl_Body : string }.

Record RuleConfig : Type := mkRuleConfig {
  rule_Template : string;
  Variations : list (list (string * string)) }.

Record GenerateConfig : Type := mkGenerateConfig {
  gen_Rule : string;
  gen_Count : Z;
  gen_Output : string }.

Record TemplateConfig : Type := mkTemplateConfig {
  Variables : list (string * Value);
  Templates : list (string * EmailTemplate);
  Rules : list (string * RuleConfig);
  Generate_ : list GenerateConfig }.

Record Email : Type := mkEmail {
  email_Subject : string;
  email_From : string;
  email_To : string;
  email_Cc : string;
  email_Bcc : string;
  email_ReplyTo : string;
  email_Body : string }.

(** The loop of [validateVariables] over the elements of a slice. *)
Fixpoint validateElems (currentPath : string) (i : Z) (elems : list Value) : result unit :=
  match elems with
  | [] => Ok tt
  | VString _ :: elems' => validateElems currentPath (i + 1) elems'
  | elem :: _ =>
      Err ("variable at path '" +:+ currentPath +:+ "[" +:+ pretty i
           +:+ "]' must be a string, got " +:+ typeOf elem)
  end.

Definition joinPath (path key : string) : string :=
  if decide (path <> "") then path +:+ "." +:+ key else key.

(** One iteration of the loop of [validateVariables]: the value at
    [currentPath]. *)
Fixpoint validateValue (currentPath : string) (value : Value) {struct value}
  : result unit :=
  match value with
  | VString _ => Ok tt
  | VSlice v => validateElems currentPath 0 v
  | VMap v =>
      (fix loop (entries : list (string * Value)) : result unit :=
         match entries with
         | [] => Ok tt
         | (key, value) :: entries' =>
             _ ← validateValue (joinPath currentPath key) value;
             loop entries'
         end) v
  | _ =>
      Err ("variable at path '" +:+ currentPath
           +:+ "' must be a string, string slice, or map of strings, got "
           +:+ typeOf value)
  end.

(** [validateVariables] ensures all values in the variables map are
    either strings or [[]string]. *)
Fixpoint validateVariables (vars : list (string * Value)) (path : string) : result unit :=
  match vars with
  | [] => Ok tt
  | (key, value) :: vars' =>
      _ ← validateValue (joinPath path key) value;
      validateVariables vars' path
  end.

(** The loops of [TemplateConfig.Validate] over the entries of a
    variation and over the variations of a rule. *)
Fixpoint validateVariation (ruleName : string) (i : Z) (variation : list (string * string))
  : result unit :=
  match variation with
  | [] => Ok tt
  | (key, value) :: variation' =>
      if decide (value = "") then
        Err ("rule '" +:+ ruleName +:+ "' variation " +:+ pretty i
             +:+ " has empty value for key '" +:+ key +:+ "'")
      else validateVariation ruleName i variation'
  end.

Fixpoint validateVariations (ruleName : string) (i : Z)
    (variations : list (list (string * string))) : result unit :=
  match variations with
  | [] => Ok tt
  | variation :: variations' =>
      _ ← validateVariation ruleName i variation;
      validateVariations ruleName (i + 1) variations'
  end.

Fixpoint validateRules (templates : list (string * EmailTemplate))
    (rules : list (string * RuleConfig)) : result unit :=
  match rules with
  | [] => Ok tt
  | (ruleName, rule) :: rules' =>
      match lookup_entry (rule_Template rule) templates with
      | None =>
          Err ("rule '" +:+ ruleName +:+ "' refers to undefined template '"
               +:+ rule_Template rule +:+ "'")
      | Some _ =>
          _ ← validateVariations ruleName 0 (Variations rule);
          validateRules templates rules'
      end
  end.

Fixpoint validateGenerate (rules : list (string * RuleConfig)) (i : Z)
    (generate : list GenerateConfig) : result unit :=
  match generate with
  | [] => Ok tt
  | gen :: generate' =>
      match lookup_entry (gen_Rule gen) rules with
      | None =>
          Err ("generate entry " +:+ pretty i +:+ " refers to undefined rule '"
               +:+ gen_Rule gen +:+ "'")
      | Some _ =>
          if gen_Count gen <=? 0 then
            Err ("generate entry " +:+ pretty i +:+ " has invalid count "
                 +:+ pretty (gen_Count gen))
          else validateGenerate rules (i + 1) generate'
      end
  end.

(** [TemplateConfig.Validate] checks if the template configuration is
    valid. *)
Definition TemplateConfig_Validate (tc : TemplateConfig) : result unit :=
  _ ← wrapErr "invalid variables: " (validateVariables (Variables tc) "");
  if decide (length (Templates tc) = 0%nat) then Err "no templates defined"
  else if decide (length (Rules tc) = 0%nat) then Err "no rules defined"
  else if decide (length (Generate_ tc) = 0%nat) then Err "no generate section defined"
  else
    _ ← validateRules (Templates tc) (Rules tc);
    validateGenerate (Rules tc) 0 (Generate_ tc).

(** A value of the context of a template. *)
Inductive CtxValue : Type :=
| CtxVariables (variables : list (string * Value))
| CtxIndex (index : Z)
| CtxTemplate (template : EmailTemplate)
| CtxRule (rule : RuleConfig)
| CtxString (s : string).

Class TemplateEngine : Type := {
  (** [MailGenerator.processTemplate(name, tmpl, ctx)] *)
  processTemplate : string -> string -> gmap string CtxValue -> result string }.

(** The run-time panic of [i % 0]. *)
Definition divide_by_zero : string := "panic: runtime error: integer divide by zero".

Section Generator.
Context `{TemplateEngine}.

(** [processEmailTemplate] processes a single email template with the
    given context. *)
Definition processEmailTemplate (emailTemplate : EmailTemplate)
    (ctx : gmap string CtxValue) : result Email :=
  subject ← processTemplate "subject" (tpl_Subject emailTemplate) ctx;
  from ← processTemplate "from" (tpl_From emailTemplate) ctx;
  to ← (if decide (tpl_To emailTemplate <> "")
        then processTemplate "to" (tpl_To emailTemplate) ctx else Ok "");
  cc ← (if decide (tpl_Cc emailTemplate <> "")
        then processTemplate "cc" (tpl_Cc emailTemplate) ctx else Ok "");
  bcc ← (if decide (tpl_Bcc emailTemplate <> "")
         then processTemplate "bcc" (tpl_Bcc emailTemplate) ctx else Ok "");
  replyTo ← (if decide (tpl_ReplyTo emailTemplate <> "")
             then processTemplate "reply_to" (tpl_ReplyTo emailTemplate) ctx else Ok "");
  body ← processTemplate "body" (tpl_Body emailTemplate) ctx;
  Ok (mkEmail subject from to cc bcc replyTo body).

(** The context of a template: the variables, the index, the template
    and the rule. *)
Definition baseContext (variables : list (string * Value)) (i : Z)
    (tmpl : EmailTemplate) (rule : RuleConfig) : gmap string CtxValue :=
  <["variables" := CtxVariables variables]> (
  <["index" := CtxIndex i]> (
  <["template" := CtxTemplate tmpl]> (
  <["rule" := CtxRule rule]> ∅))).

(** The loop that processes the values of a variation as templates. *)
Fixpoint processVariation (varCtx : gmap string CtxValue)
    (variation : list (string * string)) (processedVariation : gmap string string)
  : result (gmap string string) :=
  match variation with
  | [] => Ok processedVariation
  | (key, value) :: variation' =>
      processed ←
        wrapErr ("failed to process variation value for key '" +:+ key +:+ "': ")
          (processTemplate key value varCtx);
      processVariation varCtx variation' (<[key := processed]> processedVariation)
  end.

(** The loop [for i := 0; i < genConfig.Count; i++], [n] being the
    number of iterations left. *)
Fixpoint generateEntry (variables : list (string * Value)) (genConfig : GenerateConfig)
    (rule : RuleConfig) (tmpl : EmailTemplate) (n : nat) (i : Z) (emails : list Email)
  : result (list Email) :=
  match n with
  | O => Ok emails
  | S n' =>
      if decide (length (Variations rule) = 0%nat) then Err divide_by_zero
      else
        let variationIndex := i mod Z.of_nat (length (Variations rule)) in
        let variation := default [] (Variations rule !! Z.to_nat variationIndex) in
        let varCtx := baseContext variables i tmpl rule in
        processedVariation ← processVariation varCtx variation ∅;
        let ctx := baseContext variables i tmpl rule in
        let ctx := map_fold (fun k v ctx => <[k := CtxString v]> ctx) ctx
                            processedVariation in
        email ←
          wrapErr ("failed to process template for rule '" +:+ gen_Rule genConfig
                   +:+ "', index " +:+ pretty i +:+ ": ")
            (processEmailTemplate tmpl ctx);
        generateEntry variables genConfig rule tmpl n' (i + 1) (emails ++ [email])
  end.

(** The loop over the generate entries. *)
Fixpoint generateAll (config : TemplateConfig) (generate : list GenerateConfig)
    (emails : list Email) : result (list Email) :=
  match generate with
  | [] => Ok emails
  | genConfig :: generate' =>
      let rule := default (mkRuleConfig "" [])
                          (lookup_entry (gen_Rule genConfig) (Rules config)) in
      let tmpl := default (mkEmailTemplate "" "" "" "" "" "" "")
                          (lookup_entry (rule_Template rule) (Templates config)) in
      emails ← generateEntry (Variables config) genConfig rule tmpl
                 (Z.to_nat (gen_Count genConfig)) 0 emails;
      generateAll config generate' emails
  end.

(** [MailGenerator.Generate] generates emails based on the
    configuration. *)
Definition Generate (config : TemplateConfig) : result (list Email) :=
  _ ← wrapErr "invalid configuration: " (TemplateConfig_Validate config);
  generateAll config (Generate_ config) [].
End Generator.

(** An engine for the examples: a template is its own expansion. *)
#[export] Instance example_engine : TemplateEngine := {|
  processTemplate := fun _ tmpl _ => Ok tmpl |}.

(** The number of emails that the generate entries ask for. *)
Definition requested (generate : list GenerateConfig) : nat :=
  foldr (fun gen n => (Z.to_nat (gen_Count gen) + n)%nat) 0%nat generate.

(** A value of the variables that [validateVariables] accepts. *)
Fixpoint well_typed (value : Value) : Prop :=
  match value with
  | VString _ => True
  | VSlice elems => Forall (fun elem => exists s, elem = VString s) elems
  | VMap entries =>
      (fix all (entries : list (string * Value)) : Prop :=
         match entries with
         | [] => True
         | (_, value) :: entries' => well_typed value /\ all entries'
         end) entries
  | _ => False
  end.

(** * Properties *)

#[local] Arguments String.append : simpl nomatch.

(** ** Machine integers *)

Lemma Int64_wrap_small (z : Z) : Int64.in_range z -> Int64.wrap z = z.
Proof.
  unfold Int64.in_range, Int64.wrap, Int64.min_int, Int64.max_int. intros Hz.
  rewrite Z.mod_small by lia. lia.
Qed.

Lemma Int64_wrap_range (z : Z) : Int64.in_range (Int64.wrap z).
Proof.
  unfold Int64.in_range, Int64.wrap, Int64.min_int, Int64.max_int.
  pose proof (Z.mod_pos_bound (z + 2 ^ 63) (2 ^ 64) ltac:(lia)). lia.
Qed.

Lemma UInt32_wrap_small (z : Z) : UInt32.in_range z -> UInt32.wrap z = z.
Proof.
  unfold UInt32.in_range, UInt32.wrap, UInt32.max_uint. intros Hz.
  apply Z.mod_small. lia.
Qed.

(** ** Digits and the size pattern *)

Lemma digit_val_range (c : ascii) : is_digit c = true -> 0 <= digit_val c <= 9.
Proof.
  unfold is_digit, digit_val. intros H.
  apply andb_true_iff in H as [H1 H2].
  apply N.leb_le in H1, H2. lia.
Qed.

Lemma is_unit_not_digit (c : ascii) : is_unit c = true -> is_digit c = false.
Proof.
  unfold is_unit. repeat case_decide; subst; try reflexivity; discriminate.
Qed.

Lemma string_app_assoc (a b c : string) : (a +:+ b) +:+ c = a +:+ (b +:+ c).
Proof. induction a as [|x a IH]; [reflexivity | simpl; f_equal; exact IH]. Qed.

Lemma string_app_nil_r (a : string) : a +:+ "" = a.
Proof. induction a as [|x a IH]; [reflexivity | simpl; f_equal; exact IH]. Qed.

Lemma all_digits_app (a b : string) :
  all_digits (a +:+ b) = all_digits a && all_digits b.
Proof.
  induction a as [|x a IH]; simpl; [reflexivity|].
  rewrite IH. by rewrite andb_assoc.
Qed.

(** The language of [\d+]: the non-empty strings of digits. *)
Lemma matches_digits (ds : string) :
  matches (Plus (Class is_digit)) ds <-> ds <> "" /\ all_digits ds = true.
Proof.
  split.
  - intros Hm. remember (Plus (Class is_digit)) as r eqn:Hr.
    induction Hm as [| | r s Hs _ | r s1 s2 Hs1 _ Hs2 IH2 | |]; try discriminate.
    + injection Hr as ->. inversion Hs; subst. simpl.
      split; [discriminate | by rewrite andb_true_r].
    + injection Hr as ->. inversion Hs1; subst.
      destruct (IH2 eq_refl) as [_ Hd]. simpl.
      split; [discriminate|]. by apply andb_true_iff.
  - intros [Hne Hd]. induction ds as [|c ds IH]; [done|].
    simpl in Hd. apply andb_true_iff in Hd as [Hc Hd].
    destruct ds as [|c' ds'].
    + apply m_plus_one. by apply m_class.
    + change (String c (String c' ds')) with (String c "" +:+ String c' ds').
      apply m_plus_more; [by apply m_class|]. by apply IH.
Qed.

(** The language of [[BKMG]?]. *)
Lemma matches_unit (u : string) :
  matches (Opt (Class is_unit)) u <->
  u = "" \/ exists c, u = String c "" /\ is_unit c = true.
Proof.
  split.
  - intros Hm. inversion Hm as [| | | | |r s Hs]; subst; [by left|].
    inversion Hs; subst. right. eauto.
  - intros [-> | (c & -> & Hc)]; [apply m_opt_none|].
    apply m_opt_some. by apply m_class.
Qed.

Lemma matches_size_re (s : string) :
  matches size_re s <->
  exists ds u, s = ds +:+ u /\ matches (Plus (Class is_digit)) ds
               /\ matches (Opt (Class is_unit)) u.
Proof.
  unfold size_re. split.
  - intros Hm. inversion Hm; subst. eauto.
  - intros (ds & u & -> & Hd & Hu). by apply m_cat.
Qed.

Lemma span_digits_all (ds u : string) :
  all_digits ds = true ->
  (u = "" \/ exists c u', u = String c u' /\ is_digit c = false) ->
  span_digits (ds +:+ u) = (ds, u).
Proof.
  intros Hd Hu. induction ds as [|c ds IH]; simpl.
  - destruct Hu as [-> | (c & u' & -> & Hc)]; simpl; [reflexivity|].
    by rewrite Hc.
  - simpl in Hd. apply andb_true_iff in Hd as [Hc Hd].
    rewrite Hc, (IH Hd). reflexivity.
Qed.

Lemma span_digits_inv (s ds rest : string) :
  span_digits s = (ds, rest) ->
  s = ds +:+ rest /\ all_digits ds = true
  /\ (rest = "" \/ exists c u', rest = String c u' /\ is_digit c = false).
Proof.
  revert ds rest. induction s as [|c s IH]; simpl; intros ds rest Hs.
  - injection Hs as <- <-. auto.
  - destruct (is_digit c) eqn:Hc.
    + destruct (span_digits s) as [ds' rest'] eqn:Hs'.
      injection Hs as <- <-.
      destruct (IH _ _ eq_refl) as (-> & Hd & Hr).
      simpl. rewrite Hc. auto.
    + injection Hs as <- <-. simpl. split; [reflexivity|]. split; [reflexivity|].
      right. eauto.
Qed.

(** [FindStringSubmatch_size] computes the submatches of [size_re]. *)
Lemma FindStringSubmatch_size_spec (s ds u : string) :
  FindStringSubmatch_size s = Some (ds, u) <->
  s = ds +:+ u /\ matches (Plus (Class is_digit)) ds /\ matches (Opt (Class is_unit)) u.
Proof.
  unfold FindStringSubmatch_size. split.
  - destruct (span_digits s) as [ds' rest] eqn:Hs.
    apply span_digits_inv in Hs as (-> & Hd & _).
    destruct ds' as [|c ds']; [discriminate|].
    destruct rest as [|x [|y rest]]; try discriminate.
    + intros [= <- <-]. split; [reflexivity|].
      split; [by apply matches_digits | apply m_opt_none].
    + destruct (is_unit x) eqn:Hx; [|discriminate].
      intros [= <- <-]. split; [reflexivity|].
      split; [by apply matches_digits|]. apply matches_unit. right. eauto.
  - intros (-> & Hd & Hu).
    apply matches_digits in Hd as [Hne Hd]. apply matches_unit in Hu.
    rewrite span_digits_all; [| done |].
    + destruct ds as [|c ds]; [done|].
      destruct Hu as [-> | (x & -> & Hx)]; [reflexivity|]. by rewrite Hx.
    + destruct Hu as [-> | (x & -> & Hx)]; [by left|].
      right. exists x, "". split; [reflexivity|]. by apply is_unit_not_digit.
Qed.

Lemma FindStringSubmatch_size_None (s : string) :
  FindStringSubmatch_size s = None <-> ~ matches size_re s.
Proof.
  split.
  - intros Hn Hm. apply matches_size_re in Hm as (ds & u & Hm).
    apply FindStringSubmatch_size_spec in Hm. congruence.
  - intros Hm. destruct (FindStringSubmatch_size s) as [[ds u]|] eqn:Hf; [|reflexivity].
    exfalso. apply Hm. apply matches_size_re. exists ds, u.
    by apply FindStringSubmatch_size_spec.
Qed.

(** ** [strconv.ParseInt] on a string of digits *)

Lemma decimal_acc_mono (s : string) (n : Z) :
  all_digits s = true -> 0 <= n -> n <= decimal_acc s n.
Proof.
  revert n. induction s as [|c s IH]; simpl; intros n Hd Hn; [lia|].
  apply andb_true_iff in Hd as [Hc Hd].
  pose proof (digit_val_range c Hc).
  specialize (IH (n * 10 + digit_val c) Hd). lia.
Qed.

Lemma ParseUint_go_digits (s : string) (n : Z) :
  all_digits s = true -> 0 <= n <= 2 ^ 64 - 1 ->
  ParseUint_go s n =
  if decimal_acc s n <=? 2 ^ 64 - 1 then inr (decimal_acc s n) else inl ErrRange.
Proof.
  revert n. induction s as [|c s IH]; simpl; intros n Hd Hn.
  - destruct (Z.leb_spec n (2 ^ 64 - 1)); [reflexivity | lia].
  - apply andb_true_iff in Hd as [Hc Hd]. rewrite Hc.
    pose proof (digit_val_range c Hc) as Hv.
    destruct (Z.ltb_spec (2 ^ 64 - 1) (n * 10 + digit_val c)) as [Hbig | Hsmall].
    + pose proof (decimal_acc_mono s (n * 10 + digit_val c) Hd ltac:(lia)).
      destruct (Z.leb_spec (decimal_acc s (n * 10 + digit_val c)) (2 ^ 64 - 1));
        [lia | reflexivity].
    + apply IH; [done | lia].
Qed.

Lemma ParseInt_digits (ds : string) :
  ds <> "" -> all_digits ds = true ->
  ParseInt ds =
  if decimal_value ds <=? Int64.max_int then inr (decimal_value ds) else inl ErrRange.
Proof.
  intros Hne Hd. destruct ds as [|c ds]; [done|].
  assert (Hc : is_digit c = true) by (simpl in Hd; by apply andb_true_iff in Hd as [? _]).
  unfold ParseInt.
  assert (c <> "+"%char) as Hplus by (intros ->; discriminate).
  assert (c <> "-"%char) as Hminus by (intros ->; discriminate).
  rewrite (bool_decide_eq_false_2 _ Hminus).
  rewrite (decide_False (P := c = "+"%char)) by done.
  rewrite (decide_False (P := c = "-"%char)) by done.
  unfold ParseUint. rewrite ParseUint_go_digits by (done || lia).
  fold (decimal_value (String c ds)).
  unfold Int64.max_int.
  destruct (Z.leb_spec (decimal_value (String c ds)) (2 ^ 64 - 1)) as [H1 | H1].
  - cbn [negb andb].
    destruct (Z.leb_spec (2 ^ 63) (decimal_value (String c ds)));
      destruct (Z.leb_spec (decimal_value (String c ds)) (2 ^ 63 - 1));
      try lia; reflexivity.
  - destruct (Z.leb_spec (decimal_value (String c ds)) (2 ^ 63 - 1)); [lia | reflexivity].
Qed.

Lemma decimal_value_nonneg (ds : string) : all_digits ds = true -> 0 <= decimal_value ds.
Proof. intros Hd. apply (decimal_acc_mono ds 0 Hd). lia. Qed.

(** [parseSize] in terms of the submatches: the digits must denote an
    [int64]; the product is reduced to 64 bits. *)
Lemma parseSize_unfold (s : string) :
  parseSize s =
  match FindStringSubmatch_size s with
  | None => Err ("invalid size format: " +:+ s +:+ " (expected format: 100B, 10K, 5M, 1G)")
  | Some (ds, u) =>
      if decimal_value ds <=? Int64.max_int
      then Ok (Int64.wrap (decimal_value ds * multiplier u))
      else Err ("invalid size number: " +:+ ds)
  end.
Proof.
  unfold parseSize.
  destruct (FindStringSubmatch_size s) as [[ds u]|] eqn:Hf; [|reflexivity].
  apply FindStringSubmatch_size_spec in Hf as (_ & Hd & Hu).
  apply matches_digits in Hd as [Hne Hd]. apply matches_unit in Hu.
  rewrite ParseInt_digits by done.
  pose proof (decimal_value_nonneg ds Hd) as Hpos.
  destruct (Z.leb_spec (decimal_value ds) Int64.max_int) as [Hfit | Hbig]; [|reflexivity].
  assert (Hsmall : Int64.wrap (decimal_value ds * 1) = decimal_value ds).
  { rewrite Z.mul_1_r. apply Int64_wrap_small.
    unfold Int64.in_range, Int64.min_int. lia. }
  destruct Hu as [-> | (c & -> & Hc)].
  - rewrite decide_True by auto. unfold multiplier.
    repeat (rewrite decide_False by discriminate). by rewrite Hsmall.
  - unfold is_unit in Hc. unfold multiplier, Int64.mul.
    repeat case_decide; subst; try discriminate; try done;
      try (by rewrite Hsmall);
      match goal with H : _ \/ _ |- _ => destruct H; discriminate | _ => idtac end;
      match goal with H : ~ (_ \/ _) |- _ => exfalso; apply H; auto | _ => idtac end.
Qed.

(** ** [parseSize] *)

(** C6, as stated, fails: a string of twenty nines matches the pattern
    but is rejected, because the number does not fit 64 bits; and for
    ["9000000000G"] the returned value is not the numeric part
    multiplied by [1024^3]. *)
Lemma parseSize_not_exactly_pattern :
  (matches size_re "99999999999999999999"
   /\ ~ is_Ok (parseSize "99999999999999999999"))
  /\ (matches size_re "9000000000G"
      /\ exists v, parseSize "9000000000G" = Ok v
                   /\ v <> decimal_value "9000000000" * multiplier "G").
Proof.
  split; split.
  - apply matches_size_re. exists "99999999999999999999", "".
    split; [reflexivity|]. split; [|apply m_opt_none].
    apply matches_digits. split; [discriminate | reflexivity].
  - vm_compute. tauto.
  - apply matches_size_re. exists "9000000000", "G".
    split; [reflexivity|]. split.
    + apply matches_digits. split; [discriminate | reflexivity].
    + apply m_opt_some. by apply m_class.
  - exists (-8783067657709551616). split; [by vm_compute | by vm_compute].
Qed.

(** C6, amended: [parseSize] succeeds exactly on the strings that match
    [^(\d+)([BKMG])?$] and whose digits denote a number of at most
    [2^63 - 1]; the result is the numeric part times the factor of the
    unit, reduced to 64 bits, which is the product itself whenever the
    product is at most [2^63 - 1].  The examples of the specification
    hold. *)
Theorem parseSize_spec :
  (forall s v,
      parseSize s = Ok v <->
      exists ds u, s = ds +:+ u
                   /\ matches (Plus (Class is_digit)) ds
                   /\ matches (Opt (Class is_unit)) u
                   /\ decimal_value ds <= Int64.max_int
                   /\ v = Int64.wrap (decimal_value ds * multiplier u))
  /\ (forall s, is_Ok (parseSize s) -> matches size_re s)
  /\ (forall ds u,
         matches (Plus (Class is_digit)) ds -> matches (Opt (Class is_unit)) u ->
         decimal_value ds * multiplier u <= Int64.max_int ->
         parseSize (ds +:+ u) = Ok (decimal_value ds * multiplier u))
  /\ parseSize "10K" = Ok 10240
  /\ parseSize "5M" = Ok 5242880
  /\ parseSize "100B" = Ok 100
  /\ ~ is_Ok (parseSize "bad").
Proof.
  assert (Hiff : forall s v,
      parseSize s = Ok v <->
      exists ds u, s = ds +:+ u
                   /\ matches (Plus (Class is_digit)) ds
                   /\ matches (Opt (Class is_unit)) u
                   /\ decimal_value ds <= Int64.max_int
                   /\ v = Int64.wrap (decimal_value ds * multiplier u)).
  { intros s v. rewrite parseSize_unfold. split.
    - destruct (FindStringSubmatch_size s) as [[ds u]|] eqn:Hf; [|discriminate].
      apply FindStringSubmatch_size_spec in Hf as (Hs & Hd & Hu).
      destruct (Z.leb_spec (decimal_value ds) Int64.max_int); [|discriminate].
      intros [= <-]. exists ds, u. auto.
    - intros (ds & u & Hs & Hd & Hu & Hfit & ->).
      assert (Hf : FindStringSubmatch_size s = Some (ds, u))
        by (by apply FindStringSubmatch_size_spec).
      rewrite Hf. destruct (Z.leb_spec (decimal_value ds) Int64.max_int); [reflexivity | lia]. }
  split; [exact Hiff|]. split; [|split].
  - intros s Hok. destruct (parseSize s) as [v|] eqn:Hp; [|done].
    apply Hiff in Hp as (ds & u & Hs & Hd & Hu & _).
    apply matches_size_re. eauto.
  - intros ds u Hd Hu Hfit. apply Hiff. exists ds, u.
    split; [reflexivity|]. split; [done|]. split; [done|].
    pose proof Hd as Hd'. apply matches_digits in Hd' as [_ Hall].
    pose proof (decimal_value_nonneg ds Hall) as Hpos.
    assert (1 <= multiplier u) as Hm by (unfold multiplier; repeat case_decide; lia).
    split; [nia|].
    symmetry. apply Int64_wrap_small. unfold Int64.in_range, Int64.min_int. nia.
  - repeat split; by vm_compute.
Qed.

Lemma parseSize_spec_witness :
  parseSize ("10" +:+ "K") = Ok (decimal_value "10" * multiplier "K").
Proof.
  destruct parseSize_spec as (_ & _ & Hexact & _).
  apply Hexact.
  - apply matches_digits. split; [discriminate | reflexivity].
  - apply m_opt_some. by apply m_class.
  - by vm_compute.
Defined.

(** C9: ["9000000000G"] is accepted, its digits denote a number within
    [int64], and the value returned is negative: the product by
    [1024^3] is reduced modulo [2^64] and differs from the mathematical
    product.  In general every accepted string yields the wrapped
    product, with no overflow check. *)
Theorem parseSize_overflow_wraps :
  all_digits "9000000000" = true
  /\ 0 <= decimal_value "9000000000" <= Int64.max_int
  /\ parseSize "9000000000G" = Ok (-8783067657709551616)
  /\ Int64.wrap (9000000000 * 1024 ^ 3) = -8783067657709551616
  /\ 9000000000 * 1024 ^ 3 = -8783067657709551616 + 2 ^ 64
  /\ (forall s ds u v,
         FindStringSubmatch_size s = Some (ds, u) -> parseSize s = Ok v ->
         v = Int64.wrap (decimal_value ds * multiplier u)).
Proof.
  split; [reflexivity|]. split; [by vm_compute|]. split; [by vm_compute|].
  split; [by vm_compute|]. split; [by vm_compute|].
  intros s ds u v Hf. rewrite parseSize_unfold, Hf.
  destruct (decimal_value ds <=? Int64.max_int); [|discriminate].
  by intros [= <-].
Qed.

Lemma parseSize_overflow_wraps_witness :
  -8783067657709551616 = Int64.wrap (decimal_value "9000000000" * multiplier "G").
Proof.
  destruct parseSize_overflow_wraps as (_ & _ & _ & _ & _ & Hwrap).
  apply (Hwrap "9000000000G" "9000000000" "G"); reflexivity.
Defined.

(** ** [convertToIMAPFlag] *)

Lemma standardFlags_lookup (s : string) :
  standardFlags !! s =
  if decide (s = "seen") then Some "\Seen"
  else if decide (s = "answered") then Some "\Answered"
  else if decide (s = "flagged") then Some "\Flagged"
  else if decide (s = "deleted") then Some "\Deleted"
  else if decide (s = "draft") then Some "\Draft"
  else if decide (s = "recent") then Some "\Recent"
  else if decide (s = "important") then Some "$Important"
  else None.
Proof.
  unfold standardFlags.
  repeat (case_decide; [subst; by vm_compute | rewrite lookup_insert_ne by done]).
  apply lookup_empty.
Qed.

(** C7: a flag that starts with a backslash or a dollar sign is returned
    unchanged; otherwise the lower-cased flag is looked up: the seven
    standard names give their IMAP form, any other name is returned as
    it is.  With the lower-casing of ASCII letters, ["seen"] and
    ["SeEn"] give [\Seen], and ["\Flagged"] and ["CustomTag"] are
    unchanged. *)
Theorem convertToIMAPFlag_spec `{GoRuntime} (flag : string) :
  ((HasPrefix flag backslash = true \/ HasPrefix flag "$" = true) ->
   convertToIMAPFlag flag = flag)
  /\ ((HasPrefix flag backslash = false /\ HasPrefix flag "$" = false) ->
      (strings_ToLower flag = "seen" -> convertToIMAPFlag flag = "\Seen")
      /\ (strings_ToLower flag = "answered" -> convertToIMAPFlag flag = "\Answered")
      /\ (strings_ToLower flag = "flagged" -> convertToIMAPFlag flag = "\Flagged")
      /\ (strings_ToLower flag = "deleted" -> convertToIMAPFlag flag = "\Deleted")
      /\ (strings_ToLower flag = "draft" -> convertToIMAPFlag flag = "\Draft")
      /\ (strings_ToLower flag = "recent" -> convertToIMAPFlag flag = "\Recent")
      /\ (strings_ToLower flag = "important" -> convertToIMAPFlag flag = "$Important")
      /\ (strings_ToLower flag ∉
            ["seen"; "answered"; "flagged"; "deleted"; "draft"; "recent"; "important"] ->
          convertToIMAPFlag flag = flag))
  /\ @convertToIMAPFlag example_runtime "seen" = "\Seen"
  /\ @convertToIMAPFlag example_runtime "SeEn" = "\Seen"
  /\ @convertToIMAPFlag example_runtime "\Flagged" = "\Flagged"
  /\ @convertToIMAPFlag example_runtime "CustomTag" = "CustomTag".
Proof.
  split; [|split].
  - unfold convertToIMAPFlag. intros [-> | ->]; [reflexivity|].
    by rewrite orb_true_r.
  - intros [Hb Hd]. unfold convertToIMAPFlag. rewrite Hb, Hd. cbn [orb].
    rewrite standardFlags_lookup.
    repeat split; try (intros ->; reflexivity).
    intros Hnot. repeat (case_decide; [exfalso; apply Hnot; set_solver|]).
    reflexivity.
  - repeat split; by vm_compute.
Qed.

Lemma convertToIMAPFlag_spec_witness :
  @convertToIMAPFlag example_runtime "Flagged" = "\Flagged"
  /\ @convertToIMAPFlag example_runtime "$Junk" = "$Junk"
  /\ @convertToIMAPFlag example_runtime "Work" = "Work".
Proof.
  split; [|split].
  - destruct (@convertToIMAPFlag_spec example_runtime "Flagged") as (_ & Hmap & _).
    destruct (Hmap (conj eq_refl eq_refl)) as (_ & _ & Hflagged & _).
    apply Hflagged. reflexivity.
  - destruct (@convertToIMAPFlag_spec example_runtime "$Junk") as (Hsame & _).
    apply Hsame. right. reflexivity.
  - destruct (@convertToIMAPFlag_spec example_runtime "Work") as (_ & Hmap & _).
    destruct (Hmap (conj eq_refl eq_refl)) as (_ & _ & _ & _ & _ & _ & _ & Hother).
    apply Hother. intros Hin.
    repeat (apply elem_of_cons in Hin as [Hin | Hin]; [discriminate|]).
    by apply elem_of_nil in Hin.
Defined.

(** ** [ContentField.ShouldInclude] and [OutputConfig.Validate] *)

Lemma validate_fields_rejects (pre post : list AnyField) (name : string)
    (content : ContentField) :
  name = "mime_parts" -> Mode content = "filter" -> Types content = [] ->
  ~ is_Ok (validate_fields (pre ++ IsField (mkField name (Some content)) :: post)).
Proof.
  intros -> Hm Ht. induction pre as [|f pre IH]; simpl.
  - rewrite Hm, Ht. vm_compute. tauto.
  - destruct (validate_field f) as [[]|e]; simpl; [exact IH | tauto].
Qed.

(** C10: [ShouldInclude] is a total function of the mode, the type list
    and the media type.  In ["filter"] mode with an empty type list it
    includes every media type, although [Validate] rejects every output
    configuration that has such a [mime_parts] field; in a mode other
    than ["text_only"] and ["filter"] (the empty mode and ["full"] among
    them) it includes every media type; in ["text_only"] mode it
    includes exactly the media types that have the prefix
    ["text/plain"], for instance ["text/plain2"]. *)
Theorem ShouldInclude_spec (c : ContentField) (mediaType : string) :
  ((Mode c = "filter" /\ Types c = []) -> ShouldInclude c mediaType = true)
  /\ ((Mode c <> "text_only" /\ Mode c <> "filter") -> ShouldInclude c mediaType = true)
  /\ (Mode c = "text_only" -> ShouldInclude c mediaType = HasPrefix mediaType "text/plain")
  /\ (forall o pre post,
         Mode c = "filter" -> Types c = [] ->
         Fields o = pre ++ IsField (mkField "mime_parts" (Some c)) :: post ->
         ~ is_Ok (OutputConfig_Validate o))
  /\ ShouldInclude (mkContentField "" 0 0 "" [] false false) mediaType = true
  /\ ShouldInclude (mkContentField "" 0 0 "full" [] false false) mediaType = true
  /\ ShouldInclude (mkContentField "" 0 0 "text_only" [] false false) "text/plain2" = true
  /\ ShouldInclude (mkContentField "" 0 0 "text_only" [] false false) "text/html" = false.
Proof.
  unfold ShouldInclude. repeat split.
  - intros [-> ->]. reflexivity.
  - intros [H1 H2]. by rewrite !decide_False.
  - intros ->. reflexivity.
  - intros o pre post Hm Ht Hf. unfold OutputConfig_Validate.
    repeat (match goal with |- ~ is_Ok (if ?b then _ else _) => destruct b; [simpl; tauto|] end).
    rewrite Hf. by apply validate_fields_rejects.
Qed.

Lemma ShouldInclude_spec_witness :
  ShouldInclude (mkContentField "" 0 0 "filter" [] true true) "image/png" = true
  /\ ShouldInclude (mkContentField "" 0 0 "text_only" [] true true) "text/plain; x"
     = HasPrefix "text/plain; x" "text/plain"
  /\ ~ is_Ok (OutputConfig_Validate
                (mkOutputConfig "json" 10 0 0 0
                   [IsField (mkField "subject" None);
                    IsField (mkField "mime_parts"
                               (Some (mkContentField "" 0 0 "filter" [] true true)))])).
Proof.
  split; [|split].
  - destruct (ShouldInclude_spec (mkContentField "" 0 0 "filter" [] true true)
                "image/png") as (Hall & _).
    apply Hall. split; reflexivity.
  - destruct (ShouldInclude_spec (mkContentField "" 0 0 "text_only" [] true true)
                "text/plain; x") as (_ & _ & Htext & _).
    apply Htext. reflexivity.
  - destruct (ShouldInclude_spec (mkContentField "" 0 0 "filter" [] true true) "")
      as (_ & _ & _ & Hvalid & _).
    apply (Hvalid _ [IsField (mkField "subject" None)] []); reflexivity.
Defined.

(** ** The search-criteria compiler *)

Lemma buildComplexSearchCriteria_unfold `{ImapLib} (config : SearchConfig)
    (oc : option OutputConfig) :
  buildComplexSearchCriteria config oc =
  buildComplexSearchCriteria_with buildSingleCondition config oc.
Proof. destruct config; reflexivity. Qed.

(** [buildSingleCondition] and [BuildSearchCriteria] agree on every
    condition: the test of [buildSingleCondition] only anticipates the
    operator test of [BuildSearchCriteria]. *)
Lemma buildSingleCondition_eq `{ImapLib} (condition : SearchConfig)
    (oc : option OutputConfig) :
  buildSingleCondition condition oc = BuildSearchCriteria condition oc.
Proof.
  unfold buildSingleCondition, BuildSearchCriteria, buildSingleCondition_with,
    BuildSearchCriteria_with.
  destruct (decide (Operator_ condition <> "")) as [Hop | Hop].
  - rewrite (bool_decide_eq_true_2 _ Hop).
    destruct (decide (length (Conditions condition) = 0%nat)) as [Hlen | Hlen].
    + rewrite bool_decide_eq_false_2 by lia. reflexivity.
    + rewrite bool_decide_eq_true_2 by lia. reflexivity.
  - rewrite (bool_decide_eq_false_2 _ Hop). reflexivity.
Qed.

Lemma BuildSearchCriteria_combinator `{ImapLib} (config : SearchConfig)
    (oc : option OutputConfig) :
  Operator_ config <> "" -> Conditions config <> [] ->
  BuildSearchCriteria config oc =
  buildComplexSearchCriteria_with buildSingleCondition config oc.
Proof.
  intros Hop Hne. unfold BuildSearchCriteria, BuildSearchCriteria_with.
  rewrite decide_True by done.
  rewrite decide_False by (by destruct (Conditions config)).
  apply buildComplexSearchCriteria_unfold.
Qed.

(** C5: a NOT combinator without children fails with the
    empty-conditions error; with two or more children it fails with the
    arity error; with exactly one child [A] it returns the criteria of
    [A] as the only element of [Not] of an otherwise empty criteria
    (with the options of [A]), and fails with the error of [A] when [A]
    does not compile.  A failure returns the error alone. *)
Theorem not_combinator `{ImapLib} (config : SearchConfig) (oc : option OutputConfig) :
  Operator_ config = OperatorNot ->
  (Conditions config = [] ->
   BuildSearchCriteria config oc = Err "NOT operator requires at least one condition")
  /\ ((2 <= length (Conditions config))%nat ->
      BuildSearchCriteria config oc =
      Err ("operator 'not' can only have one condition, but "
           +:+ pretty (length (Conditions config)) +:+ " were provided"))
  /\ (forall A, Conditions config = [A] ->
        (forall c o, BuildSearchCriteria A oc = Ok (c, o) ->
                     BuildSearchCriteria config oc = Ok (imap.of_Not [c], o)
                     /\ imap.Not (imap.of_Not [c]) = [c])
        /\ (forall e, BuildSearchCriteria A oc = Err e ->
                      BuildSearchCriteria config oc = Err e)).
Proof.
  intros Hop.
  assert (Hne : Operator_ config <> "") by (rewrite Hop; discriminate).
  split; [|split].
  - intros Hnil. unfold BuildSearchCriteria, BuildSearchCriteria_with.
    rewrite decide_True by done. rewrite Hnil, Hop. reflexivity.
  - intros Hlen. rewrite BuildSearchCriteria_combinator; [| done |].
    + unfold buildComplexSearchCriteria_with. rewrite Hop.
      destruct (Conditions config) as [|A rest] eqn:Hc; [simpl in Hlen; lia|].
      rewrite decide_False by discriminate. rewrite decide_False by discriminate.
      rewrite decide_True by reflexivity.
      rewrite decide_True by lia. reflexivity.
    + intros Hnil. rewrite Hnil in Hlen. simpl in Hlen. lia.
  - intros A HA.
    assert (Hb : BuildSearchCriteria config oc = buildNotCondition A oc).
    { rewrite BuildSearchCriteria_combinator; [| done | by rewrite HA].
      unfold buildComplexSearchCriteria_with. rewrite Hop, HA.
      rewrite decide_False by discriminate. rewrite decide_False by discriminate.
      rewrite decide_True by reflexivity.
      rewrite decide_False by (simpl; lia). reflexivity. }
    rewrite Hb. unfold buildNotCondition, buildNotCondition_with.
    rewrite buildSingleCondition_eq. split.
    + intros c o ->. split; reflexivity.
    + intros e ->. reflexivity.
Qed.

Lemma not_combinator_witness :
  Operator_ (combinator "not" [from_condition "spam@example.com"]) = OperatorNot
  /\ exists c o,
       BuildSearchCriteria (combinator "not" [from_condition "spam@example.com"]) None
       = Ok (imap.of_Not [c], o)
       /\ imap.Header c = [("From", "spam@example.com")].
Proof.
  split; [reflexivity|].
  destruct (not_combinator (combinator "not" [from_condition "spam@example.com"]) None
              eq_refl) as (_ & _ & Hone).
  destruct (Hone _ eq_refl) as [Hok _].
  destruct (Hok _ _ eq_refl) as [Hres _].
  eexists _, _. split; [exact Hres | reflexivity].
Defined.

(** Induction on a list two elements at a time, as the loop of
    [buildOrCondition] walks it. *)
Lemma list_pair_ind {A : Type} (P : list A -> Prop) :
  P [] -> (forall a, P [a]) -> (forall a b l, P l -> P (a :: b :: l)) ->
  forall l, P l.
Proof.
  intros Hnil Hone Hstep.
  assert (H : forall l, P l /\ forall a, P (a :: l)).
  { induction l as [|b l [IH1 IH2]]; [by split|].
    split; [apply IH2|]. intros a. by apply Hstep. }
  intros l. apply H.
Qed.

Lemma compile_children_length `{ImapLib} (conditions : list SearchConfig)
    (cs : list imap.SearchCriteria) :
  compile_children conditions = Ok cs -> length cs = length conditions.
Proof.
  revert cs. induction conditions as [|c conditions IH]; simpl; intros cs Hc.
  - by injection Hc as <-.
  - destruct (BuildSearchCriteria c None) as [[c1 o1]|]; [|discriminate].
    simpl in Hc. destruct (compile_children conditions) as [cs'|]; [|discriminate].
    injection Hc as <-. simpl. by rewrite (IH cs').
Qed.

Lemma or_loop_ok `{ImapLib} (oc : option OutputConfig) (conditions : list SearchConfig) :
  forall cs, compile_children conditions = Ok cs ->
  forall i acc options,
  exists options',
    or_loop buildSingleCondition oc i conditions acc options
    = Ok (acc ++ or_pairs cs, options').
Proof.
  induction conditions as [|a|a b l IH] using list_pair_ind; intros cs Hc i acc options.
  - injection Hc as <-. exists options. simpl. by rewrite app_nil_r.
  - simpl in Hc. simpl. rewrite buildSingleCondition_eq.
    destruct (BuildSearchCriteria a None) as [[c1 o1]|]; [|discriminate].
    injection Hc as <-. simpl. eauto.
  - simpl in Hc. simpl. rewrite !buildSingleCondition_eq.
    destruct (BuildSearchCriteria a None) as [[c1 o1]|]; [|discriminate].
    simpl in Hc |- *.
    destruct (BuildSearchCriteria b None) as [[c2 o2]|]; [|discriminate].
    simpl in Hc |- *.
    destruct (compile_children l) as [cs'|] eqn:Hl; [|discriminate].
    injection Hc as <-.
    edestruct (IH cs' eq_refl) as [options' ->].
    exists options'. simpl. by rewrite <- app_assoc.
Qed.

Lemma or_loop_err `{ImapLib} (oc : option OutputConfig) (conditions : list SearchConfig)
    (e : string) :
  compile_children conditions = Err e ->
  forall i acc options,
    or_loop buildSingleCondition oc i conditions acc options = Err e.
Proof.
  induction conditions as [|a|a b l IH] using list_pair_ind; intros Hc i acc options.
  - discriminate.
  - simpl in Hc. simpl. rewrite buildSingleCondition_eq.
    destruct (BuildSearchCriteria a None) as [[c1 o1]|]; simpl in Hc |- *;
      [discriminate | by injection Hc as ->].
  - simpl in Hc. simpl. rewrite !buildSingleCondition_eq.
    destruct (BuildSearchCriteria a None) as [[c1 o1]|]; simpl in Hc |- *;
      [|by injection Hc as ->].
    destruct (BuildSearchCriteria b None) as [[c2 o2]|]; simpl in Hc |- *;
      [|by injection Hc as ->].
    destruct (compile_children l) as [cs'|] eqn:Hl; simpl in Hc; [discriminate|].
    injection Hc as <-. by apply IH.
Qed.

Lemma or_pairs_length {A : Type} (cs : list A) :
  length (or_pairs cs) = ((length cs + 1) / 2)%nat.
Proof.
  induction cs as [|a|a b l IH] using list_pair_ind; [reflexivity..|].
  cbn [or_pairs length]. rewrite IH.
  replace (S (S (length l)) + 1)%nat with ((length l + 1) + 1 * 2)%nat by lia.
  rewrite Nat.div_add by lia. lia.
Qed.

Lemma or_pairs_lookup {A : Type} (cs : list A) :
  forall (k : nat) (a : A),
    cs !! (2 * k)%nat = Some a ->
    or_pairs cs !! k = Some (a, default a (cs !! (2 * k + 1)%nat)).
Proof.
  induction cs as [|c|c1 c2 l IH] using list_pair_ind; intros k a Hk.
  - by rewrite lookup_nil in Hk.
  - destruct k as [|k]; simpl in Hk.
    + by injection Hk as <-.
    + replace (k + S (k + 0))%nat with (S (2 * k)) in Hk by lia. discriminate.
  - destruct k as [|k].
    + simpl in Hk. by injection Hk as <-.
    + replace (2 * S k)%nat with (S (S (2 * k))) in Hk by lia.
      replace (2 * S k + 1)%nat with (S (S (2 * k + 1))) by lia.
      cbn [or_pairs]. simpl in Hk |- *. by apply IH.
Qed.

(** C1: an OR combinator with one child returns the compiled child
    itself.  With [n >= 2] children that compile to [cs], the result is
    a criteria whose field [Or] is the list of the [ceil(n/2)] pairs
    [(cs[0], cs[1])], [(cs[2], cs[3])], ..., the last child of an odd
    list being paired with itself, and whose other fields are zero; if a
    child does not compile, its error is returned.  So [OR[A,B,C]]
    yields a criteria whose [Or] holds the pairs [(A,B)] and [(C,C)]. *)
Theorem or_combinator `{ImapLib} (conditions : list SearchConfig)
    (oc : option OutputConfig) :
  (forall c, conditions = [c] ->
             buildOrCondition conditions oc = BuildSearchCriteria c oc)
  /\ ((2 <= length conditions)%nat ->
      (forall cs, compile_children conditions = Ok cs ->
         (exists options,
             buildOrCondition conditions oc = Ok (imap.of_Or (or_pairs cs), options))
         /\ (exists r options,
                buildOrCondition conditions oc = Ok (r, options)
                /\ imap.Or r = or_pairs cs
                /\ length (imap.Or r) = ((length conditions + 1) / 2)%nat
                /\ (forall (k : nat) a,
                       cs !! (2 * k)%nat = Some a ->
                       imap.Or r !! k = Some (a, default a (cs !! (2 * k + 1)%nat)))
                /\ imap.UID r = [] /\ imap.Since r = time_zero
                /\ imap.Before r = time_zero /\ imap.Header r = []
                /\ imap.Body r = [] /\ imap.Text r = []
                /\ imap.Flag r = [] /\ imap.NotFlag r = []
                /\ imap.Larger r = 0 /\ imap.Smaller r = 0 /\ imap.Not r = [])
         /\ length cs = length conditions
         /\ length (or_pairs cs) = ((length conditions + 1) / 2)%nat
         /\ (forall (k : nat) a,
                cs !! (2 * k)%nat = Some a ->
                or_pairs cs !! k = Some (a, default a (cs !! (2 * k + 1)%nat))))
      /\ (forall e, compile_children conditions = Err e ->
                    buildOrCondition conditions oc = Err e))
  /\ (forall config,
         Operator_ config = OperatorOr -> Conditions config = conditions ->
         conditions <> [] ->
         BuildSearchCriteria config oc = buildOrCondition conditions oc)
  /\ (forall A B C a b c oa ob oc',
         conditions = [A; B; C] ->
         BuildSearchCriteria A None = Ok (a, oa) ->
         BuildSearchCriteria B None = Ok (b, ob) ->
         BuildSearchCriteria C None = Ok (c, oc') ->
         exists options,
           buildOrCondition conditions oc = Ok (imap.of_Or [(a, b); (c, c)], options)
           /\ imap.Or (imap.of_Or [(a, b); (c, c)]) = [(a, b); (c, c)]).
Proof.
  assert (Hgen : (2 <= length conditions)%nat ->
            (forall cs, compile_children conditions = Ok cs ->
               exists options,
                 buildOrCondition conditions oc = Ok (imap.of_Or (or_pairs cs), options))
            /\ (forall e, compile_children conditions = Err e ->
                          buildOrCondition conditions oc = Err e)).
  { intros Hlen. unfold buildOrCondition, buildOrCondition_with.
    destruct conditions as [|c1 [|c2 rest]]; [simpl in Hlen; lia..|].
    split.
    - intros cs Hcs.
      destruct (or_loop_ok oc _ cs Hcs 0 [] None) as [options' ->].
      exists options'. reflexivity.
    - intros e He. by rewrite (or_loop_err oc _ e He). }
  split; [|split; [|split]].
  - intros c ->. unfold buildOrCondition, buildOrCondition_with.
    apply buildSingleCondition_eq.
  - intros Hlen. destruct (Hgen Hlen) as [Hok Herr]. split; [|exact Herr].
    intros cs Hcs. split; [by apply Hok|].
    pose proof (compile_children_length _ _ Hcs) as Hl.
    split.
    { destruct (Hok cs Hcs) as [options Hbuild].
      exists (imap.of_Or (or_pairs cs)), options.
      split; [exact Hbuild|]. cbn [imap.of_Or imap.Or].
      split; [reflexivity|]. split; [rewrite or_pairs_length; by rewrite Hl|].
      split; [apply or_pairs_lookup|]. by repeat split. }
    split; [exact Hl|]. split.
    + rewrite or_pairs_length. by rewrite Hl.
    + apply or_pairs_lookup.
  - intros config Hop Hc Hne. subst conditions.
    rewrite BuildSearchCriteria_combinator; [| rewrite Hop; discriminate | done].
    unfold buildComplexSearchCriteria_with. rewrite Hop.
    rewrite decide_False by discriminate. by rewrite decide_True.
  - intros A B C a b c oa ob oc' -> HA HB HC.
    destruct (Hgen ltac:(simpl; lia)) as [Hok _].
    destruct (Hok [a; b; c]) as [options Hbuild].
    { simpl. rewrite HA. simpl. rewrite HB. simpl. rewrite HC. reflexivity. }
    exists options. split; [exact Hbuild | reflexivity].
Qed.

Lemma or_combinator_witness :
  exists a b c r options,
    buildOrCondition [from_condition "a"; from_condition "b"; from_condition "c"] None
    = Ok (r, options)
    /\ r = imap.of_Or [(a, b); (c, c)]
    /\ imap.Or r = [(a, b); (c, c)]
    /\ imap.Header a = [("From", "a")]
    /\ imap.Header b = [("From", "b")]
    /\ imap.Header c = [("From", "c")].
Proof.
  destruct (or_combinator [from_condition "a"; from_condition "b"; from_condition "c"]
              None) as (_ & _ & _ & Hthree).
  destruct (Hthree _ _ _ _ _ _ _ _ _ eq_refl eq_refl eq_refl eq_refl)
    as (options & Hor & Hpairs).
  eexists _, _, _, _, options. split; [exact Hor|].
  split; [reflexivity|]. split; [exact Hpairs|]. repeat split.
Defined.

(** ** The UID range of the pagination *)

Lemma add_header_UID `{GoRuntime} (key value : string) (c : imap.SearchCriteria) :
  imap.UID (add_header key value c) = imap.UID c.
Proof. unfold add_header. by case_decide. Qed.

Lemma date_criteria_UID `{GoRuntime} (config : SearchConfig) (c c' : imap.SearchCriteria) :
  date_criteria config c = Ok c' -> imap.UID c' = imap.UID c.
Proof.
  unfold date_criteria. intros Hd.
  repeat match type of Hd with
         | context [decide ?P] => destruct (decide P)
         | context [parseDate ?x] => destruct (parseDate x); simpl in Hd; try discriminate
         | context [if ?b then _ else _] => destruct b
         end;
    simpl in Hd; injection Hd as <-; reflexivity.
Qed.

Lemma header_criteria_UID `{GoRuntime} (config : SearchConfig) (c : imap.SearchCriteria) :
  imap.UID (header_criteria config c) = imap.UID c.
Proof.
  unfold header_criteria. cbv zeta.
  destruct (Header config) as [h|]; [case_decide|]; cbn [imap.UID imap.set_Header];
    by rewrite !add_header_UID.
Qed.

Lemma content_criteria_UID `{GoRuntime} (config : SearchConfig) (c : imap.SearchCriteria) :
  imap.UID (content_criteria config c) = imap.UID c.
Proof. unfold content_criteria. by repeat case_decide. Qed.

Lemma flag_criteria_UID `{GoRuntime} (config : SearchConfig) (c : imap.SearchCriteria) :
  imap.UID (flag_criteria config c) = imap.UID c.
Proof. unfold flag_criteria. by destruct (Flags config). Qed.

Lemma size_criteria_UID `{GoRuntime} (config : SearchConfig) (c c' : imap.SearchCriteria) :
  size_criteria config c = Ok c' -> imap.UID c' = imap.UID c.
Proof.
  unfold size_criteria. intros Hs.
  destruct (Size config) as [sz|]; [|by injection Hs as <-].
  repeat match type of Hs with
         | context [decide ?P] => destruct (decide P)
         | context [parseSize ?x] => destruct (parseSize x); simpl in Hs; try discriminate
         end;
    simpl in Hs; injection Hs as <-; reflexivity.
Qed.

(** The criteria of a flat condition carry no UID set before the
    pagination block. *)
Lemma buildFlatCriteria_inv `{ImapLib} (config : SearchConfig) (oc : OutputConfig)
    (c : imap.SearchCriteria) (o : option imap.SearchOptions) :
  buildFlatCriteria config (Some oc) = Ok (c, o) ->
  exists c0, imap.UID c0 = [] /\ c = uid_pagination oc c0
             /\ o = Some (pagination_options (Some oc)).
Proof.
  unfold buildFlatCriteria. intros Hb.
  destruct (date_criteria config imap.empty) as [c1|] eqn:H1; [|discriminate].
  simpl in Hb.
  destruct (size_criteria config _) as [c2|] eqn:H2; [|discriminate].
  simpl in Hb. injection Hb as <- <-.
  exists c2. split; [|done].
  rewrite (size_criteria_UID _ _ _ H2), flag_criteria_UID, content_criteria_UID,
    header_criteria_UID.
  by rewrite (date_criteria_UID _ _ _ H1).
Qed.

(** The range that the pagination block stores, by the position of the
    two bounds. *)
Lemma uid_pagination_UID `{GoRuntime} (oc : OutputConfig) (c0 : imap.SearchCriteria) :
  imap.UID c0 = [] ->
  0 <= AfterUID oc < UInt32.max_uint ->
  0 <= BeforeUID oc <= UInt32.max_uint ->
  imap.UID (uid_pagination oc c0)
  = if decide (AfterUID oc = 0 /\ BeforeUID oc = 0) then []
    else if decide (BeforeUID oc <= 1) then [[(AfterUID oc + 1, 0)]]
    else if decide (BeforeUID oc <= AfterUID oc + 1)
         then [[(BeforeUID oc - 1, AfterUID oc + 1)]]
         else [[(AfterUID oc + 1, BeforeUID oc - 1)]].
Proof.
  unfold UInt32.max_uint. intros Hc0 Ha Hb.
  unfold uid_pagination, imap.AddRange, UInt32.add, UInt32.sub.
  destruct (Z.ltb_spec 0 (AfterUID oc)); destruct (Z.ltb_spec 0 (BeforeUID oc));
    cbn [orb andb];
    rewrite ?UInt32_wrap_small by (unfold UInt32.in_range, UInt32.max_uint; lia);
    repeat match goal with
           | |- context [?x <? ?y] => destruct (Z.ltb_spec x y)
           | |- context [?x =? ?y] => destruct (Z.eqb_spec x y)
           end;
    cbn [orb andb negb imap.UID imap.set_UID app];
    repeat case_decide; try lia; try done;
    repeat f_equal; lia.
Qed.

Lemma in_set_range (top lo hi u : Z) :
  0 < lo -> lo <= hi -> in_set top [(lo, hi)] u = true <-> lo <= u <= hi.
Proof.
  intros Hlo Hhi. unfold in_set. cbn [existsb].
  destruct (Z.eqb_spec lo 0); [lia|]. destruct (Z.eqb_spec hi 0); [lia|].
  rewrite orb_false_r, andb_true_iff, !Z.leb_le. lia.
Qed.

Lemma in_set_from (top lo u : Z) :
  0 < lo -> lo <= u <= top -> in_set top [(lo, 0)] u = true.
Proof.
  intros Hlo Hu. unfold in_set. cbn [existsb].
  destruct (Z.eqb_spec lo 0); [lia|]. change (0 =? 0) with true. cbv iota.
  rewrite orb_false_r, andb_true_iff, !Z.leb_le. lia.
Qed.

(** C8 does not hold of the code.  For a flat condition the pagination
    block hands [AfterUID + 1] and [BeforeUID - 1] to [AddRange], which
    stores a range with its ends in ascending order and reads a stop of
    [0] as ["*"].  With a lower bound [a] and an upper bound [b] that are
    [uint32] values ([a] below the largest): without bounds there is no
    UID set, and with the lower bound only the set is [a+1:*], as claimed;
    for [a + 2 <= b] (also without a lower bound, [a = 0]) the set holds
    exactly the UIDs strictly between [a] and [b], as claimed.  But for
    [2 <= b <= a + 1] the set is [b-1:a+1], which holds [a] and [b]
    themselves, although nothing lies strictly between them; and for
    [b = 1] the set is [a+1:*], so that the upper bound excludes nothing.
    On concrete inputs: after 5 and before 6 give [5:6]; before 1 alone
    gives [1:*]; after 5 and before 1 give [6:*]; an OR of two conditions
    carries no UID set; and the largest lower bound gives ["*:*"]. *)
Theorem uid_bounds_not_exclusive :
  (forall `{ImapLib} (config : SearchConfig) (oc : OutputConfig)
          (c : imap.SearchCriteria) (o : option imap.SearchOptions),
      let a := AfterUID oc in
      let b := BeforeUID oc in
      Operator_ config = "" ->
      0 <= a < UInt32.max_uint ->
      0 <= b <= UInt32.max_uint ->
      BuildSearchCriteria config (Some oc) = Ok (c, o) ->
      (a = 0 -> b = 0 -> imap.UID c = [])
      /\ (0 < a -> b = 0 -> imap.UID c = [[(a + 1, 0)]])
      /\ (a + 2 <= b ->
          imap.UID c = [[(a + 1, b - 1)]]
          /\ forall top u, in_set top [(a + 1, b - 1)] u = true <-> a < u < b)
      /\ (2 <= b <= a + 1 ->
          imap.UID c = [[(b - 1, a + 1)]]
          /\ (forall top u, in_set top [(b - 1, a + 1)] u = true <-> b - 1 <= u <= a + 1)
          /\ (forall top, in_set top [(b - 1, a + 1)] a = true)
          /\ (forall top, in_set top [(b - 1, a + 1)] b = true))
      /\ (b = 1 ->
          imap.UID c = [[(a + 1, 0)]]
          /\ forall top u, a < u <= top -> in_set top [(a + 1, 0)] u = true))
  /\ (BuildSearchCriteria (from_condition "a") (Some (paging 0 0 5 6))
      = Ok (@imap.mkSearchCriteria example_runtime [[(5, 6)]] 0 0 [("From", "a")]
              [] [] [] [] 0 0 [] [],
            Some imap.no_options)
      /\ in_set 9 [(5, 6)] 5 = true /\ in_set 9 [(5, 6)] 6 = true)
  /\ (BuildSearchCriteria (from_condition "a") (Some (paging 0 0 0 1))
      = Ok (@imap.mkSearchCriteria example_runtime [[(1, 0)]] 0 0 [("From", "a")]
              [] [] [] [] 0 0 [] [],
            Some imap.no_options)
      /\ forallb (in_set 9 [(1, 0)]) (seq_range 1 9) = true)
  /\ (BuildSearchCriteria (from_condition "a") (Some (paging 0 0 5 1))
      = Ok (@imap.mkSearchCriteria example_runtime [[(6, 0)]] 0 0 [("From", "a")]
              [] [] [] [] 0 0 [] [],
            Some imap.no_options)
      /\ forallb (in_set 9 [(6, 0)]) (seq_range 6 4) = true)
  /\ (exists c o,
         BuildSearchCriteria (combinator "or" [from_condition "a"; from_condition "b"])
           (Some (paging 0 0 5 0)) = Ok (c, o)
         /\ imap.UID c = [])
  /\ (exists c o,
         BuildSearchCriteria (from_condition "a") (Some (paging 0 0 4294967295 0))
         = Ok (c, o)
         /\ imap.UID c = [[(0, 0)]]).
Proof.
  split.
  { intros R L config oc c o a b Hop Ha Hb Hbuild.
    assert (Hu : imap.UID c
                 = if decide (a = 0 /\ b = 0) then []
                   else if decide (b <= 1) then [[(a + 1, 0)]]
                   else if decide (b <= a + 1) then [[(b - 1, a + 1)]]
                   else [[(a + 1, b - 1)]]).
    { unfold BuildSearchCriteria, BuildSearchCriteria_with in Hbuild.
      rewrite decide_False in Hbuild by (by rewrite Hop; intros Hne; apply Hne).
      apply buildFlatCriteria_inv in Hbuild as (c0 & Hc0 & -> & _).
      by apply uid_pagination_UID. }
    unfold UInt32.max_uint in Ha, Hb.
    split; [intros ? ?; rewrite Hu; repeat case_decide; (done || lia)|].
    split; [intros ? ?; rewrite Hu; repeat case_decide; (done || lia)|].
    split.
    { intros Hab. split; [rewrite Hu; repeat case_decide; (done || lia)|].
      intros top u. rewrite in_set_range by lia. lia. }
    split.
    { intros Hab. split; [rewrite Hu; repeat case_decide; (done || lia)|].
      split; [intros top u; apply in_set_range; lia|].
      split; intros top; apply in_set_range; lia. }
    intros Hb1. split; [rewrite Hu; repeat case_decide; (done || lia)|].
    intros top u Hu'. apply in_set_from; lia. }
  split; [by repeat split|].
  split; [by repeat split|].
  split; [by repeat split|].
  split; eexists _, _; (split; [reflexivity|]); reflexivity.
Qed.

Lemma uid_bounds_not_exclusive_witness :
  imap.UID (@imap.mkSearchCriteria example_runtime [[(5, 6)]] 0 0 [("From", "a")]
              [] [] [] [] 0 0 [] [])
  = [[(6 - 1, 5 + 1)]]
  /\ in_set 9 [(6 - 1, 5 + 1)] 5 = true
  /\ in_set 9 [(6 - 1, 5 + 1)] 6 = true.
Proof.
  destruct uid_bounds_not_exclusive as [Hflat _].
  destruct (Hflat _ _ (from_condition "a") (paging 0 0 5 6)
              (@imap.mkSearchCriteria example_runtime [[(5, 6)]] 0 0 [("From", "a")]
                 [] [] [] [] 0 0 [] [])
              (Some imap.no_options) eq_refl
              ltac:(by vm_compute) ltac:(by vm_compute) eq_refl)
    as (_ & _ & _ & Hin & _).
  destruct (Hin ltac:(by vm_compute)) as (Hu & _ & Ha & Hb).
  split; [exact Hu|]. split; [apply Ha | apply Hb].
Defined.

(** ** The window of [FetchMessages] *)

Lemma add_down_spec (l : list Z) (n : nat) :
  forall (i : Z) (acc : imap.NumSet),
    Z.of_nat n <= i + 1 -> i < Z.of_nat (length l) ->
    add_down l i n acc = Ok (acc ++ nums (rev (slice l (i + 1 - Z.of_nat n) i))).
Proof.
  unfold slice, nums.
  induction n as [|n IH]; intros i acc Hn Hi.
  - cbn [add_down].
    assert (Z.to_nat (i - (i + 1 - Z.of_nat 0) + 1) = 0%nat) as -> by lia.
    simpl. by rewrite app_nil_r.
  - cbn [add_down].
    destruct (Z.ltb_spec i 0) as [Hneg | Hpos]; [lia|].
    destruct (l !! Z.to_nat i) as [x|] eqn:Hx;
      [| apply lookup_ge_None in Hx; lia].
    rewrite IH by lia.
    replace (i - 1 + 1 - Z.of_nat n) with (i + 1 - Z.of_nat (S n)) by lia.
    set (d := Z.to_nat (i + 1 - Z.of_nat (S n))).
    replace (Z.to_nat (i - 1 - (i + 1 - Z.of_nat (S n)) + 1)) with n by lia.
    replace (Z.to_nat (i - (i + 1 - Z.of_nat (S n)) + 1)) with (S n) by lia.
    assert (Hlast : drop d l !! n = Some x).
    { rewrite lookup_drop. rewrite <- Hx. f_equal. lia. }
    rewrite (take_S_r _ _ _ Hlast), rev_app_distr. simpl.
    unfold imap.AddNum. by rewrite <- app_assoc.
Qed.

Lemma selectWindow_inside (output : OutputConfig) (l : list Z) :
  Z.of_nat (length l) <= Int64.max_int ->
  0 < Limit output -> 0 <= Offset output < Z.of_nat (length l) ->
  selectWindow output l = Ok (Some (nums (window_spec l (Limit output) (Offset output)))).
Proof.
  unfold Int64.max_int. intros HL Hlim Hoff.
  unfold selectWindow, window_spec, len, Int64.sub, Int64.add.
  set (L := Z.of_nat (length l)) in *.
  destruct (Z.ltb_spec L (Offset output)) as [? | _]; [lia|].
  rewrite (Int64_wrap_small (L - 1)) by (unfold Int64.in_range, Int64.min_int, Int64.max_int; lia).
  rewrite (Int64_wrap_small (L - 1 - Offset output))
    by (unfold Int64.in_range, Int64.min_int, Int64.max_int; lia).
  set (startIdx := L - 1 - Offset output).
  set (lim := if (0 <? Limit output) && (Limit output <? L) then Limit output else L).
  assert (Hlimit : 0 < lim <= L /\ (lim = Limit output \/ (lim = L /\ L <= Limit output))).
  { subst lim. destruct (Z.ltb_spec 0 (Limit output)); [|lia].
    destruct (Z.ltb_spec (Limit output) L); cbn [andb]; lia. }
  rewrite (Int64_wrap_small (startIdx - lim))
    by (unfold Int64.in_range, Int64.min_int, Int64.max_int; lia).
  rewrite (Int64_wrap_small (startIdx - lim + 1))
    by (unfold Int64.in_range, Int64.min_int, Int64.max_int; lia).
  set (endIdx := if startIdx - lim + 1 <? 0 then 0 else startIdx - lim + 1).
  assert (Hend : endIdx = Z.max 0 (startIdx - Limit output + 1) /\ 0 <= endIdx <= startIdx).
  { subst endIdx. destruct (Z.ltb_spec (startIdx - lim + 1) 0); lia. }
  destruct Hend as [Hend Hrange].
  destruct (Z.leb_spec 0 startIdx); [|lia].
  destruct (Z.ltb_spec startIdx L); [|lia].
  cbn [andb].
  rewrite add_down_spec by lia. simpl.
  rewrite <- Hend.
  replace (startIdx + 1 - Z.of_nat (Z.to_nat (startIdx - endIdx + 1))) with endIdx by lia.
  reflexivity.
Qed.

Lemma selectWindow_beyond (output : OutputConfig) (l : list Z) :
  Z.of_nat (length l) <= Int64.max_int ->
  Z.of_nat (length l) <= Offset output ->
  selectWindow output l = Ok None.
Proof.
  unfold Int64.max_int. intros HL Hoff.
  unfold selectWindow, len, Int64.sub.
  set (L := Z.of_nat (length l)) in *.
  assert (0 <= L) by lia.
  set (offset := if L <? Offset output then L else Offset output).
  assert (Ho : offset = L) by (subst offset; destruct (Z.ltb_spec L (Offset output)); lia).
  rewrite Ho.
  rewrite (Int64_wrap_small (L - 1)) by (unfold Int64.in_range, Int64.min_int, Int64.max_int; lia).
  rewrite (Int64_wrap_small (L - 1 - L))
    by (unfold Int64.in_range, Int64.min_int, Int64.max_int; lia).
  destruct (Z.leb_spec 0 (L - 1 - L)); [lia|]. reflexivity.
Qed.

(** C2: for a non-empty list of [L] sequence numbers, a positive limit
    and a non-negative offset, the window of [FetchMessages] is the one
    that step 4 selects from the list.  When the offset is below [L] it
    is [list[endIdx..startIdx]] with [startIdx = L - 1 - offset] and
    [endIdx = max(0, startIdx - limit + 1)], added newest first, and
    [FetchMessages], on a search that returns the list, is the fetch of
    exactly this set; when the offset is [L] or more nothing is selected
    and [FetchMessages] returns no message and no error.  For [1..20],
    limit 5 and offset 3 the window is 17, 16, 15, 14, 13, and in a
    mailbox of twenty messages [FetchMessages] fetches this set and
    returns the messages 13 to 17; for offset 25 the window is empty and
    [FetchMessages] returns nothing. *)
Theorem window_of_list `{rt : GoRuntime} {il : @ImapLib rt} {fd : @FetchDeps rt}
    (output : OutputConfig) (client : Client) (l : list Z) (count : Z) :
  l <> [] -> Z.of_nat (length l) <= Int64.max_int -> 0 <= count ->
  0 < Limit output -> 0 <= Offset output ->
  windowOf output client (imapclient.mkSearchData l count) = selectWindow output l
  /\ (Offset output < Z.of_nat (length l) ->
      selectWindow output l
      = Ok (Some (nums (window_spec l (Limit output) (Offset output))))
      /\ forall rule criteria options,
           Output rule = output ->
           BuildSearchCriteria (Search rule) (Some output) = Ok (criteria, options) ->
           client_Search client criteria options = Ok (imapclient.mkSearchData l count) ->
           FetchMessages rule client
           = fetchWindow output client (if 0 <? count then count else len l)
               (nums (window_spec l (Limit output) (Offset output))))
  /\ (Z.of_nat (length l) <= Offset output ->
      selectWindow output l = Ok None
      /\ forall rule criteria options,
           Output rule = output ->
           BuildSearchCriteria (Search rule) (Some output) = Ok (criteria, options) ->
           client_Search client criteria options = Ok (imapclient.mkSearchData l count) ->
           FetchMessages rule client = Ok [])
  /\ selectWindow (paging 5 3 0 0) (seq_range 1 20) = Ok (Some (nums [17; 16; 15; 14; 13]))
  /\ selectWindow (paging 5 25 0 0) (seq_range 1 20) = Ok None
  /\ window_spec (seq_range 1 20) 5 3 = [17; 16; 15; 14; 13]
  /\ @FetchMessages example_runtime example_imap example_deps
       (example_rule (from_condition "a") (paging 5 3 0 0)) (listing_client 20)
     = @fetchWindow example_runtime example_deps (paging 5 3 0 0) (listing_client 20) 20
         (nums [17; 16; 15; 14; 13])
  /\ @FetchMessages example_runtime example_imap example_deps
       (example_rule (from_condition "a") (paging 5 3 0 0)) (listing_client 20)
     = Ok [mkExampleEmail 13 1013 "" [] 20; mkExampleEmail 14 1014 "" [] 20;
           mkExampleEmail 15 1015 "" [] 20; mkExampleEmail 16 1016 "" [] 20;
           mkExampleEmail 17 1017 "" [] 20]
  /\ @FetchMessages example_runtime example_imap example_deps
       (example_rule (from_condition "a") (paging 5 25 0 0)) (listing_client 20)
     = Ok [].
Proof.
  intros Hne HL Hcount Hlim Hoff.
  assert (Hw : windowOf output client (imapclient.mkSearchData l count)
               = selectWindow output l).
  { unfold windowOf. cbn [imapclient.AllSeqNums imapclient.Count].
    assert (0 < len l) as Hpos by (unfold len; destruct l; [done | simpl; lia]).
    destruct (Z.ltb_spec 0 count).
    - destruct (Z.eqb_spec count 0); [lia|].
      destruct (Z.eqb_spec (len l) 0); [lia|]. reflexivity.
    - destruct (Z.eqb_spec (len l) 0); [lia|]. reflexivity. }
  split; [exact Hw|]. split; [|split].
  - intros Hin. pose proof (selectWindow_inside output l HL Hlim (conj Hoff Hin)) as Hsome.
    split; [exact Hsome|].
    intros rule criteria options Hrule Hbuild Hsearch.
    unfold FetchMessages. rewrite Hrule, Hbuild.
    cbn [wrapErr mbind result_bind]. rewrite Hsearch.
    cbn [wrapErr mbind result_bind]. rewrite Hw, Hsome. reflexivity.
  - intros Hout. pose proof (selectWindow_beyond output l HL Hout) as Hnone.
    split; [exact Hnone|].
    intros rule criteria options Hrule Hbuild Hsearch.
    unfold FetchMessages. rewrite Hrule, Hbuild. simpl.
    rewrite Hsearch. simpl. rewrite Hw, Hnone. reflexivity.
  - repeat split; by vm_compute.
Qed.

Lemma window_of_list_witness :
  windowOf (paging 5 3 0 0) (count_only_client 20)
    (imapclient.mkSearchData (seq_range 1 20) 20)
  = Ok (Some (nums [17; 16; 15; 14; 13]))
  /\ FetchMessages (example_rule (from_condition "a") (paging 5 3 0 0)) (listing_client 20)
     = fetchWindow (paging 5 3 0 0) (listing_client 20) 20 (nums [17; 16; 15; 14; 13]).
Proof.
  split.
  - destruct (window_of_list (paging 5 3 0 0) (count_only_client 20) (seq_range 1 20) 20
                ltac:(by vm_compute) ltac:(by vm_compute) ltac:(by vm_compute)
                ltac:(by vm_compute) ltac:(by vm_compute)) as (Hw & Hin & _).
    destruct (Hin ltac:(by vm_compute)) as [Hsome _].
    rewrite Hw. rewrite Hsome. reflexivity.
  - destruct (window_of_list (paging 5 3 0 0) (listing_client 20) (seq_range 1 20) 20
                ltac:(by vm_compute) ltac:(by vm_compute) ltac:(by vm_compute)
                ltac:(by vm_compute) ltac:(by vm_compute)) as (_ & Hin & _).
    destruct (Hin ltac:(by vm_compute)) as [_ Hfetch].
    exact (Hfetch (example_rule (from_condition "a") (paging 5 3 0 0)) _ _
             eq_refl eq_refl eq_refl).
Defined.

(** ** The count-only search response *)

(** When the search returns a count [C] and no sequence numbers, the
    identifiers are fetched over the range
    [[max(1, C - offset - limit + 1), C - offset]], reversed, and then
    given to step 4, which applies the limit and the offset again. *)
Lemma windowOf_count_only `{rt : GoRuntime} {fd : @FetchDeps rt}
    (output : OutputConfig) (client : Client) (C : Z) (msgs : list Buffer) :
  0 < C <= UInt32.max_uint ->
  0 < Limit output <= Int64.max_int -> 0 <= Offset output <= C ->
  imapclient.Collect _ _
    (client_Fetch client
       [(Z.max 1 (C - Offset output - Limit output + 1), C - Offset output)]
       imapclient.uid_only) = Ok msgs ->
  windowOf output client (imapclient.mkSearchData [] C)
  = selectWindow output (rev (map (imapclient.SeqNum _ _) msgs)).
Proof.
  unfold UInt32.max_uint, Int64.max_int. intros HC Hlim Hoff Hfetch.
  unfold windowOf. cbn [imapclient.AllSeqNums imapclient.Count].
  destruct (Z.ltb_spec 0 C); [|lia].
  destruct (Z.eqb_spec C 0); [lia|].
  change (len (@nil Z) =? 0) with true. cbn [andb].
  unfold reconstructSeqNums.
  destruct (Z.ltb_spec C (Offset output)); [lia|].
  unfold Int64.sub, Int64.add, imap.AddRange.
  set (lim := if (0 <? Limit output) && (Limit output <? C) then Limit output else C).
  assert (Hl : 0 < lim <= C /\ (lim = Limit output \/ (lim = C /\ C <= Limit output))).
  { subst lim. destruct (Z.ltb_spec 0 (Limit output)); [|lia].
    destruct (Z.ltb_spec (Limit output) C); cbn [andb]; lia. }
  rewrite (Int64_wrap_small (C - Offset output))
    by (unfold Int64.in_range, Int64.min_int, Int64.max_int; lia).
  rewrite (Int64_wrap_small (C - Offset output - lim))
    by (unfold Int64.in_range, Int64.min_int, Int64.max_int; lia).
  rewrite (Int64_wrap_small (C - Offset output - lim + 1))
    by (unfold Int64.in_range, Int64.min_int, Int64.max_int; lia).
  set (endSeq := if C - Offset output - lim + 1 <? 1 then 1 else C - Offset output - lim + 1).
  assert (He : endSeq = Z.max 1 (C - Offset output - Limit output + 1)).
  { subst endSeq. destruct (Z.ltb_spec (C - Offset output - lim + 1) 1); lia. }
  rewrite He.
  rewrite !UInt32_wrap_small by (unfold UInt32.in_range, UInt32.max_uint; lia).
  set (start := Z.max 1 (C - Offset output - Limit output + 1)).
  assert (Hkeep : ((C - Offset output <? start) && negb (C - Offset output =? 0))
                  || (start =? 0) = false).
  { subst start. destruct (Z.ltb_spec (C - Offset output)
                             (Z.max 1 (C - Offset output - Limit output + 1)));
      destruct (Z.eqb_spec (C - Offset output) 0);
      destruct (Z.eqb_spec (Z.max 1 (C - Offset output - Limit output + 1)) 0);
      cbn [andb orb negb]; (reflexivity || lia). }
  rewrite Hkeep. subst start.
  cbn [app]. rewrite Hfetch.
  destruct (Z.ltb_spec 0 C); [reflexivity | lia].
Qed.

(** C3 does not hold of the code: on a server that reports only the
    count 20, with limit 5 and offset 3, the identifiers 13..17 are
    reconstructed (newest first: 17, 16, 15, 14, 13), but step 4 then
    skips three more and walks the reversed list from its end: the
    structure fetch is for 16 and 17 only, oldest first.  With offset 0
    the five newest messages are selected, oldest first; with offset 5
    nothing is selected. *)
Theorem count_only_window_paginated_twice :
  reconstructSeqNums (paging 5 3 0 0) (count_only_client 20) 20
  = Ok (Some [17; 16; 15; 14; 13])
  /\ windowOf (paging 5 3 0 0) (count_only_client 20) (imapclient.mkSearchData [] 20)
     = Ok (Some (nums [16; 17]))
  /\ windowOf (paging 5 3 0 0) (count_only_client 20)
       (imapclient.mkSearchData (seq_range 1 20) 20)
     = Ok (Some (nums [17; 16; 15; 14; 13]))
  /\ windowOf (paging 5 0 0 0) (count_only_client 20) (imapclient.mkSearchData [] 20)
     = Ok (Some (nums [16; 17; 18; 19; 20]))
  /\ windowOf (paging 5 5 0 0) (count_only_client 20) (imapclient.mkSearchData [] 20)
     = Ok None
  /\ (exists emails,
         FetchMessages (example_rule (from_condition "a") (paging 5 3 0 0))
           (count_only_client 20) = Ok emails
         /\ map em_SeqNum emails = [16; 17]).
Proof.
  repeat split; try (by vm_compute).
  eexists. split; by vm_compute.
Qed.


(** ** Section keys: formatting and scanning round trips *)

Lemma pretty_N_char_digit (x : N) : is_digit (pretty_N_char x) = true.
Proof. unfold pretty_N_char. repeat case_match; reflexivity. Qed.

Lemma pretty_N_char_val (x : N) : (x < 10)%N -> digit_val (pretty_N_char x) = Z.of_N x.
Proof.
  intros Hx.
  assert (x = 0 \/ x = 1 \/ x = 2 \/ x = 3 \/ x = 4 \/ x = 5 \/ x = 6 \/ x = 7
          \/ x = 8 \/ x = 9)%N as Hcases by lia.
  repeat (destruct Hcases as [-> | Hcases]; [reflexivity|]). by subst.
Qed.

Lemma pretty_N_go_digits (x : N) :
  forall s, all_digits s = true -> all_digits (pretty_N_go x s) = true.
Proof.
  induction (N.lt_wf_0 x) as [x _ IH]. intros s Hs.
  destruct (decide (x = 0%N)) as [-> | Hx]; [by rewrite pretty_N_go_0|].
  rewrite pretty_N_go_step by lia.
  apply IH; [apply N.div_lt; lia|].
  simpl. by rewrite pretty_N_char_digit.
Qed.

Lemma pretty_N_go_value (x : N) :
  forall s, Z.of_N x <= 2 ^ 64 - 1 ->
            ParseUint_go (pretty_N_go x s) 0 = ParseUint_go s (Z.of_N x).
Proof.
  induction (N.lt_wf_0 x) as [x _ IH]. intros s Hx.
  destruct (decide (x = 0%N)) as [-> | Hne]; [by rewrite pretty_N_go_0|].
  rewrite pretty_N_go_step by lia.
  assert (Hdiv : (x `div` 10 < x)%N) by (apply N.div_lt; lia).
  rewrite IH by (done || lia).
  cbn [ParseUint_go]. rewrite pretty_N_char_digit.
  rewrite pretty_N_char_val by (apply N.mod_lt; lia).
  assert (Hx' : Z.of_N (x `div` 10) * 10 + Z.of_N (x `mod` 10) = Z.of_N x).
  { pose proof (N.div_mod x 10 ltac:(lia)). lia. }
  rewrite Hx'. destruct (Z.ltb_spec (2 ^ 64 - 1) (Z.of_N x)); [lia | reflexivity].
Qed.

Lemma pretty_Z_pos (p : positive) : pretty (Z.pos p) = pretty_N_go (N.pos p) "".
Proof. reflexivity. Qed.

Lemma pretty_Z_digits (n : Z) : 0 <= n -> all_digits (pretty n) = true.
Proof.
  intros Hn. destruct n as [|p|p]; [reflexivity | | lia].
  rewrite pretty_Z_pos. by apply pretty_N_go_digits.
Qed.

Lemma ParseUint_pretty (n : Z) : 0 <= n <= 2 ^ 64 - 1 -> ParseUint (pretty n) = inr n.
Proof.
  intros Hn. destruct n as [|p|p]; [reflexivity | | lia].
  assert (Hv : ParseUint_go (pretty (Z.pos p)) 0 = inr (Z.pos p)).
  { rewrite pretty_Z_pos, pretty_N_go_value by (simpl; lia). reflexivity. }
  unfold ParseUint. destruct (pretty (Z.pos p)) eqn:Hp; [|exact Hv].
  simpl in Hv. discriminate.
Qed.

Lemma span_digits_pretty (n : Z) : 0 <= n -> span_digits (pretty n) = (pretty n, "").
Proof.
  intros Hn. rewrite <- (string_app_nil_r (pretty n)) at 1.
  apply span_digits_all; [by apply pretty_Z_digits | by left].
Qed.

Lemma Sscanf_uint32_pretty (n : Z) :
  UInt32.in_range n -> Sscanf_uint32 (pretty n) = Some n.
Proof.
  unfold UInt32.in_range, UInt32.max_uint. intros Hn.
  unfold Sscanf_uint32. rewrite span_digits_pretty by lia.
  rewrite ParseUint_pretty by lia.
  unfold UInt32.max_uint. destruct (Z.leb_spec n (2 ^ 32 - 1)); [reflexivity | lia].
Qed.

Lemma SplitN_colon_digits (ds rest : string) :
  all_digits ds = true -> SplitN_colon (ds +:+ ":" +:+ rest) = Some (ds, rest).
Proof.
  intros Hd. induction ds as [|c ds IH]; [reflexivity|].
  simpl in Hd. apply andb_true_iff in Hd as [Hc Hd].
  change (String c ds +:+ ":" +:+ rest) with (String c (ds +:+ ":" +:+ rest)).
  cbn [SplitN_colon]. rewrite decide_False by (intros ->; discriminate).
  by rewrite (IH Hd).
Qed.

Lemma wf_key_eq (n n' : Z) (s s' : string) :
  UInt32.in_range n -> UInt32.in_range n' ->
  pretty n +:+ ":" +:+ s = pretty n' +:+ ":" +:+ s' -> n = n' /\ s = s'.
Proof.
  unfold UInt32.in_range. intros Hn Hn' Heq.
  pose proof (SplitN_colon_digits (pretty n) s (pretty_Z_digits n ltac:(lia))) as H1.
  pose proof (SplitN_colon_digits (pretty n') s' (pretty_Z_digits n' ltac:(lia))) as H2.
  rewrite Heq, H2 in H1. injection H1 as Hp ->.
  split; [|reflexivity]. symmetry. by apply (inj pretty).
Qed.

Lemma digits_no_space (s : string) : all_digits s = true -> no_space s = true.
Proof.
  induction s as [|c s IH]; [done|]. simpl. intros Hd.
  apply andb_true_iff in Hd as [Hc Hd]. rewrite (IH Hd), andb_true_r.
  rewrite bool_decide_eq_false_2; [done|]. intros ->. discriminate.
Qed.

Lemma pretty_N_go_nonempty (x : N) : forall s, s <> "" -> pretty_N_go x s <> "".
Proof.
  induction (N.lt_wf_0 x) as [x _ IH]. intros s Hs.
  destruct (decide (x = 0%N)) as [-> | Hx]; [by rewrite pretty_N_go_0|].
  rewrite pretty_N_go_step by lia. apply IH; [apply N.div_lt; lia | done].
Qed.

Lemma pretty_positive_token (p : positive) :
  pretty_N_go (N.pos p) "" <> "" /\ no_space (pretty_N_go (N.pos p) "") = true.
Proof.
  split.
  - rewrite pretty_N_go_step by lia. by apply pretty_N_go_nonempty.
  - apply digits_no_space. by apply pretty_N_go_digits.
Qed.

(** The decimal form of an integer is a non-empty string without
    blank. *)
Lemma pretty_Z_token (z : Z) : pretty z <> "" /\ no_space (pretty z) = true.
Proof.
  destruct z as [|p|p]; [done | apply pretty_positive_token |].
  destruct (pretty_positive_token p) as [_ Hs].
  change (pretty (Z.neg p)) with (String "-"%char (pretty_N_go (N.pos p) "")).
  split; [done|]. simpl. by rewrite Hs.
Qed.

Lemma app_space_inj (x y r1 r2 : string) :
  no_space x = true -> no_space y = true ->
  x +:+ " " +:+ r1 = y +:+ " " +:+ r2 -> x = y /\ r1 = r2.
Proof.
  revert y. induction x as [|c x IH]; intros [|d y] Hx Hy Heq; simpl in *.
  - by injection Heq as ->.
  - injection Heq as <- _. by rewrite bool_decide_eq_true_2 in Hy.
  - injection Heq as -> _. by rewrite bool_decide_eq_true_2 in Hx.
  - injection Heq as -> Heq.
    apply andb_true_iff in Hx as [_ Hx]. apply andb_true_iff in Hy as [_ Hy].
    destruct (IH y Hx Hy Heq) as [-> ->]. done.
Qed.

Lemma no_space_app_space (x r : string) : no_space (x +:+ " " +:+ r) = false.
Proof.
  induction x as [|c x IH]; [done|].
  change (String c x +:+ " " +:+ r) with (String c (x +:+ " " +:+ r)).
  cbn [no_space]. rewrite IH. apply andb_false_r.
Qed.

Lemma join_space_cons (x y : string) (l : list string) :
  join_space (x :: y :: l) = x +:+ " " +:+ join_space (y :: l).
Proof. reflexivity. Qed.

Lemma join_space_inj (l1 l2 : list string) :
  Forall (fun s => s <> "" /\ no_space s = true) l1 ->
  Forall (fun s => s <> "" /\ no_space s = true) l2 ->
  join_space l1 = join_space l2 -> l1 = l2.
Proof.
  intros H1. revert l2.
  induction H1 as [|x l1 [Hx Hsx] H1 IH]; intros l2 H2 Heq.
  - destruct H2 as [|y l2 [Hy _] _]; [done|].
    destruct l2; simpl in Heq; [by subst|]. by destruct y.
  - destruct H2 as [|y l2 [Hy Hsy] H2].
    { destruct l1; simpl in Heq; [by subst|]. by destruct x. }
    destruct l1 as [|x' l1], l2 as [|y' l2].
    + simpl in Heq. by subst.
    + rewrite join_space_cons in Heq. cbn [join_space] in Heq. subst x.
      by rewrite no_space_app_space in Hsx.
    + rewrite join_space_cons in Heq. cbn [join_space] in Heq. subst y.
      by rewrite no_space_app_space in Hsy.
    + rewrite !join_space_cons in Heq.
      destruct (app_space_inj _ _ _ _ Hsx Hsy Heq) as [-> Hrest].
      f_equal. by apply IH.
Qed.

Lemma app_char_inj_r (a b : string) (c : ascii) :
  a +:+ String c "" = b +:+ String c "" -> a = b.
Proof.
  revert b. induction a as [|x a IH]; intros [|y b] Heq; simpl in Heq.
  - done.
  - injection Heq as _ Heq. by destruct b.
  - injection Heq as _ Heq. by destruct a.
  - injection Heq as -> Heq. f_equal. by apply IH.
Qed.

(** Distinct part paths have distinct path keys. *)
Lemma Sprintf_v_inj (p1 p2 : list Z) : Sprintf_v p1 = Sprintf_v p2 -> p1 = p2.
Proof.
  unfold Sprintf_v. intros Heq.
  change ("[" +:+ ?x) with (String "["%char x) in Heq. injection Heq as Heq.
  apply app_char_inj_r in Heq.
  apply join_space_inj in Heq.
  - revert p2 Heq. induction p1 as [|a p1 IH]; intros [|b p2] Heq; try done.
    simpl in Heq. injection Heq as Hab Heq.
    apply (inj pretty) in Hab. subst. f_equal. by apply IH.
  - apply Forall_map, Forall_forall. intros z _. apply pretty_Z_token.
  - apply Forall_map, Forall_forall. intros z _. apply pretty_Z_token.
Qed.

(** Distinct pairs of a sequence number and a part path have distinct
    section keys. *)
Lemma Sprintf_key_inj (n n' : Z) (p p' : list Z) :
  UInt32.in_range n -> UInt32.in_range n' ->
  Sprintf_key n p = Sprintf_key n' p' -> n = n' /\ p = p'.
Proof.
  unfold Sprintf_key. intros Hn Hn' Heq.
  destruct (wf_key_eq _ _ _ _ Hn Hn' Heq) as [-> Hv].
  split; [done|]. by apply Sprintf_v_inj.
Qed.

(** ** The batched content fetch *)

Lemma wf_key_Sprintf (n : Z) (p : list Z) : UInt32.in_range n -> wf_key (Sprintf_key n p).
Proof. intros Hn. exists n, (Sprintf_v p). done. Qed.

(** The content map after the items of one message: its keys are well
    formed, and it holds for every key the last fragment read for it. *)
Lemma read_items_spec (seqNum : Z) (items : list imapclient.FetchItemData) :
  UInt32.in_range seqNum ->
  forall contentMap contentMap',
    read_items seqNum items contentMap = Ok contentMap' ->
    (map_Forall (fun k _ => wf_key k) contentMap ->
     map_Forall (fun k _ => wf_key k) contentMap')
    /\ forall n p,
         UInt32.in_range n ->
         contentMap' !! Sprintf_key n p
         = fold_left (fragment_item n p seqNum) items (contentMap !! Sprintf_key n p).
Proof.
  intros Hseq. induction items as [|item items IH]; intros cm cm' Hread.
  - injection Hread as <-. done.
  - destruct item as [section [[content | e] |] |]; cbn [read_items] in Hread.
    + unfold wrapErr in Hread. cbn [mbind result_bind] in Hread.
      apply IH in Hread as [Hwf Hlook]. split.
      * intros Hcm. apply Hwf. apply map_Forall_insert_2; [|done].
        by apply wf_key_Sprintf.
      * intros n p Hn. rewrite (Hlook n p Hn). cbn [fold_left fragment_item].
        f_equal. case_decide as Hd.
        -- destruct Hd as [Hd1 Hd2]. subst n p. apply lookup_insert_eq.
        -- apply lookup_insert_ne. intros Hk.
           apply Sprintf_key_inj in Hk as [? ?]; [|done..]. by apply Hd.
    + discriminate.
    + apply IH in Hread as [Hwf Hlook]. done.
    + apply IH in Hread as [Hwf Hlook]. done.
Qed.

Lemma read_stream_spec (msgs : list imapclient.FetchMessageData) :
  Forall (fun msg => UInt32.in_range (imapclient.data_SeqNum msg)) msgs ->
  forall contentMap contentMap',
    read_stream msgs contentMap = Ok contentMap' ->
    (map_Forall (fun k _ => wf_key k) contentMap ->
     map_Forall (fun k _ => wf_key k) contentMap')
    /\ forall n p,
         UInt32.in_range n ->
         contentMap' !! Sprintf_key n p
         = fragment_from n p msgs (contentMap !! Sprintf_key n p).
Proof.
  induction 1 as [|msg msgs Hmsg _ IH]; intros cm cm' Hread.
  - injection Hread as <-. done.
  - cbn [read_stream] in Hread.
    destruct (read_items _ _ cm) as [cm1|] eqn:Hitems; [|discriminate].
    simpl in Hread.
    apply (read_items_spec _ _ Hmsg) in Hitems as [Hwf1 Hlook1].
    apply IH in Hread as [Hwf Hlook]. split; [auto|].
    intros n p Hn. rewrite (Hlook n p Hn), (Hlook1 n p Hn). reflexivity.
Qed.

(** Grouping by message: looking a path key up in the group of a
    sequence number is looking the section key up in the content map,
    whatever the order of the iteration. *)
Lemma groupContents_lookup (contentMap : gmap string string) :
  map_Forall (fun k _ => wf_key k) contentMap ->
  forall n s,
    UInt32.in_range n ->
    groupContents contentMap !! n ≫= (fun msgContent => msgContent !! s)
    = contentMap !! (pretty n +:+ ":" +:+ s).
Proof.
  unfold groupContents.
  apply (map_fold_weak_ind
           (fun (r : gmap Z (gmap string string)) (m : gmap string string) =>
              map_Forall (fun k _ => wf_key k) m ->
              forall n s, UInt32.in_range n ->
                          r !! n ≫= (fun msgContent => msgContent !! s)
                          = m !! (pretty n +:+ ":" +:+ s))).
  - intros _ n s _. by rewrite !lookup_empty.
  - intros i x m r Hi IH Hwf n s Hn.
    apply map_Forall_insert in Hwf as [(n0 & s0 & Hn0 & ->) Hwf]; [|done].
    specialize (IH Hwf).
    unfold group_step.
    rewrite SplitN_colon_digits by (apply pretty_Z_digits; unfold UInt32.in_range in Hn0; lia).
    rewrite Sscanf_uint32_pretty by done.
    destruct (decide (n0 = n)) as [-> | Hne].
    + rewrite lookup_insert_eq. cbn [mbind option_bind].
      destruct (decide (s0 = s)) as [-> | Hs].
      * by rewrite !lookup_insert_eq.
      * rewrite lookup_insert_ne by done.
        rewrite lookup_insert_ne
          by (intros Hk; apply wf_key_eq in Hk as [_ ?]; done).
        rewrite <- (IH n s Hn).
        destruct (r !! n); [reflexivity | apply lookup_empty].
    + rewrite lookup_insert_ne by done.
      rewrite lookup_insert_ne
        by (intros Hk; apply wf_key_eq in Hk as [? _]; done).
      by apply IH.
Qed.

Lemma collectParts_spec (msgContent : gmap string string)
    (metadatas : list MimePartMetadata) :
  forall mimeParts,
    collectParts msgContent metadatas mimeParts
    = mimeParts
      ++ omap (fun metadata =>
                 newMimePart metadata <$> msgContent !! Sprintf_v (meta_Path metadata))
              metadatas.
Proof.
  induction metadatas as [|metadata metadatas IH]; intros mimeParts; simpl.
  - by rewrite app_nil_r.
  - destruct (msgContent !! Sprintf_v (meta_Path metadata)); simpl.
    + by rewrite IH, <- app_assoc.
    + apply IH.
Qed.

Lemma omap_pointwise {A B : Type} (f g : A -> option B) (l : list A) :
  (forall x, f x = g x) -> omap f l = omap g l.
Proof.
  intros Hfg. induction l as [|x l IH]; [reflexivity|].
  cbn [omap list_omap]. rewrite Hfg. destruct (g x); by rewrite IH.
Qed.

Lemma omap_none {A B : Type} (f : A -> option B) (l : list A) :
  (forall x, f x = None) -> omap f l = [].
Proof.
  intros Hf. induction l as [|x l IH]; [reflexivity|].
  cbn [omap list_omap]. by rewrite Hf.
Qed.

(** The third pass assembles every message of the batch from the parts
    whose fragments the content map holds. *)
Lemma processFetched_spec `{rt : GoRuntime} {fd : @FetchDeps rt} (totalFound : Z)
    (contentMap : gmap string string) (msgs : list imapclient.FetchMessageData) :
  map_Forall (fun k _ => wf_key k) contentMap ->
  (forall n p, UInt32.in_range n -> contentMap !! Sprintf_key n p = fragment msgs n p) ->
  forall messagesToFetch result_,
    Forall (fun msgInfo => UInt32.in_range (imapclient.SeqNum _ _ (Message msgInfo)))
           messagesToFetch ->
    processFetched totalFound (groupContents contentMap) messagesToFetch result_
    = assemble_all totalFound
        (fun msgInfo =>
           found_parts msgs (imapclient.SeqNum _ _ (Message msgInfo))
             (MimePartMetadata_ msgInfo))
        messagesToFetch result_.
Proof.
  intros Hwf Hfrag messagesToFetch.
  induction messagesToFetch as [|msgInfo messagesToFetch IH]; intros result_ Hseq;
    [reflexivity|].
  apply Forall_cons in Hseq as [Hn Hseq].
  cbn [processFetched assemble_all].
  set (seqNum := imapclient.SeqNum _ _ (Message msgInfo)) in *.
  assert (Hkey : forall metadata,
             groupContents contentMap !! seqNum
               ≫= (fun msgContent => msgContent !! Sprintf_v (meta_Path metadata))
             = fragment msgs seqNum (meta_Path metadata)).
  { intros metadata. rewrite groupContents_lookup by done. by apply Hfrag. }
  destruct (groupContents contentMap !! seqNum) as [msgContent|] eqn:Hgroup.
  - rewrite collectParts_spec. cbn [app].
    assert (Hparts :
              omap (fun metadata =>
                      newMimePart metadata <$> msgContent !! Sprintf_v (meta_Path metadata))
                   (MimePartMetadata_ msgInfo)
              = found_parts msgs seqNum (MimePartMetadata_ msgInfo)).
    { unfold found_parts. apply omap_pointwise. intros metadata.
      by rewrite <- (Hkey metadata). }
    rewrite Hparts.
    destruct (NewEmailMessageFromIMAP (Message msgInfo) _) as [email|e]; [|reflexivity].
    cbn [wrapErr mbind result_bind]. by apply IH.
  - assert (Hparts : found_parts msgs seqNum (MimePartMetadata_ msgInfo) = []).
    { unfold found_parts. apply omap_none. intros metadata.
      by rewrite <- (Hkey metadata). }
    rewrite Hparts.
    destruct (NewEmailMessageFromIMAP (Message msgInfo) []) as [email|e]; [|reflexivity].
    cbn [wrapErr mbind result_bind]. by apply IH.
Qed.

Lemma assemble_all_ok `{rt : GoRuntime} {fd : @FetchDeps rt} (totalFound : Z)
    (parts_for : MessageFetchInfo -> list MimePart) :
  (forall msg parts, is_Ok (NewEmailMessageFromIMAP msg parts)) ->
  forall messagesToFetch result_,
  exists emails,
    assemble_all totalFound parts_for messagesToFetch result_ = Ok (result_ ++ emails)
    /\ length emails = length messagesToFetch.
Proof.
  intros Hnew messagesToFetch.
  induction messagesToFetch as [|msgInfo messagesToFetch IH]; intros result_.
  - exists []. by rewrite app_nil_r.
  - cbn [assemble_all].
    pose proof (Hnew (Message msgInfo) (parts_for msgInfo)) as Hok.
    destruct (NewEmailMessageFromIMAP (Message msgInfo) (parts_for msgInfo))
      as [email|e]; [|done].
    cbn [wrapErr mbind result_bind].
    destruct (IH (result_ ++ [set_TotalCount email (UInt32.wrap totalFound)]))
      as (emails & -> & Hlen).
    exists (set_TotalCount email (UInt32.wrap totalFound) :: emails).
    split; [by rewrite <- app_assoc | simpl; by rewrite Hlen].
Qed.

(** C4, as stated, fails: message 7 needs the parts [1] and [2] and the
    response omits part [2]; the assembled message has the single part
    of path [1] and no part with an empty content.  Message 8 is
    assembled with its part, and no error is returned. *)
Lemma missing_fragment_not_empty_part :
  fragment
    (imapclient.stream _ _
       (client_Fetch two_message_client (batchSeqSet two_message_batch)
          (imapclient.mkFetchOptions true true false false true true [])))
    7 [2] = None
  /\ exists e7 e8,
       FetchMessages (example_rule (from_condition "a") (paging 0 0 0 0))
         two_message_client = Ok [e7; e8]
       /\ em_SeqNum e7 = 7
       /\ map part_Content (em_MimeParts e7) = ["hello"]
       /\ Forall (fun part => part_Content part <> "") (em_MimeParts e7)
       /\ em_SeqNum e8 = 8
       /\ map part_Content (em_MimeParts e8) = ["world"].
Proof.
  split; [by vm_compute|].
  eexists _, _. split; [by vm_compute|].
  repeat split; try (by vm_compute).
  repeat constructor. by vm_compute.
Qed.

(** C4, amended: when the batched content fetch succeeds (every literal
    is read and the command closes without error), each message of the
    batch is assembled, in order, from the MIME parts of its
    requirements whose fragment the response holds for the key of its
    sequence number and the part path; a requirement whose fragment is
    missing contributes no part, a requirement whose fragment is present
    contributes a part with that content, and the other parts and
    messages are not affected.  No error is returned unless the
    assembler itself fails. *)
Theorem missing_fragment_omitted `{rt : GoRuntime} {fd : @FetchDeps rt}
    (output : OutputConfig) (client : Client) (totalFound : Z)
    (messagesToFetch : list MessageFetchInfo) (result_ : list EmailMessage)
    (options : imapclient.FetchOptions) :
  let batchFetchCmd :=
    client_Fetch client (batchSeqSet messagesToFetch)
      (imapclient.set_BodySection (imapclient.set_BodyStructure options true)
         (allFetchSections messagesToFetch)) in
  let msgs := imapclient.stream _ _ batchFetchCmd in
  BuildFetchOptions output = Ok options ->
  Forall (fun msg => UInt32.in_range (imapclient.data_SeqNum msg)) msgs ->
  Forall (fun msgInfo => UInt32.in_range (imapclient.SeqNum _ _ (Message msgInfo)))
         messagesToFetch ->
  is_Ok (read_stream msgs ∅) ->
  imapclient.Close _ _ batchFetchCmd = None ->
  fetchContent output client totalFound messagesToFetch result_
  = assemble_all totalFound
      (fun msgInfo =>
         found_parts msgs (imapclient.SeqNum _ _ (Message msgInfo))
           (MimePartMetadata_ msgInfo))
      messagesToFetch result_
  /\ ((forall msg parts, is_Ok (NewEmailMessageFromIMAP msg parts)) ->
      exists emails,
        fetchContent output client totalFound messagesToFetch result_
        = Ok (result_ ++ emails)
        /\ length emails = length messagesToFetch)
  /\ (forall seqNum before metadata after,
         fragment msgs seqNum (meta_Path metadata) = None ->
         found_parts msgs seqNum (before ++ metadata :: after)
         = found_parts msgs seqNum before ++ found_parts msgs seqNum after)
  /\ (forall seqNum before metadata after content,
         fragment msgs seqNum (meta_Path metadata) = Some content ->
         found_parts msgs seqNum (before ++ metadata :: after)
         = found_parts msgs seqNum before
           ++ newMimePart metadata content :: found_parts msgs seqNum after).
Proof.
  intros batchFetchCmd msgs Hopts Hstream Hbatch Hread Hclose.
  assert (Heq : fetchContent output client totalFound messagesToFetch result_
                = assemble_all totalFound
                    (fun msgInfo =>
                       found_parts msgs (imapclient.SeqNum _ _ (Message msgInfo))
                         (MimePartMetadata_ msgInfo))
                    messagesToFetch result_).
  { unfold fetchContent. rewrite Hopts. cbn [wrapErr mbind result_bind].
    fold batchFetchCmd. fold msgs.
    destruct (read_stream msgs ∅) as [contentMap|] eqn:Hcm; [|done].
    cbn [mbind result_bind]. rewrite Hclose.
    destruct (read_stream_spec msgs Hstream _ _ Hcm) as [Hwf Hlook].
    apply processFetched_spec; [| |done].
    - apply Hwf. apply map_Forall_empty.
    - intros n p Hn. rewrite (Hlook n p Hn). by rewrite lookup_empty. }
  split; [exact Heq|]. split; [|split].
  - intros Hnew. rewrite Heq. by apply assemble_all_ok.
  - intros seqNum before metadata after Hnone. unfold found_parts.
    rewrite omap_app. cbn [omap list_omap]. by rewrite Hnone.
  - intros seqNum before metadata after content Hsome. unfold found_parts.
    rewrite omap_app. cbn [omap list_omap]. by rewrite Hsome.
Qed.

Lemma missing_fragment_omitted_witness :
  exists emails,
    fetchContent (paging 0 0 0 0) two_message_client 2 two_message_batch []
    = Ok ([] ++ emails)
    /\ length emails = length two_message_batch.
Proof.
  destruct (missing_fragment_omitted (paging 0 0 0 0) two_message_client 2
              two_message_batch []
              (imapclient.mkFetchOptions true true false false true true [])
              eq_refl
              ltac:(repeat constructor; by vm_compute)
              ltac:(repeat constructor; by vm_compute)
              ltac:(by vm_compute)
              eq_refl) as (_ & Hok & _).
  apply Hok. intros msg parts. exact I.
Defined.


(** * Further properties of the package *)

(** ** [parseDate] *)

Lemma parseDate_formats_spec `{GoRuntime} (fs : list string) (dateStr : string) :
  (forall t, parseDate_formats fs dateStr = Ok t <->
             exists before layout after,
               fs = before ++ layout :: after
               /\ Forall (fun l => time_Parse l dateStr = None) before
               /\ time_Parse layout dateStr = Some t)
  /\ (forall e, parseDate_formats fs dateStr = Err e <->
                Forall (fun l => time_Parse l dateStr = None) fs
                /\ e = "could not parse date: " +:+ dateStr).
Proof.
  induction fs as [|f fs [IHok IHerr]]; cbn [parseDate_formats].
  - split.
    + intros t. split; [discriminate|].
      intros (before & layout & after & Hfs & _). by destruct before.
    + intros e. split; [by intros [= <-] | by intros [_ ->]].
  - destruct (time_Parse f dateStr) as [t0|] eqn:Hf; split.
    + intros t. split.
      * intros [= <-]. exists [], f, fs. done.
      * intros (before & layout & after & Hfs & Hbefore & Hlayout).
        destruct before as [|b before]; injection Hfs as -> Hfs.
        -- congruence.
        -- apply Forall_cons in Hbefore as [Hb _]. congruence.
    + intros e. split; [discriminate|].
      intros [Hall _]. apply Forall_cons in Hall as [Hnone _]. congruence.
    + intros t. rewrite IHok. split.
      * intros (before & layout & after & -> & Hbefore & Hlayout).
        exists (f :: before), layout, after. split; [done|]. split; [|done].
        by constructor.
      * intros (before & layout & after & Hfs & Hbefore & Hlayout).
        destruct before as [|b before]; injection Hfs as -> Hfs.
        -- congruence.
        -- apply Forall_cons in Hbefore as [_ Hbefore].
           exists before, layout, after. done.
    + intros e. rewrite IHerr. split.
      * intros [Hall ->]. split; [by constructor | done].
      * intros [Hall ->]. apply Forall_cons in Hall as [_ Hall]. done.
Qed.

Lemma parseDate_as_formats `{GoRuntime} (dateStr : string) :
  parseDate dateStr = parseDate_formats all_layouts dateStr.
Proof.
  unfold parseDate, all_layouts. cbn [parseDate_formats].
  destruct (time_Parse time_RFC3339 dateStr); [reflexivity|].
  by destruct (time_Parse "2006-01-02" dateStr).
Qed.

(** X1: [parseDate] returns the time of the first layout that parses
    the string, the nine layouts being tried in the order RFC3339,
    [2006-01-02], [2006/01/02], [01/02/2006], [02/01/2006],
    [Jan 2, 2006], [2 Jan 2006], RFC822, RFC1123; so a string that both
    [01/02/2006] and [02/01/2006] read is taken as month/day.  It fails
    exactly when no layout parses, with the error [could not parse
    date: ] followed by the string. *)
Theorem parseDate_first_layout `{GoRuntime} (dateStr : string) :
  (forall t, parseDate dateStr = Ok t <->
             exists before layout after,
               all_layouts = before ++ layout :: after
               /\ Forall (fun l => time_Parse l dateStr = None) before
               /\ time_Parse layout dateStr = Some t)
  /\ (forall e, parseDate dateStr = Err e <->
                Forall (fun l => time_Parse l dateStr = None) all_layouts
                /\ e = "could not parse date: " +:+ dateStr)
  /\ all_layouts
     = ["2006-01-02T15:04:05Z07:00"; "2006-01-02"; "2006/01/02"; "01/02/2006";
        "02/01/2006"; "Jan 2, 2006"; "2 Jan 2006"; "02 Jan 06 15:04 MST";
        "Mon, 02 Jan 2006 15:04:05 MST"]
  /\ (forall t t',
         Forall (fun l => time_Parse l dateStr = None)
                ["2006-01-02T15:04:05Z07:00"; "2006-01-02"; "2006/01/02"] ->
         time_Parse "01/02/2006" dateStr = Some t ->
         time_Parse "02/01/2006" dateStr = Some t' ->
         parseDate dateStr = Ok t).
Proof.
  rewrite parseDate_as_formats.
  destruct (parseDate_formats_spec all_layouts dateStr) as [Hok Herr].
  split; [exact Hok|]. split; [exact Herr|]. split; [reflexivity|].
  intros t t' Hnone Ht _. apply Hok.
  exists ["2006-01-02T15:04:05Z07:00"; "2006-01-02"; "2006/01/02"], "01/02/2006",
    ["02/01/2006"; "Jan 2, 2006"; "2 Jan 2006"; "02 Jan 06 15:04 MST";
     "Mon, 02 Jan 2006 15:04:05 MST"].
  done.
Qed.

Lemma parseDate_first_layout_witness :
  @parseDate table_runtime "03/04/2025" = Ok 20151.
Proof.
  destruct (@parseDate_first_layout table_runtime "03/04/2025") as (_ & _ & _ & Hmd).
  apply (Hmd 20151 20181); [repeat constructor | reflexivity | reflexivity].
Defined.

(** ** The criteria of a flat condition *)

Lemma add_header_eq `{GoRuntime} (key value : string) (c : imap.SearchCriteria) :
  add_header key value c = imap.set_Header c (imap.Header c ++ header_entry key value).
Proof.
  unfold add_header, header_entry. case_decide; [|reflexivity].
  destruct c as [u s b hd bd tx fl nf lg sm nt o]. unfold imap.set_Header.
  cbn [imap.UID imap.Since imap.Before imap.Header imap.Body imap.Text imap.Flag
       imap.NotFlag imap.Larger imap.Smaller imap.Not imap.Or].
  by rewrite app_nil_r.
Qed.

(** Reduction of the field projections and setters of a criteria. *)
Ltac criteria_simpl :=
  cbn [imap.UID imap.Since imap.Before imap.Header imap.Body imap.Text imap.Flag
       imap.NotFlag imap.Larger imap.Smaller imap.Not imap.Or
       imap.set_UID imap.set_Since imap.set_Before imap.set_Header imap.set_Body
       imap.set_Text imap.set_Flag imap.set_NotFlag imap.set_Larger imap.set_Smaller
       imap.empty imap.of_Not imap.of_Or].


Lemma header_criteria_eq `{GoRuntime} (config : SearchConfig) (c : imap.SearchCriteria) :
  header_criteria config c = imap.set_Header c (imap.Header c ++ headers_of config).
Proof.
  unfold header_criteria, headers_of. cbv zeta. rewrite !add_header_eq.
  destruct c as [u s b hd bd tx fl nf lg sm nt o]. criteria_simpl.
  destruct (Header config) as [h|]; [case_decide|]; criteria_simpl;
    rewrite <- ?app_assoc, ?app_nil_r; reflexivity.
Qed.

Lemma content_criteria_eq `{GoRuntime} (config : SearchConfig) (c : imap.SearchCriteria) :
  content_criteria config c
  = imap.set_Text
      (imap.set_Body c (if decide (BodyContains config = "") then imap.Body c
                        else [BodyContains config]))
      (if decide (Text config = "") then imap.Text c else [Text config]).
Proof.
  unfold content_criteria. destruct c as [u s b hd bd tx fl nf lg sm nt o].
  by repeat case_decide.
Qed.

Lemma flag_criteria_eq `{GoRuntime} (config : SearchConfig) (c : imap.SearchCriteria) :
  flag_criteria config c
  = imap.set_NotFlag
      (imap.set_Flag c
         (imap.Flag c ++ match Flags config with
                         | Some fl => map convertToIMAPFlag (Has fl)
                         | None => []
                         end))
      (imap.NotFlag c ++ match Flags config with
                         | Some fl => map convertToIMAPFlag (NotHas fl)
                         | None => []
                         end).
Proof.
  unfold flag_criteria. destruct c as [u s b hd bd tx fl nf lg sm nt o].
  destruct (Flags config); [reflexivity|].
  criteria_simpl. by rewrite !app_nil_r.
Qed.
(** The date block changes [Since] and [Before] only. *)
Lemma date_criteria_frame `{GoRuntime} (config : SearchConfig) (c c' : imap.SearchCriteria) :
  date_criteria config c = Ok c' ->
  c' = imap.set_Before (imap.set_Since c (imap.Since c')) (imap.Before c').
Proof.
  unfold date_criteria. intros Hd.
  destruct (decide (Since config = "")) as [Hs|Hs];
    [|destruct (parseDate (Since config)) as [s|] eqn:Ps; [|discriminate]];
    cbn [wrapErr mbind result_bind] in Hd;
    (destruct (decide (Before config = "")) as [Hb|Hb];
     [|destruct (parseDate (Before config)) as [b|] eqn:Pb; [|discriminate]]);
    cbn [wrapErr mbind result_bind] in Hd;
    (destruct (decide (On config = "")) as [Ho|Ho];
     [|destruct (parseDate (On config)) as [on|] eqn:Po; [|discriminate]]);
    cbn [wrapErr mbind result_bind] in Hd;
    destruct (0 <? WithinDays config);
    injection Hd as <-; by destruct c as [u s0 b0 hd bd tx fl nf lg sm nt o0].
Qed.

(** The size block changes [Larger] and [Smaller] only. *)
Lemma size_criteria_frame `{GoRuntime} (config : SearchConfig) (c c' : imap.SearchCriteria) :
  size_criteria config c = Ok c' ->
  c' = imap.set_Smaller (imap.set_Larger c (imap.Larger c')) (imap.Smaller c').
Proof.
  unfold size_criteria. intros Hz.
  destruct (Size config) as [sz|]; [|injection Hz as <-; by destruct c].
  destruct (decide (LargerThan sz = "")) as [Hl|Hl];
    [|destruct (parseSize (LargerThan sz)) as [l|] eqn:Pl; [|discriminate]];
    cbn [wrapErr mbind result_bind] in Hz;
    (destruct (decide (SmallerThan sz = "")) as [Hm|Hm];
     [|destruct (parseSize (SmallerThan sz)) as [m|] eqn:Pm; [|discriminate]]);
    cbn [wrapErr mbind result_bind] in Hz;
    injection Hz as <-; by destruct c as [u s0 b0 hd bd tx fl nf lg sm nt o0].
Qed.

Lemma uid_pagination_frame `{GoRuntime} (oc : OutputConfig) (c : imap.SearchCriteria) :
  uid_pagination oc c = imap.set_UID c (imap.UID (uid_pagination oc c)).
Proof.
  unfold uid_pagination. destruct c as [u s0 b0 hd bd tx fl nf lg sm nt o0].
  by destruct (_ || _).
Qed.

(** The steps of the flat path, with the criteria after the date block
    and after the size block. *)
Lemma buildFlatCriteria_steps `{ImapLib} (config : SearchConfig)
    (oc : option OutputConfig) (c : imap.SearchCriteria) (o : option imap.SearchOptions) :
  buildFlatCriteria config oc = Ok (c, o) ->
  exists c1 c2,
    date_criteria config imap.empty = Ok c1
    /\ size_criteria config
         (flag_criteria config (content_criteria config (header_criteria config c1)))
       = Ok c2
    /\ c = match oc with Some oc => uid_pagination oc c2 | None => c2 end
    /\ o = Some (pagination_options oc).
Proof.
  unfold buildFlatCriteria. intros Hb.
  destruct (date_criteria config imap.empty) as [c1|] eqn:H1; [|discriminate].
  simpl in Hb.
  destruct (size_criteria config _) as [c2|] eqn:H2; [|discriminate].
  simpl in Hb. injection Hb as <- <-. by exists c1, c2.
Qed.

Lemma BuildSearchCriteria_flat `{ImapLib} (config : SearchConfig)
    (oc : option OutputConfig) :
  Operator_ config = "" ->
  BuildSearchCriteria config oc = buildFlatCriteria config oc.
Proof.
  intros Hop. unfold BuildSearchCriteria, BuildSearchCriteria_with.
  rewrite decide_False; [reflexivity|]. rewrite Hop. by intros Hne.
Qed.

(** The criteria of a flat condition in terms of the criteria after the
    date block and the values of the size block. *)
Lemma flat_criteria_shape `{ImapLib} (config : SearchConfig)
    (oc : option OutputConfig) (c : imap.SearchCriteria) (o : option imap.SearchOptions) :
  buildFlatCriteria config oc = Ok (c, o) ->
  exists c1 c2,
    date_criteria config imap.empty = Ok c1
    /\ size_criteria config
         (flag_criteria config (content_criteria config (header_criteria config c1)))
       = Ok c2
    /\ c = imap.mkSearchCriteria
             (imap.UID c) (imap.Since c1) (imap.Before c1) (headers_of config)
             (if decide (BodyContains config = "") then [] else [BodyContains config])
             (if decide (Text config = "") then [] else [Text config])
             (match Flags config with
              | Some fl => map convertToIMAPFlag (Has fl)
              | None => []
              end)
             (match Flags config with
              | Some fl => map convertToIMAPFlag (NotHas fl)
              | None => []
              end)
             (imap.Larger c2) (imap.Smaller c2) [] []
    /\ o = Some (pagination_options oc).
Proof.
  intros Hb. apply buildFlatCriteria_steps in Hb as (c1 & c2 & H1 & H2 & -> & ->).
  exists c1, c2. split; [done|]. split; [done|]. split; [|done].
  pose proof (date_criteria_frame _ _ _ H1) as F1.
  pose proof (size_criteria_frame _ _ _ H2) as F2.
  assert (Hc2 : c2 = imap.mkSearchCriteria
             [] (imap.Since c1) (imap.Before c1) (headers_of config)
             (if decide (BodyContains config = "") then [] else [BodyContains config])
             (if decide (Text config = "") then [] else [Text config])
             (match Flags config with
              | Some fl => map convertToIMAPFlag (Has fl)
              | None => []
              end)
             (match Flags config with
              | Some fl => map convertToIMAPFlag (NotHas fl)
              | None => []
              end)
             (imap.Larger c2) (imap.Smaller c2) [] []).
  { rewrite F2 at 1. rewrite flag_criteria_eq, content_criteria_eq, header_criteria_eq.
    rewrite F1. criteria_simpl. reflexivity. }
  destruct oc as [oc|].
  - rewrite uid_pagination_frame at 1. rewrite Hc2 at 1. criteria_simpl. reflexivity.
  - assert (Hu : imap.UID c2 = []) by (by rewrite Hc2). rewrite Hu. exact Hc2.
Qed.

Lemma date_criteria_spec `{GoRuntime} (config : SearchConfig) (c c' : imap.SearchCriteria) :
  date_criteria config c = Ok c' ->
  (0 < WithinDays config ->
     imap.Since c' = time_Date0 (time_AddDate time_Now 0 0 (- WithinDays config)))
  /\ (WithinDays config <= 0 -> On config <> "" ->
        exists on, parseDate (On config) = Ok on /\ imap.Since c' = time_Date0 on)
  /\ (WithinDays config <= 0 -> On config = "" -> Since config <> "" ->
        parseDate (Since config) = Ok (imap.Since c'))
  /\ (WithinDays config <= 0 -> On config = "" -> Since config = "" ->
        imap.Since c' = imap.Since c)
  /\ (On config <> "" ->
        exists on, parseDate (On config) = Ok on
                   /\ imap.Before c' = time_AddDate (time_Date0 on) 0 0 1)
  /\ (On config = "" -> Before config <> "" ->
        parseDate (Before config) = Ok (imap.Before c'))
  /\ (On config = "" -> Before config = "" -> imap.Before c' = imap.Before c)
  /\ (Since config <> "" -> is_Ok (parseDate (Since config)))
  /\ (Before config <> "" -> is_Ok (parseDate (Before config))).
Proof.
  unfold date_criteria. intros Hd.
  destruct (decide (Since config = "")) as [Hs|Hs];
    [|destruct (parseDate (Since config)) as [s|] eqn:Ps; [|discriminate]];
    cbn [wrapErr mbind result_bind] in Hd;
    (destruct (decide (Before config = "")) as [Hb|Hb];
     [|destruct (parseDate (Before config)) as [b|] eqn:Pb; [|discriminate]]);
    cbn [wrapErr mbind result_bind] in Hd;
    (destruct (decide (On config = "")) as [Ho|Ho];
     [|destruct (parseDate (On config)) as [on|] eqn:Po; [|discriminate]]);
    cbn [wrapErr mbind result_bind] in Hd;
    destruct (Z.ltb_spec 0 (WithinDays config)) as [Hw|Hw];
    injection Hd as <-; criteria_simpl;
    repeat split; intros; try done; try lia; eauto.
Qed.

Lemma size_criteria_spec `{GoRuntime} (config : SearchConfig) (c c' : imap.SearchCriteria) :
  size_criteria config c = Ok c' ->
  (forall sz, Size config = Some sz -> LargerThan sz <> "" ->
     parseSize (LargerThan sz) = Ok (imap.Larger c'))
  /\ (forall sz, Size config = Some sz -> SmallerThan sz <> "" ->
        parseSize (SmallerThan sz) = Ok (imap.Smaller c'))
  /\ ((forall sz, Size config = Some sz -> LargerThan sz = "") ->
        imap.Larger c' = imap.Larger c)
  /\ ((forall sz, Size config = Some sz -> SmallerThan sz = "") ->
        imap.Smaller c' = imap.Smaller c).
Proof.
  unfold size_criteria. intros Hz.
  destruct (Size config) as [sz|]; [|by injection Hz as <-].
  destruct (decide (LargerThan sz = "")) as [Hl|Hl];
    [|destruct (parseSize (LargerThan sz)) as [l|] eqn:Pl; [|discriminate]];
    cbn [wrapErr mbind result_bind] in Hz;
    (destruct (decide (SmallerThan sz = "")) as [Hm|Hm];
     [|destruct (parseSize (SmallerThan sz)) as [m|] eqn:Pm; [|discriminate]]);
    cbn [wrapErr mbind result_bind] in Hz; injection Hz as <-; criteria_simpl;
    repeat split; intros;
    repeat match goal with
           | E : Some _ = Some _ |- _ => injection E as <-
           | F : forall sz, Some _ = Some sz -> _ |- _ => specialize (F _ eq_refl)
           end; done.
Qed.

(** X2: which date fields of a flat condition reach the criteria.  A
    positive [within_days] decides [Since] (midnight of the day that many
    days before now), whatever [since] and [on] say; otherwise [on]
    decides it (midnight of that day), and only without [on] does [since]
    count.  [Before] is the day after [on], and only without [on] the
    date of [before].  The fields that are overridden must still parse:
    the compilation succeeds only if every non-empty [since] and [before]
    is a date. *)
Theorem flat_dates `{ImapLib} (config : SearchConfig) (oc : option OutputConfig)
    (c : imap.SearchCriteria) (o : option imap.SearchOptions) :
  Operator_ config = "" ->
  BuildSearchCriteria config oc = Ok (c, o) ->
  (0 < WithinDays config ->
     imap.Since c = time_Date0 (time_AddDate time_Now 0 0 (- WithinDays config)))
  /\ (WithinDays config <= 0 -> On config <> "" ->
        exists on, parseDate (On config) = Ok on /\ imap.Since c = time_Date0 on)
  /\ (WithinDays config <= 0 -> On config = "" -> Since config <> "" ->
        parseDate (Since config) = Ok (imap.Since c))
  /\ (WithinDays config <= 0 -> On config = "" -> Since config = "" ->
        imap.Since c = time_zero)
  /\ (On config <> "" ->
        exists on, parseDate (On config) = Ok on
                   /\ imap.Before c = time_AddDate (time_Date0 on) 0 0 1)
  /\ (On config = "" -> Before config <> "" ->
        parseDate (Before config) = Ok (imap.Before c))
  /\ (On config = "" -> Before config = "" -> imap.Before c = time_zero)
  /\ (Since config <> "" -> is_Ok (parseDate (Since config)))
  /\ (Before config <> "" -> is_Ok (parseDate (Before config))).
Proof.
  intros Hop Hb. rewrite BuildSearchCriteria_flat in Hb by done.
  apply flat_criteria_shape in Hb as (c1 & c2 & H1 & _ & Hc & _).
  apply date_criteria_spec in H1.
  assert (Hs : imap.Since c = imap.Since c1) by (by rewrite Hc).
  assert (Hbf : imap.Before c = imap.Before c1) by (by rewrite Hc).
  rewrite Hs, Hbf. exact H1.
Qed.

Lemma flat_dates_witness :
  exists on, @parseDate table_runtime "03/04/2025" = Ok on
             /\ 20151 = @time_Date0 table_runtime on.
Proof.
  destruct (@flat_dates table_runtime table_imap
              (mkSearchConfig "2024-01-15" "" "03/04/2025" 0 "" "" "" "" "" ""
                 None "" "" None None "" [])
              None
              (@imap.mkSearchCriteria table_runtime [] 20151 20152 [] [] [] [] [] 0 0 [] [])
              (Some imap.no_options) eq_refl eq_refl) as (_ & Hon & _).
  exact (Hon ltac:(cbn; lia) ltac:(by cbn)).
Defined.



(** Reduction of the bind of [result]. *)
Ltac res_simpl := cbn [wrapErr check mbind result_bind is_Ok].

Lemma is_Ok_wrapErr {A : Type} (prefix : string) (r : result A) :
  is_Ok (wrapErr prefix r) <-> is_Ok r.
Proof. by destruct r. Qed.

Lemma date_criteria_ok_iff `{GoRuntime} (config : SearchConfig) (c : imap.SearchCriteria) :
  is_Ok (date_criteria config c)
  <-> (Since config <> "" -> is_Ok (parseDate (Since config)))
      /\ (Before config <> "" -> is_Ok (parseDate (Before config)))
      /\ (On config <> "" -> is_Ok (parseDate (On config))).
Proof.
  split.
  - intros Hok. destruct (date_criteria config c) as [c'|] eqn:Hd; [|done].
    apply date_criteria_spec in Hd as (_ & _ & _ & _ & Hon & _ & _ & Hs & Hb).
    split; [done|]. split; [done|].
    intros Ho. destruct (Hon Ho) as (on & -> & _). done.
  - intros (Hs & Hb & Ho). unfold date_criteria.
    destruct (decide (Since config = "")) as [Es|Es];
      [|specialize (Hs Es); destruct (parseDate (Since config)); [|done]];
      res_simpl;
      (destruct (decide (Before config = "")) as [Eb|Eb];
       [|specialize (Hb Eb); destruct (parseDate (Before config)); [|done]]);
      res_simpl;
      (destruct (decide (On config = "")) as [Eo|Eo];
       [|specialize (Ho Eo); destruct (parseDate (On config)); [|done]]);
      res_simpl;
      by destruct (0 <? WithinDays config).
Qed.

Lemma size_criteria_ok_iff `{GoRuntime} (config : SearchConfig) (c : imap.SearchCriteria) :
  is_Ok (size_criteria config c)
  <-> (forall sz, Size config = Some sz ->
         (LargerThan sz <> "" -> is_Ok (parseSize (LargerThan sz)))
         /\ (SmallerThan sz <> "" -> is_Ok (parseSize (SmallerThan sz)))).
Proof.
  split.
  - intros Hok. destruct (size_criteria config c) as [c'|] eqn:Hz; [|done].
    apply size_criteria_spec in Hz as (Hl & Hm & _).
    intros sz Hsz. split; intros Hne.
    + by rewrite (Hl sz Hsz Hne).
    + by rewrite (Hm sz Hsz Hne).
  - intros Hsz. unfold size_criteria.
    destruct (Size config) as [sz|]; [|done].
    destruct (Hsz sz eq_refl) as [Hl Hm].
    destruct (decide (LargerThan sz = "")) as [El|El];
      [|specialize (Hl El); destruct (parseSize (LargerThan sz)); [|done]];
      res_simpl;
      (destruct (decide (SmallerThan sz = "")) as [Em|Em];
       [|specialize (Hm Em); destruct (parseSize (SmallerThan sz)); [|done]]);
      done.
Qed.

Lemma buildFlatCriteria_ok_iff `{ImapLib} (config : SearchConfig)
    (oc : option OutputConfig) :
  is_Ok (buildFlatCriteria config oc)
  <-> (Since config <> "" -> is_Ok (parseDate (Since config)))
      /\ (Before config <> "" -> is_Ok (parseDate (Before config)))
      /\ (On config <> "" -> is_Ok (parseDate (On config)))
      /\ (forall sz, Size config = Some sz ->
            (LargerThan sz <> "" -> is_Ok (parseSize (LargerThan sz)))
            /\ (SmallerThan sz <> "" -> is_Ok (parseSize (SmallerThan sz)))).
Proof.
  unfold buildFlatCriteria. split.
  - intros Hok.
    destruct (date_criteria config imap.empty) as [c1|] eqn:Hd; [|done].
    cbn [mbind result_bind] in Hok.
    destruct (size_criteria config _) as [c2|] eqn:Hz; [|done].
    pose proof (proj1 (date_criteria_ok_iff config imap.empty)) as Hd'.
    rewrite Hd in Hd'. destruct (Hd' I) as (Hs & Hb & Ho).
    match type of Hz with
    | size_criteria _ ?c = _ => pose proof (proj1 (size_criteria_ok_iff config c)) as Hz'
    end.
    rewrite Hz in Hz'. specialize (Hz' I). done.
  - intros (Hs & Hb & Ho & Hz).
    pose proof (proj2 (date_criteria_ok_iff config imap.empty)
                  (conj Hs (conj Hb Ho))) as Hd.
    destruct (date_criteria config imap.empty) as [c1|]; [|done].
    cbn [mbind result_bind].
    set (c := flag_criteria _ _).
    pose proof (proj2 (size_criteria_ok_iff config c) Hz) as Hz'.
    by destruct (size_criteria config c).
Qed.

(** X4: a flat condition compiles exactly when each of its non-empty
    date fields is a date and each of its non-empty size fields is a
    size.  Nothing else can make it fail: not the headers, not the flags,
    and not the output configuration, whose limit, offset and UID bounds
    are used as they are. *)
Theorem flat_compiles_iff `{ImapLib} (config : SearchConfig) (oc : option OutputConfig) :
  Operator_ config = "" ->
  is_Ok (BuildSearchCriteria config oc)
  <-> (Since config <> "" -> is_Ok (parseDate (Since config)))
      /\ (Before config <> "" -> is_Ok (parseDate (Before config)))
      /\ (On config <> "" -> is_Ok (parseDate (On config)))
      /\ (forall sz, Size config = Some sz ->
            (LargerThan sz <> "" -> is_Ok (parseSize (LargerThan sz)))
            /\ (SmallerThan sz <> "" -> is_Ok (parseSize (SmallerThan sz)))).
Proof.
  intros Hop. rewrite BuildSearchCriteria_flat by done. apply buildFlatCriteria_ok_iff.
Qed.

Lemma flat_compiles_iff_witness :
  is_Ok (BuildSearchCriteria
           (mkSearchConfig "" "" "" 7 "a@example.com" "" "" "" "" ""
              None "" "" None (Some (mkSizeCriteria "10K" "5M")) "" [])
           (Some (paging 10 (-3) 0 0))).
Proof.
  apply (proj2 (flat_compiles_iff
                  (mkSearchConfig "" "" "" 7 "a@example.com" "" "" "" "" ""
                     None "" "" None (Some (mkSizeCriteria "10K" "5M")) "" [])
                  (Some (paging 10 (-3) 0 0)) eq_refl)).
  split; [done|]. split; [done|]. split; [done|].
  intros sz Hsz. injection Hsz as <-. split; intros _; by vm_compute.
Defined.

(** ** Combinators *)

(** Induction on a condition tree: the property holds for a node when it
    holds for each of its conditions. *)
Lemma SearchConfig_nested_ind (P : SearchConfig -> Prop) :
  (forall s, Forall P (Conditions s) -> P s) -> forall s, P s.
Proof.
  intros Hnode. fix go 1. intros s. apply Hnode.
  destruct s as [? ? ? ? ? ? ? ? ? ? ? ? ? ? ? ? conditions]. simpl.
  induction conditions as [|x l IH]; constructor; [apply go | exact IH].
Qed.

Lemma compile_children_ok `{ImapLib} (conditions : list SearchConfig) :
  Forall (fun s => is_Ok (BuildSearchCriteria s None)) conditions ->
  exists cs, compile_children conditions = Ok cs.
Proof.
  induction 1 as [|s l Hs _ [cs IH]]; [by exists []|].
  simpl. destruct (BuildSearchCriteria s None) as [[c o]|]; [|done].
  simpl. rewrite IH. simpl. eauto.
Qed.

Lemma and_loop_ok `{ImapLib} (conditions : list SearchConfig) :
  forall cs main,
    compile_children conditions = Ok cs ->
    and_loop buildSingleCondition conditions main = Ok (fold_left criteria_And cs main).
Proof.
  induction conditions as [|a l IH]; intros cs main Hc; simpl in Hc |- *.
  - by injection Hc as <-.
  - rewrite buildSingleCondition_eq.
    destruct (BuildSearchCriteria a None) as [[c1 o1]|]; [|discriminate].
    simpl in Hc |- *.
    destruct (compile_children l) as [cs'|] eqn:Hl; [|discriminate].
    injection Hc as <-. simpl. by apply IH.
Qed.

Lemma and_loop_err `{ImapLib} (conditions : list SearchConfig) :
  forall e main,
    compile_children conditions = Err e ->
    and_loop buildSingleCondition conditions main = Err e.
Proof.
  induction conditions as [|a l IH]; intros e main Hc; simpl in Hc |- *.
  - discriminate.
  - rewrite buildSingleCondition_eq.
    destruct (BuildSearchCriteria a None) as [[c1 o1]|]; simpl in Hc |- *.
    + destruct (compile_children l) as [cs'|] eqn:Hl; [discriminate|].
      injection Hc as <-. by apply IH.
    + by injection Hc as <-.
Qed.

Lemma BuildSearchCriteria_and `{ImapLib} (config : SearchConfig)
    (oc : option OutputConfig) (first : SearchConfig) (rest : list SearchConfig) :
  Operator_ config = OperatorAnd -> Conditions config = first :: rest ->
  BuildSearchCriteria config oc
  = ('(mainCriteria, options) ← BuildSearchCriteria first oc;
     mainCriteria ← and_loop buildSingleCondition rest mainCriteria;
     Ok (mainCriteria, options)).
Proof.
  intros Hop Hcs.
  rewrite BuildSearchCriteria_combinator by (by rewrite ?Hop, ?Hcs).
  unfold buildComplexSearchCriteria_with. rewrite decide_True by done.
  rewrite Hcs. simpl. by rewrite buildSingleCondition_eq.
Qed.

(** X5: an AND combinator compiles its first condition with the output
    configuration and each further condition without one, and merges the
    criteria from left to right with [And] of the IMAP library; the
    options are those of the first condition.  The first condition that
    fails gives the error, unchanged.  An AND of one condition is that
    condition. *)
Theorem and_combinator `{ImapLib} (config : SearchConfig) (oc : option OutputConfig)
    (first : SearchConfig) (rest : list SearchConfig) :
  Operator_ config = OperatorAnd ->
  Conditions config = first :: rest ->
  (forall c0 o cs,
      BuildSearchCriteria first oc = Ok (c0, o) ->
      compile_children rest = Ok cs ->
      BuildSearchCriteria config oc = Ok (fold_left criteria_And cs c0, o))
  /\ (forall e, BuildSearchCriteria first oc = Err e ->
                BuildSearchCriteria config oc = Err e)
  /\ (forall c0 o e,
         BuildSearchCriteria first oc = Ok (c0, o) ->
         compile_children rest = Err e ->
         BuildSearchCriteria config oc = Err e)
  /\ (rest = [] -> BuildSearchCriteria config oc = BuildSearchCriteria first oc).
Proof.
  intros Hop Hcs. rewrite (BuildSearchCriteria_and _ _ _ _ Hop Hcs).
  repeat split.
  - intros c0 o cs -> Hr. res_simpl. by rewrite (and_loop_ok _ _ _ Hr).
  - by intros e ->.
  - intros c0 o e -> Hr. simpl. by rewrite (and_loop_err _ _ _ Hr).
  - intros ->. by destruct (BuildSearchCriteria first oc) as [[c0 o]|].
Qed.

Lemma and_combinator_witness :
  BuildSearchCriteria
    (combinator "and" [from_condition "a"; from_condition "b"; from_condition "c"])
    (Some (paging 5 0 0 0))
  = Ok (fold_left criteria_And
          [@imap.mkSearchCriteria example_runtime [] 0 0 [("From", "b")]
             [] [] [] [] 0 0 [] [];
           @imap.mkSearchCriteria example_runtime [] 0 0 [("From", "c")]
             [] [] [] [] 0 0 [] []]
          (@imap.mkSearchCriteria example_runtime [] 0 0 [("From", "a")]
             [] [] [] [] 0 0 [] []),
        Some (imap.mkSearchOptions true true)).
Proof.
  destruct (and_combinator
              (combinator "and" [from_condition "a"; from_condition "b"; from_condition "c"])
              (Some (paging 5 0 0 0)) (from_condition "a")
              [from_condition "b"; from_condition "c"] eq_refl eq_refl) as [Hok _].
  exact (Hok _ _ _ eq_refl eq_refl).
Defined.

(** The options of the loop of [buildOrCondition] are those it starts
    with, or those of the condition at index [0] compiled without an
    output configuration. *)
Lemma or_loop_options `{ImapLib} (oc : option OutputConfig)
    (conditions : list SearchConfig) :
  forall i acc options r o,
    0 <= i ->
    or_loop buildSingleCondition oc i conditions acc options = Ok (r, o) ->
    o = options
    \/ (i = 0 /\ oc <> None /\ exists first rest c1,
          conditions = first :: rest /\ BuildSearchCriteria first None = Ok (c1, o)).
Proof.
  induction conditions as [|a|a b l IH] using list_pair_ind;
    intros i acc options r o Hi Hl.
  - injection Hl as _ <-. by left.
  - simpl in Hl. rewrite buildSingleCondition_eq in Hl.
    destruct (BuildSearchCriteria a None) as [[c1 o1]|] eqn:Ha; [|discriminate].
    simpl in Hl. injection Hl as _ <-.
    destruct (bool_decide_reflect (i = 0)) as [Hi0|Hi0]; simpl; [|by left].
    destruct (bool_decide_reflect (oc <> None)) as [Hoc|Hoc]; [|by left].
    right. split; [done|]. split; [done|]. by exists a, [], c1.
  - simpl in Hl. rewrite !buildSingleCondition_eq in Hl.
    destruct (BuildSearchCriteria a None) as [[c1 o1]|] eqn:Ha; [|discriminate].
    simpl in Hl.
    destruct (BuildSearchCriteria b None) as [[c2 o2]|] eqn:Hb; [|discriminate].
    simpl in Hl. apply IH in Hl as [->|(Hi2 & _)]; [|lia|lia].
    destruct (bool_decide_reflect (i = 0)) as [Hi0|Hi0]; simpl; [|by left].
    destruct (bool_decide_reflect (oc <> None)) as [Hoc|Hoc]; [|by left].
    right. split; [done|]. split; [done|]. by exists a, (b :: l), c1.
Qed.

Lemma BuildSearchCriteria_or `{ImapLib} (config : SearchConfig)
    (oc : option OutputConfig) :
  Operator_ config = OperatorOr -> Conditions config <> [] ->
  BuildSearchCriteria config oc = buildOrCondition (Conditions config) oc.
Proof.
  intros Hop Hcs.
  rewrite BuildSearchCriteria_combinator by (by rewrite ?Hop).
  unfold buildComplexSearchCriteria_with.
  rewrite decide_False by (by rewrite Hop).
  by rewrite decide_True by done.
Qed.

Lemma BuildSearchCriteria_not `{ImapLib} (config : SearchConfig)
    (oc : option OutputConfig) (condition : SearchConfig) :
  Operator_ config = OperatorNot -> Conditions config = [condition] ->
  BuildSearchCriteria config oc
  = ('(subCriteria, options) ← BuildSearchCriteria condition oc;
     Ok (imap.of_Not [subCriteria], options)).
Proof.
  intros Hop Hcs.
  rewrite BuildSearchCriteria_combinator by (by rewrite ?Hop, ?Hcs).
  unfold buildComplexSearchCriteria_with.
  rewrite !decide_False by (by rewrite Hop).
  rewrite decide_True by done. rewrite Hcs. simpl.
  unfold buildNotCondition_with. by rewrite buildSingleCondition_eq.
Qed.

(** Compiled without an output configuration, a condition has no
    options or the empty options. *)
Lemma options_without_output `{ImapLib} (config : SearchConfig) :
  forall c o, BuildSearchCriteria config None = Ok (c, o) ->
              o = None \/ o = Some imap.no_options.
Proof.
  induction config as [config IH] using SearchConfig_nested_ind. intros c o Hb.
  destruct (decide (Operator_ config = "")) as [Hop|Hop].
  { rewrite BuildSearchCriteria_flat in Hb by done.
    apply buildFlatCriteria_steps in Hb as (_ & _ & _ & _ & _ & ->). by right. }
  destruct (Conditions config) as [|first rest] eqn:Hcs.
  { unfold BuildSearchCriteria, BuildSearchCriteria_with in Hb.
    rewrite decide_True in Hb by done. rewrite Hcs in Hb. done. }
  apply Forall_cons in IH as [IHf IHr].
  rewrite BuildSearchCriteria_combinator in Hb by (by rewrite ?Hcs).
  unfold buildComplexSearchCriteria_with in Hb. rewrite Hcs in Hb.
  destruct (decide (Operator_ config = OperatorAnd)).
  { simpl in Hb. rewrite buildSingleCondition_eq in Hb.
    destruct (BuildSearchCriteria first None) as [[c0 o0]|] eqn:Hf; [|discriminate].
    simpl in Hb.
    destruct (and_loop _ rest c0); [|discriminate].
    injection Hb as _ <-. by eapply IHf. }
  destruct (decide (Operator_ config = OperatorOr)).
  { destruct rest as [|second rest].
    - simpl in Hb. rewrite buildSingleCondition_eq in Hb. by eapply IHf.
    - unfold buildOrCondition_with in Hb.
      destruct (or_loop _ None 0 _ [] None) as [[r o']|] eqn:Hl; [|discriminate].
      simpl in Hb. injection Hb as _ <-.
      apply or_loop_options in Hl as [->|(_ & Hoc & _)]; [by left|done|done]. }
  destruct (decide (Operator_ config = OperatorNot)); [|discriminate].
  destruct (decide (1 < length (first :: rest))%nat); [discriminate|].
  unfold buildNotCondition_with in Hb. rewrite buildSingleCondition_eq in Hb.
  destruct (BuildSearchCriteria first None) as [[c0 o0]|] eqn:Hf; [|discriminate].
  simpl in Hb. injection Hb as _ <-. by eapply IHf.
Qed.

(** X6: an OR combinator with two or more conditions loses the
    pagination of the output configuration.  Its criteria have no UID
    restriction and no content but the [Or] pairs, and its options never
    ask the server for all numbers or for the count, whatever limit,
    offset and UID bounds are configured: without an output configuration
    there are no options at all, and with one they are the options that
    the first condition has without it. *)
Theorem or_drops_pagination `{ImapLib} (config : SearchConfig)
    (oc : option OutputConfig) (c : imap.SearchCriteria) (o : option imap.SearchOptions) :
  Operator_ config = OperatorOr ->
  (2 <= length (Conditions config))%nat ->
  BuildSearchCriteria config oc = Ok (c, o) ->
  imap.UID c = []
  /\ c = imap.of_Or (imap.Or c)
  /\ (o = None \/ o = Some imap.no_options)
  /\ (oc = None -> o = None).
Proof.
  intros Hop Hlen Hb.
  assert (Hne : Conditions config <> [])
    by (intros E; rewrite E in Hlen; simpl in Hlen; lia).
  rewrite BuildSearchCriteria_or in Hb by done.
  unfold buildOrCondition, buildOrCondition_with in Hb.
  destruct (Conditions config) as [|first [|second rest]]; [simpl in Hlen; lia..|].
  destruct (or_loop _ oc 0 _ [] None) as [[r o']|] eqn:Hl; [|discriminate].
  simpl in Hb. injection Hb as <- <-.
  repeat split.
  - apply or_loop_options in Hl as [->|(_ & _ & f & rs & c1 & Heq & Hf)]; [by left|..|done].
    by eapply options_without_output.
  - intros ->. by apply or_loop_options in Hl as [->|(_ & Hoc & _)].
Qed.

Lemma or_drops_pagination_witness :
  Some imap.no_options = None \/ Some imap.no_options = Some imap.no_options.
Proof.
  destruct (or_drops_pagination
              (combinator "or" [from_condition "a"; from_condition "b"])
              (Some (paging 5 0 3 9))
              (imap.of_Or
                 [(@imap.mkSearchCriteria example_runtime [] 0 0 [("From", "a")]
                     [] [] [] [] 0 0 [] [],
                   @imap.mkSearchCriteria example_runtime [] 0 0 [("From", "b")]
                     [] [] [] [] 0 0 [] [])])
              (Some imap.no_options) eq_refl ltac:(simpl; lia) eq_refl)
    as (_ & _ & Ho & _).
  exact Ho.
Defined.

(** ** Validation and compilation *)

Lemma SearchConfig_Validate_unfold `{ImapLib} (s : SearchConfig) :
  SearchConfig_Validate s = SearchConfig_Validate_with SearchConfig_Validate s.
Proof. by destruct s. Qed.

Lemma is_Ok_check {A : Type} (prefix : string) (r : result A) :
  is_Ok (check prefix r) <-> is_Ok r.
Proof. by destruct r. Qed.

Lemma validate_conditions_ok (validate : SearchConfig -> result unit)
    (conditions : list SearchConfig) :
  forall i, is_Ok (validate_conditions validate i conditions)
            <-> Forall (fun s => is_Ok (validate s)) conditions.
Proof.
  induction conditions as [|a l IH]; intros i; simpl.
  - split; [constructor|done].
  - rewrite Forall_cons. destruct (validate a); simpl; [|by split; [|intros []]].
    rewrite IH. by split; [|intros []].
Qed.

(** The date and size fields of a configuration that passes the checks
    of its criteria are well formed. *)
Lemma validate_criteria_ok `{ImapLib} (s : SearchConfig) :
  is_Ok (validate_criteria s) ->
  (Since s <> "" -> is_Ok (parseDate (Since s)))
  /\ (Before s <> "" -> is_Ok (parseDate (Before s)))
  /\ (On s <> "" -> is_Ok (parseDate (On s)))
  /\ (forall sz, Size s = Some sz ->
        (LargerThan sz <> "" -> is_Ok (parseSize (LargerThan sz)))
        /\ (SmallerThan sz <> "" -> is_Ok (parseSize (SmallerThan sz)))).
Proof.
  unfold validate_criteria. intros Hv.
  destruct (decide (Since s = "")) as [Hs|Hs];
    [|destruct (parseDate (Since s)) as [d1|] eqn:Ps; [|done]]; simpl in Hv;
    (destruct (decide (Before s = "")) as [Hb|Hb];
     [|destruct (parseDate (Before s)) as [d2|] eqn:Pb; [|done]]); simpl in Hv;
    (destruct (decide (On s = "")) as [Ho|Ho];
     [|destruct (parseDate (On s)) as [d3|] eqn:Po; [|done]]); simpl in Hv;
    (destruct (match Header s with Some _ => _ | None => _ end); [|done]); simpl in Hv;
    (destruct (match Flags s with Some _ => _ | None => _ end); [|done]); simpl in Hv;
    (destruct (Size s) as [sz|];
     [|repeat split; intros; done]);
    (destruct (decide (LargerThan sz = "")) as [Hl|Hl];
     [|destruct (parseSize (LargerThan sz)) as [l|] eqn:Pl; [|done]]); simpl in Hv;
    (destruct (decide (SmallerThan sz = "")) as [Hm|Hm];
     [|destruct (parseSize (SmallerThan sz)) as [m|] eqn:Pm; [|done]]);
    repeat split; intros;
    repeat match goal with
           | E : Some _ = Some _ |- _ => injection E as <-
           end;
    rewrite ?Pl, ?Pm; done.
Qed.

(** The operator part of [SearchConfig.Validate]. *)
Lemma validate_operator_ok `{ImapLib} (s : SearchConfig) :
  is_Ok (SearchConfig_Validate s) ->
  is_Ok (validate_criteria s)
  /\ (Operator_ s <> "" ->
        (Operator_ s = OperatorAnd \/ Operator_ s = OperatorOr \/ Operator_ s = OperatorNot)
        /\ Conditions s <> []
        /\ (Operator_ s = OperatorNot -> length (Conditions s) = 1%nat)
        /\ Forall (fun s' => is_Ok (SearchConfig_Validate s')) (Conditions s)).
Proof.
  rewrite SearchConfig_Validate_unfold. unfold SearchConfig_Validate_with.
  destruct (validate_criteria s) as [[]|]; [|done]. cbn [mbind result_bind].
  intros Hv. split; [done|]. intros Hop. rewrite decide_True in Hv by done.
  destruct (decide (Operator_ s = OperatorAnd)) as [Ha|Ha];
    destruct (decide (Operator_ s = OperatorOr)) as [Hor|Hor];
    destruct (decide (Operator_ s = OperatorNot)) as [Hn|Hn];
    try (rewrite (bool_decide_eq_true_2 (Operator_ s <> OperatorAnd)) in Hv by done);
    try (rewrite (bool_decide_eq_false_2 (Operator_ s <> OperatorAnd)) in Hv by tauto);
    try (rewrite (bool_decide_eq_true_2 (Operator_ s <> OperatorOr)) in Hv by done);
    try (rewrite (bool_decide_eq_false_2 (Operator_ s <> OperatorOr)) in Hv by tauto);
    try (rewrite (bool_decide_eq_true_2 (Operator_ s <> OperatorNot)) in Hv by done);
    try (rewrite (bool_decide_eq_false_2 (Operator_ s <> OperatorNot)) in Hv by tauto);
    cbn [andb] in Hv; try done;
    (destruct (decide (length (Conditions s) = 0%nat)) as [Hz0|Hz0]; [done|]);
    try (rewrite (bool_decide_eq_true_2 (Operator_ s = OperatorNot)) in Hv by done);
    try (rewrite (bool_decide_eq_false_2 (Operator_ s = OperatorNot)) in Hv by done);
    cbn [andb] in Hv;
    try (destruct (bool_decide_reflect (1 < length (Conditions s))%nat) as [Hgt|Hgt];
         [done|]);
    apply validate_conditions_ok in Hv;
    (split; [tauto|]);
    (split; [by destruct (Conditions s)|]);
    (split; [intros; try done; lia|done]).
Qed.

(** Validation implies compilation, by induction on the condition tree. *)
Lemma valid_search_compiles `{ImapLib} (s : SearchConfig) :
  is_Ok (SearchConfig_Validate s) ->
  forall oc, is_Ok (BuildSearchCriteria s oc).
Proof.
  induction s as [s IH] using SearchConfig_nested_ind. intros Hv oc.
  apply validate_operator_ok in Hv as [Hc Hop].
  destruct (decide (Operator_ s = "")) as [Hflat|Hcomb].
  { rewrite BuildSearchCriteria_flat by done.
    apply buildFlatCriteria_ok_iff. by apply validate_criteria_ok. }
  destruct (Hop Hcomb) as (Hcases & Hne & Hnot & Hall).
  assert (Hchildren : Forall (fun s' => forall oc', is_Ok (BuildSearchCriteria s' oc'))
                        (Conditions s)).
  { clear -IH Hall. induction IH as [|x l Hx _ IHl]; [constructor|].
    apply Forall_cons in Hall as [Hvx Hvl]. constructor; [by apply Hx | by apply IHl]. }
  destruct (Conditions s) as [|first rest] eqn:Hcs; [done|].
  apply Forall_cons in Hchildren as [Hfirst Hrest].
  destruct Hcases as [Hand|[Hor|Hn]].
  - rewrite (BuildSearchCriteria_and _ _ _ _ Hand Hcs).
    specialize (Hfirst oc).
    destruct (BuildSearchCriteria first oc) as [[c0 o0]|]; [|done]. simpl.
    destruct (compile_children_ok rest) as [cs Hcomp].
    { eapply Forall_impl; [exact Hrest|]. intros x Hx. apply Hx. }
    by rewrite (and_loop_ok _ _ _ Hcomp).
  - rewrite BuildSearchCriteria_or by (by rewrite ?Hcs). rewrite Hcs.
    destruct rest as [|second rest].
    + unfold buildOrCondition, buildOrCondition_with.
      rewrite buildSingleCondition_eq. apply Hfirst.
    + destruct (compile_children_ok (first :: second :: rest)) as [cs Hcomp].
      { constructor; [apply Hfirst|].
        eapply Forall_impl; [exact Hrest|]. intros x Hx. apply Hx. }
      unfold buildOrCondition, buildOrCondition_with.
      destruct (or_loop_ok oc _ _ Hcomp 0 [] None) as [options' ->]. done.
  - specialize (Hnot Hn). destruct rest; [|done].
    rewrite (BuildSearchCriteria_not _ _ _ Hn Hcs).
    specialize (Hfirst oc).
    by destruct (BuildSearchCriteria first oc) as [[c0 o0]|].
Qed.

(** X7: a search configuration that passes [Validate] compiles, with
    any output configuration or none.  Validation is the stricter of the
    two: it also rejects invalid flag names and a custom header without
    a name, which the compiler accepts. *)
Theorem validated_config_compiles `{ImapLib} (s : SearchConfig) :
  is_Ok (SearchConfig_Validate s) ->
  forall oc, is_Ok (BuildSearchCriteria s oc).
Proof.
  intros Hv oc. destruct (BuildSearchCriteria s oc) eqn:Hb; [done|].
  pose proof (valid_search_compiles s Hv oc) as Hok. by rewrite Hb in Hok.
Qed.

Lemma validated_config_compiles_witness :
  is_Ok (BuildSearchCriteria
           (combinator "or"
              [from_condition "a"; combinator "not" [from_condition "b"];
               from_condition "c"])
           (Some (paging 5 0 0 0))).
Proof.
  apply (validated_config_compiles
           (combinator "or"
              [from_condition "a"; combinator "not" [from_condition "b"];
               from_condition "c"])).
  by vm_compute.
Defined.
(** ** The window without a limit, and with a negative offset *)

Lemma Int64_wrap_above (z : Z) :
  Int64.max_int < z <= Int64.max_int + 2 ^ 63 -> Int64.wrap z = z - 2 ^ 64.
Proof.
  unfold Int64.max_int, Int64.wrap. intros Hz.
  replace (z + 2 ^ 63) with (z - 2 ^ 63 + 1 * 2 ^ 64) by lia.
  rewrite Z.mod_add by lia. rewrite Z.mod_small by lia. lia.
Qed.

Lemma windowOf_nonempty `{rt : GoRuntime} {fd : @FetchDeps rt}
    (output : OutputConfig) (client : Client) (l : list Z) (count : Z) :
  l <> [] ->
  windowOf output client (imapclient.mkSearchData l count) = selectWindow output l.
Proof.
  intros Hne. unfold windowOf. cbn [imapclient.AllSeqNums imapclient.Count].
  assert (0 < len l) as Hpos by (unfold len; destruct l; [done | simpl; lia]).
  destruct (Z.eqb_spec (len l) 0) as [?|_]; [lia|].
  destruct (Z.ltb_spec 0 count).
  - destruct (Z.eqb_spec count 0); [lia|]. reflexivity.
  - destruct (Z.eqb_spec (len l) 0); [lia|]. reflexivity.
Qed.

Lemma selectWindow_unbounded (output : OutputConfig) (l : list Z) :
  Z.of_nat (length l) <= Int64.max_int ->
  Limit output <= 0 -> 0 <= Offset output < Z.of_nat (length l) ->
  selectWindow output l
  = Ok (Some (nums (rev (take (Z.to_nat (Z.of_nat (length l) - Offset output)) l)))).
Proof.
  unfold Int64.max_int. intros HL Hlim Hoff.
  unfold selectWindow, len, Int64.sub, Int64.add.
  set (L := Z.of_nat (length l)) in *.
  destruct (Z.ltb_spec L (Offset output)) as [? | _]; [lia|].
  destruct (Z.ltb_spec 0 (Limit output)) as [? | _]; [lia|]. cbn [andb].
  rewrite (Int64_wrap_small (L - 1)) by (unfold Int64.in_range, Int64.min_int, Int64.max_int; lia).
  rewrite (Int64_wrap_small (L - 1 - Offset output))
    by (unfold Int64.in_range, Int64.min_int, Int64.max_int; lia).
  set (startIdx := L - 1 - Offset output).
  rewrite (Int64_wrap_small (startIdx - L))
    by (unfold Int64.in_range, Int64.min_int, Int64.max_int; lia).
  rewrite (Int64_wrap_small (startIdx - L + 1))
    by (unfold Int64.in_range, Int64.min_int, Int64.max_int; lia).
  set (endIdx := if startIdx - L + 1 <? 0 then 0 else startIdx - L + 1).
  assert (Hend : endIdx = 0)
    by (subst endIdx; destruct (Z.ltb_spec (startIdx - L + 1) 0); lia).
  rewrite Hend.
  destruct (Z.leb_spec 0 startIdx); [|lia].
  destruct (Z.ltb_spec startIdx L); [|lia].
  cbn [andb].
  rewrite add_down_spec by lia. cbn [mbind result_bind app].
  replace (startIdx + 1 - Z.of_nat (Z.to_nat (startIdx - 0 + 1))) with 0 by lia.
  unfold slice. cbn [Z.to_nat drop].
  replace (startIdx - 0 + 1) with (L - Offset output) by lia.
  reflexivity.
Qed.

Lemma selectWindow_negative_offset (output : OutputConfig) (l : list Z) :
  Z.of_nat (length l) <= Int64.max_int ->
  Int64.in_range (Offset output) -> Offset output < 0 ->
  l <> [] ->
  selectWindow output l = Ok None.
Proof.
  unfold Int64.in_range, Int64.min_int, Int64.max_int. intros HL Hr Hoff Hne.
  unfold selectWindow, len, Int64.sub.
  set (L := Z.of_nat (length l)) in *.
  assert (0 < L) as Hpos by (subst L; destruct l; [done | simpl; lia]).
  destruct (Z.ltb_spec L (Offset output)) as [? | _]; [lia|].
  rewrite (Int64_wrap_small (L - 1)) by (unfold Int64.in_range, Int64.min_int, Int64.max_int; lia).
  destruct (decide (L - 1 - Offset output <= 2 ^ 63 - 1)) as [Hsmall|Hbig].
  - rewrite (Int64_wrap_small (L - 1 - Offset output))
      by (unfold Int64.in_range, Int64.min_int, Int64.max_int; lia).
    destruct (Z.ltb_spec (L - 1 - Offset output) L); [lia|].
    by rewrite andb_false_r.
  - rewrite (Int64_wrap_above (L - 1 - Offset output)) by (unfold Int64.max_int; lia).
    destruct (Z.leb_spec 0 (L - 1 - Offset output - 2 ^ 64)); [lia|]. reflexivity.
Qed.

(** X8: a limit of zero (or less) is no limit.  For a non-empty search
    result of [L] numbers and an offset below [L], the window is every
    number but the [offset] last ones, newest first; with offset [0] it
    is the whole result reversed. *)
Theorem window_without_limit `{rt : GoRuntime} {fd : @FetchDeps rt}
    (output : OutputConfig) (client : Client) (l : list Z) (count : Z) :
  l <> [] -> Z.of_nat (length l) <= Int64.max_int ->
  Limit output <= 0 -> 0 <= Offset output < Z.of_nat (length l) ->
  windowOf output client (imapclient.mkSearchData l count)
  = Ok (Some (nums (rev (take (Z.to_nat (Z.of_nat (length l) - Offset output)) l))))
  /\ (Offset output = 0 ->
      windowOf output client (imapclient.mkSearchData l count) = Ok (Some (nums (rev l)))).
Proof.
  intros Hne HL Hlim Hoff.
  rewrite windowOf_nonempty by done. rewrite selectWindow_unbounded by done.
  split; [done|]. intros ->. rewrite Z.sub_0_r, Nat2Z.id. by rewrite firstn_all.
Qed.

Lemma window_without_limit_witness :
  windowOf (paging 0 2 0 0) (count_only_client 6)
    (imapclient.mkSearchData [3; 5; 8; 9; 12; 14] 6)
  = Ok (Some (nums [9; 8; 5; 3])).
Proof.
  destruct (window_without_limit (paging 0 2 0 0) (count_only_client 6)
              [3; 5; 8; 9; 12; 14] 6
              ltac:(done) ltac:(by vm_compute) ltac:(by vm_compute)
              ltac:(by vm_compute)) as [Hw _].
  exact Hw.
Defined.

(** X9: a negative offset selects nothing.  [OutputConfig.Validate] does
    not look at the offset, so a negative one is accepted; step 4 then
    computes a start index outside the list and [FetchMessages] returns
    no message and no error, without fetching anything, whatever the
    limit is. *)
Theorem negative_offset_selects_nothing `{rt : GoRuntime} {il : @ImapLib rt}
    {fd : @FetchDeps rt} (rule : Rule) (client : Client) (l : list Z) (count : Z)
    (criteria : imap.SearchCriteria) (options : option imap.SearchOptions) :
  l <> [] -> Z.of_nat (length l) <= Int64.max_int ->
  Int64.in_range (Offset (Output rule)) -> Offset (Output rule) < 0 ->
  BuildSearchCriteria (Search rule) (Some (Output rule)) = Ok (criteria, options) ->
  client_Search client criteria options = Ok (imapclient.mkSearchData l count) ->
  FetchMessages rule client = Ok []
  /\ forall offset,
       OutputConfig_Validate (Output rule)
       = OutputConfig_Validate
           (mkOutputConfig (Format (Output rule)) (Limit (Output rule)) offset
              (AfterUID (Output rule)) (BeforeUID (Output rule)) (Fields (Output rule))).
Proof.
  intros Hne HL Hr Hoff Hb Hs. split; [|done].
  unfold FetchMessages. rewrite Hb. cbn [wrapErr mbind result_bind].
  rewrite Hs. cbn [wrapErr mbind result_bind].
  rewrite windowOf_nonempty by done.
  by rewrite selectWindow_negative_offset.
Qed.

Lemma negative_offset_selects_nothing_witness :
  FetchMessages (example_rule (from_condition "a") (paging 5 (-1) 0 0)) two_message_client
  = Ok [].
Proof.
  destruct (negative_offset_selects_nothing
              (example_rule (from_condition "a") (paging 5 (-1) 0 0)) two_message_client
              [7; 8] 2
              (@imap.mkSearchCriteria example_runtime [] 0 0 [("From", "a")]
                 [] [] [] [] 0 0 [] [])
              (Some (imap.mkSearchOptions true true))
              ltac:(done) ltac:(by vm_compute) ltac:(by vm_compute) ltac:(by vm_compute)
              eq_refl eq_refl) as [Hf _].
  exact Hf.
Defined.
(** ** Valid flags *)

Lemma validFlagNames_lookup (s : string) :
  default false (validFlagNames !! s)
  = bool_decide (s ∈ ["seen"; "answered"; "flagged"; "deleted"; "draft"; "recent";
                      "important"]).
Proof.
  unfold validFlagNames.
  destruct (decide (s = "seen")) as [->|]; [by vm_compute|].
  destruct (decide (s = "answered")) as [->|]; [by vm_compute|].
  destruct (decide (s = "flagged")) as [->|]; [by vm_compute|].
  destruct (decide (s = "deleted")) as [->|]; [by vm_compute|].
  destruct (decide (s = "draft")) as [->|]; [by vm_compute|].
  destruct (decide (s = "recent")) as [->|]; [by vm_compute|].
  destruct (decide (s = "important")) as [->|]; [by vm_compute|].
  rewrite !lookup_insert_ne by done.
  rewrite lookup_empty. symmetry. apply bool_decide_eq_false.
  intros Hin. repeat (apply elem_of_cons in Hin as [Hin|Hin]; [done|]).
  by apply elem_of_nil in Hin.
Qed.

(** The language of [[...]+]: the non-empty strings of characters of the
    class. *)
Lemma matches_plus_class (p : ascii -> bool) (s : string) :
  matches (Plus (Class p)) s <-> s <> "" /\ all_chars p s = true.
Proof.
  split.
  - intros Hm. remember (Plus (Class p)) as r eqn:Hr.
    induction Hm as [| | r s Hs _ | r s1 s2 Hs1 _ Hs2 IH2 | |]; try discriminate.
    + injection Hr as ->. inversion Hs; subst. simpl.
      split; [discriminate | by rewrite andb_true_r].
    + injection Hr as ->. inversion Hs1; subst.
      destruct (IH2 eq_refl) as [_ Hd]. simpl.
      split; [discriminate|]. by apply andb_true_iff.
  - intros [Hne Hd]. induction s as [|c s IH]; [done|].
    simpl in Hd. apply andb_true_iff in Hd as [Hc Hd].
    destruct s as [|c' s'].
    + apply m_plus_one. by apply m_class.
    + change (String c (String c' s')) with (String c "" +:+ String c' s').
      apply m_plus_more; [by apply m_class|]. by apply IH.
Qed.

Lemma MatchString_keyword_spec (s : string) :
  MatchString_keyword s = true <-> matches keyword_re s.
Proof.
  unfold keyword_re. rewrite matches_plus_class.
  destruct s; simpl; [by split; [|intros []] | ].
  split; [by intros ->|by intros []].
Qed.

(** X10: the flags that validation accepts.  [isValidFlag] holds exactly
    for a flag whose lower-case form is one of the seven standard names,
    or that starts with a backslash or a dollar sign, or that matches
    [^[a-zA-Z0-9_.-]+$], that is, a non-empty string of letters, digits,
    underscores, dots and hyphens.  Every flag that [convertToIMAPFlag]
    rewrites is valid: the compiler changes no flag that validation
    would reject. *)
Theorem isValidFlag_spec `{GoRuntime} (flag : string) :
  (isValidFlag flag = true
   <-> strings_ToLower flag
         ∈ ["seen"; "answered"; "flagged"; "deleted"; "draft"; "recent"; "important"]
       \/ HasPrefix flag backslash = true
       \/ HasPrefix flag "$" = true
       \/ matches keyword_re flag)
  /\ (matches keyword_re flag <-> flag <> "" /\ all_chars is_keyword_char flag = true)
  /\ (convertToIMAPFlag flag <> flag -> isValidFlag flag = true).
Proof.
  assert (Hspec : isValidFlag flag = true
   <-> strings_ToLower flag
         ∈ ["seen"; "answered"; "flagged"; "deleted"; "draft"; "recent"; "important"]
       \/ HasPrefix flag backslash = true
       \/ HasPrefix flag "$" = true
       \/ matches keyword_re flag).
  { unfold isValidFlag. cbv zeta. rewrite validFlagNames_lookup.
    destruct (bool_decide_reflect
                (strings_ToLower flag
                   ∈ ["seen"; "answered"; "flagged"; "deleted"; "draft"; "recent";
                      "important"])) as [Hin|Hin]; [tauto|].
    destruct (HasPrefix flag backslash); [tauto|].
    destruct (HasPrefix flag "$"); cbn [orb]; [tauto|].
    rewrite MatchString_keyword_spec.
    split; [tauto|]. intros [?|[?|[?|?]]]; done. }
  split; [exact Hspec|]. split; [apply matches_plus_class|].
  intros Hconv. apply Hspec. unfold convertToIMAPFlag in Hconv.
  destruct (HasPrefix flag backslash); [tauto|].
  destruct (HasPrefix flag "$"); cbn [orb] in Hconv; [tauto|].
  left. cbv zeta in Hconv. rewrite standardFlags_lookup in Hconv.
  repeat match type of Hconv with
         | context [decide (?a = ?b)] =>
             destruct (decide (a = b)) as [Heq|?]; [rewrite Heq; by repeat constructor|]
         end.
  done.
Qed.

(** ** Combinator nodes *)

(** X11: a node with an operator is compiled from its operator and its
    conditions alone: dates, headers, flags and sizes written on the node
    itself are ignored.  The operator is compared as it is written:
    anything but ["and"], ["or"] and ["not"] is rejected as unsupported,
    with or without conditions. *)
Theorem combinator_node `{ImapLib} (config : SearchConfig) (oc : option OutputConfig) :
  Operator_ config <> "" ->
  BuildSearchCriteria config oc
  = BuildSearchCriteria (combinator (Operator_ config) (Conditions config)) oc
  /\ (Operator_ config ∉ [OperatorAnd; OperatorOr; OperatorNot] ->
      BuildSearchCriteria config oc = Err ("unsupported operator: " +:+ Operator_ config))
  /\ (Conditions config = [] -> Operator_ config = OperatorAnd ->
      BuildSearchCriteria config oc = Err "empty conditions list for AND operator")
  /\ (Conditions config = [] -> Operator_ config = OperatorOr ->
      BuildSearchCriteria config oc = Err "empty conditions list for OR operator").
Proof.
  intros Hop.
  assert (Hnode : BuildSearchCriteria config oc
     = if decide (length (Conditions config) = 0%nat)
       then Err (empty_conditions_error (Operator_ config))
       else buildComplexSearchCriteria_with buildSingleCondition config oc).
  { unfold BuildSearchCriteria, BuildSearchCriteria_with.
    rewrite decide_True by done. case_decide; [done|].
    apply buildComplexSearchCriteria_unfold. }
  split; [|split; [|split]].
  - rewrite Hnode. unfold BuildSearchCriteria, BuildSearchCriteria_with.
    cbn [combinator Operator_ Conditions].
    destruct (decide (Operator_ config <> "")); [|done].
    case_decide; [done|]. rewrite buildComplexSearchCriteria_unfold.
    unfold buildComplexSearchCriteria_with. cbn [combinator Operator_ Conditions].
    reflexivity.
  - intros Hnot. rewrite Hnode.
    assert (Operator_ config <> OperatorAnd /\ Operator_ config <> OperatorOr
            /\ Operator_ config <> OperatorNot) as (Ha & Ho & Hn).
    { repeat split; intros Heq; apply Hnot; rewrite Heq; by repeat constructor. }
    case_decide.
    + unfold empty_conditions_error. by rewrite !decide_False by done.
    + unfold buildComplexSearchCriteria_with. by rewrite !decide_False by done.
  - intros Hc Ha. rewrite Hnode, Hc, Ha. reflexivity.
  - intros Hc Ho. rewrite Hnode, Hc, Ho. reflexivity.
Qed.

Lemma combinator_node_witness :
  BuildSearchCriteria (combinator "AND" [from_condition "a"]) None
  = Err "unsupported operator: AND".
Proof.
  destruct (combinator_node (combinator "AND" [from_condition "a"]) None
              ltac:(done)) as (_ & Hun & _).
  apply Hun. cbn [combinator Operator_]. unfold OperatorAnd, OperatorOr, OperatorNot.
  intros Hin. repeat (apply elem_of_cons in Hin as [Hin|Hin]; [done|]).
  by apply elem_of_nil in Hin.
Defined.

(** ** The passes of [FetchMessages] *)

Lemma immediate_deferred_length `{rt : GoRuntime} {fd : @FetchDeps rt}
    (output : OutputConfig) (messages : list Buffer) :
  Forall (fun msg => is_Ok (determineRequiredBodySections
                              (imapclient.buf_BodyStructure _ _ msg) output)) messages ->
  forall msgIdx,
    (length (immediate output messages) + length (deferred output messages msgIdx))%nat
    = length messages.
Proof.
  induction 1 as [|msg messages Hmsg _ IH]; intros msgIdx; [reflexivity|].
  cbn [immediate deferred].
  destruct (determineRequiredBodySections _ output) as [[|m md]|]; [| |done];
    cbn [length]; rewrite <- (IH (msgIdx + 1)); lia.
Qed.

(** The first pass converts the messages without requirements and sets
    the others aside, each list in the order of the structure fetch. *)
Lemma firstPass_spec `{rt : GoRuntime} {fd : @FetchDeps rt}
    (output : OutputConfig) (totalFound : Z) (messages : list Buffer) :
  Forall (fun msg => is_Ok (determineRequiredBodySections
                              (imapclient.buf_BodyStructure _ _ msg) output)) messages ->
  (forall msg parts, is_Ok (NewEmailMessageFromIMAP msg parts)) ->
  forall msgIdx result_ messagesToFetch,
  exists emails,
    firstPass output totalFound messages msgIdx result_ messagesToFetch
    = Ok (result_ ++ emails, messagesToFetch ++ deferred output messages msgIdx)
    /\ Forall2 (converted totalFound) (immediate output messages) emails.
Proof.
  intros Hdet Hnew.
  induction Hdet as [|msg messages Hmsg _ IH]; intros msgIdx result_ messagesToFetch.
  - exists []. cbn [firstPass deferred immediate]. rewrite !app_nil_r.
    split; [done | constructor].
  - cbn [firstPass deferred immediate].
    destruct (determineRequiredBodySections _ output) as [[|m md]|]; [| |done];
      cbn [wrapErr mbind result_bind].
    + assert ((0 <? len (@nil MimePartMetadata)) = false) as -> by done.
      pose proof (Hnew msg []) as Hok.
      destruct (NewEmailMessageFromIMAP msg []) as [e|] eqn:He; [|done].
      cbn [wrapErr mbind result_bind].
      destruct (IH (msgIdx + 1) (result_ ++ [set_TotalCount e (UInt32.wrap totalFound)])
                  messagesToFetch) as (emails & -> & Hconv).
      exists (set_TotalCount e (UInt32.wrap totalFound) :: emails).
      rewrite <- app_assoc. split; [done|].
      constructor; [|done]. by exists [], e.
    + assert ((0 <? len (m :: md)) = true) as ->
        by (unfold len; cbn [length]; apply Z.ltb_lt; lia).
      destruct (IH (msgIdx + 1) result_
                  (messagesToFetch ++ [mkMessageFetchInfo msg (m :: md) msgIdx]))
        as (emails & -> & Hconv).
      exists emails. rewrite <- app_assoc. done.
Qed.

(** The third pass converts every message of the batch, in order. *)
Lemma processFetched_shape `{rt : GoRuntime} {fd : @FetchDeps rt} (totalFound : Z)
    (messageContents : gmap Z (gmap string string)) :
  (forall msg parts, is_Ok (NewEmailMessageFromIMAP msg parts)) ->
  forall messagesToFetch result_,
  exists emails,
    processFetched totalFound messageContents messagesToFetch result_
    = Ok (result_ ++ emails)
    /\ Forall2 (fun msgInfo => converted totalFound (Message msgInfo))
               messagesToFetch emails.
Proof.
  intros Hnew messagesToFetch.
  induction messagesToFetch as [|msgInfo messagesToFetch IH]; intros result_.
  - exists []. rewrite app_nil_r. split; [done | constructor].
  - cbn [processFetched].
    destruct (messageContents !! _) as [msgContent|].
    + pose proof (Hnew (Message msgInfo)
                    (collectParts msgContent (MimePartMetadata_ msgInfo) [])) as Hok.
      destruct (NewEmailMessageFromIMAP (Message msgInfo) _) as [e|] eqn:He; [|done].
      cbn [wrapErr mbind result_bind].
      destruct (IH (result_ ++ [set_TotalCount e (UInt32.wrap totalFound)]))
        as (emails & -> & Hconv).
      exists (set_TotalCount e (UInt32.wrap totalFound) :: emails).
      rewrite <- app_assoc. split; [done|]. constructor; [|done].
      by eexists _, e.
    + pose proof (Hnew (Message msgInfo) []) as Hok.
      destruct (NewEmailMessageFromIMAP (Message msgInfo) []) as [e|] eqn:He; [|done].
      cbn [wrapErr mbind result_bind].
      destruct (IH (result_ ++ [set_TotalCount e (UInt32.wrap totalFound)]))
        as (emails & -> & Hconv).
      exists (set_TotalCount e (UInt32.wrap totalFound) :: emails).
      rewrite <- app_assoc. split; [done|]. constructor; [|done].
      by exists [], e.
Qed.

(** X12: the order of the result.  When the structure fetch returns
    [messages] and every step succeeds, [FetchMessages] returns first the
    messages that need no MIME part, in the order of the structure fetch,
    and after them the messages that need parts, in that order too: a
    message with parts comes after every message without, wherever it
    stood in the window.  Every message appears once, converted from its
    buffer and stamped with the total count. *)
Theorem fetch_result_order `{rt : GoRuntime} {fd : @FetchDeps rt}
    (output : OutputConfig) (client : Client) (totalFound : Z) (seqSet : imap.NumSet)
    (options : imapclient.FetchOptions) (messages : list Buffer) :
  let batch := deferred output messages 0 in
  let batchFetchCmd :=
    client_Fetch client (batchSeqSet batch)
      (imapclient.set_BodySection (imapclient.set_BodyStructure options true)
         (allFetchSections batch)) in
  BuildFetchOptions output = Ok options ->
  imapclient.Collect _ _
    (client_Fetch client seqSet (imapclient.set_BodySection options [])) = Ok messages ->
  Forall (fun msg => is_Ok (determineRequiredBodySections
                              (imapclient.buf_BodyStructure _ _ msg) output)) messages ->
  (forall msg parts, is_Ok (NewEmailMessageFromIMAP msg parts)) ->
  (batch <> [] ->
   is_Ok (read_stream (imapclient.stream _ _ batchFetchCmd) ∅)
   /\ imapclient.Close _ _ batchFetchCmd = None) ->
  exists early late,
    fetchWindow output client totalFound seqSet = Ok (early ++ late)
    /\ Forall2 (converted totalFound) (immediate output messages) early
    /\ Forall2 (fun msgInfo => converted totalFound (Message msgInfo)) batch late
    /\ length (early ++ late) = length messages.
Proof.
  intros batch batchFetchCmd Hopts Hcollect Hdet Hnew Hbatch.
  unfold fetchWindow. rewrite Hopts. cbn [wrapErr mbind result_bind].
  rewrite Hcollect. cbn [wrapErr mbind result_bind].
  destruct (firstPass_spec output totalFound messages Hdet Hnew 0 [] [])
    as (early & -> & Hearly).
  cbn [mbind result_bind app]. fold batch.
  assert (Hlen : forall late : list EmailMessage,
             length late = length batch ->
             length (early ++ late) = length messages).
  { intros late Hl. rewrite length_app, Hl, <- (Forall2_length _ _ _ Hearly).
    apply immediate_deferred_length. exact Hdet. }
  destruct (Z.eqb_spec (len batch) 0) as [Hnil|Hsome].
  - assert (batch = []) as Hb by (destruct batch; [done | unfold len in Hnil; simpl in Hnil; lia]).
    exists early, []. rewrite app_nil_r, Hb.
    repeat split; [done | constructor |].
    rewrite <- (app_nil_r early). apply Hlen. by rewrite Hb.
  - assert (batch <> []) as Hne by (intros Hb; rewrite Hb in Hsome; done).
    destruct (Hbatch Hne) as [Hread Hclose].
    unfold fetchContent. rewrite Hopts. cbn [wrapErr mbind result_bind].
    fold batchFetchCmd.
    destruct (read_stream (imapclient.stream _ _ batchFetchCmd) ∅) as [contentMap|];
      [|done].
    cbn [mbind result_bind]. rewrite Hclose.
    destruct (processFetched_shape totalFound (groupContents contentMap) Hnew batch early)
      as (late & -> & Hlate).
    exists early, late. repeat split; [done | done |].
    apply Hlen. symmetry. by eapply Forall2_length.
Qed.

Lemma fetch_result_order_witness :
  exists early late,
    fetchWindow (paging 0 0 0 0) mixed_client 3 (nums [9; 8; 7]) = Ok (early ++ late)
    /\ length early = 2%nat /\ length late = 1%nat.
Proof.
  destruct (fetch_result_order (paging 0 0 0 0) mixed_client 3 (nums [9; 8; 7])
              (imapclient.mkFetchOptions true true false false true true [])
              [imapclient.mkFetchMessageBuffer _ _ 9 109 [] "c";
               imapclient.mkFetchMessageBuffer _ _ 8 108 [text_part [1]] "b";
               imapclient.mkFetchMessageBuffer _ _ 7 107 [] "a"]
              eq_refl eq_refl
              ltac:(repeat constructor)
              ltac:(intros msg parts; exact I)
              ltac:(intros _; split; [exact I | reflexivity]))
    as (early & late & Hf & Hearly & Hlate & _).
  exists early, late. split; [exact Hf|].
  split.
  - by rewrite <- (Forall2_length _ _ _ Hearly).
  - by rewrite <- (Forall2_length _ _ _ Hlate).
Defined.

(** ** Failures of [FetchMessages] *)

Lemma read_items_readable (seqNum : Z) (items : list imapclient.FetchItemData) :
  Forall (fun item => unreadable item = false) items ->
  forall contentMap, is_Ok (read_items seqNum items contentMap).
Proof.
  induction 1 as [|item items Hitem _ IH]; intros contentMap; [done|].
  cbn [read_items]. destruct item as [section [[content|e]|]|]; [|done| |]; apply IH.
Qed.

Lemma read_items_unreadable (seqNum : Z) (before after : list imapclient.FetchItemData)
    (section : imapclient.FetchItemBodySection) (e : string) :
  Forall (fun item => unreadable item = false) before ->
  forall contentMap,
    read_items seqNum
      (before ++ imapclient.FetchItemDataBodySection section (Some (Err e)) :: after)
      contentMap
    = Err ("failed to read body section: " +:+ e).
Proof.
  induction 1 as [|item items Hitem _ IH]; intros contentMap; [done|].
  cbn [read_items app]. destruct item as [sec [[content|e']|]|]; [|done| |]; apply IH.
Qed.

Lemma read_stream_unreadable (mbefore mafter : list imapclient.FetchMessageData)
    (n : Z) (before after : list imapclient.FetchItemData)
    (section : imapclient.FetchItemBodySection) (e : string) :
  Forall (fun msg => Forall (fun item => unreadable item = false)
                       (imapclient.data_items msg)) mbefore ->
  Forall (fun item => unreadable item = false) before ->
  forall contentMap,
    read_stream
      (mbefore
       ++ imapclient.mkFetchMessageData n
            (before ++ imapclient.FetchItemDataBodySection section (Some (Err e)) :: after)
       :: mafter)
      contentMap
    = Err ("failed to read body section: " +:+ e).
Proof.
  intros Hm Hb. induction Hm as [|msg msgs Hmsg _ IH]; intros contentMap.
  - cbn [app read_stream imapclient.data_SeqNum imapclient.data_items].
    by rewrite read_items_unreadable.
  - cbn [app read_stream].
    pose proof (read_items_readable (imapclient.data_SeqNum msg) _ Hmsg contentMap) as Hok.
    destruct (read_items _ _ contentMap) as [cm|]; [|done].
    cbn [mbind result_bind]. apply IH.
Qed.

(** X13: the batched content fetch is all or nothing.  The first section
    of the response whose literal cannot be read fails the whole call
    with [failed to read body section: ...], whatever message the section
    belongs to (one of the batch or not) and whatever was converted
    before; if all literals are read but the command closes with an
    error, the call fails with [failed to close batch fetch command:
    ...].  No message is returned in either case. *)
Theorem batch_fetch_all_or_nothing `{rt : GoRuntime} {fd : @FetchDeps rt}
    (output : OutputConfig) (client : Client) (totalFound : Z)
    (messagesToFetch : list MessageFetchInfo) (result_ : list EmailMessage)
    (options : imapclient.FetchOptions) :
  let batchFetchCmd :=
    client_Fetch client (batchSeqSet messagesToFetch)
      (imapclient.set_BodySection (imapclient.set_BodyStructure options true)
         (allFetchSections messagesToFetch)) in
  BuildFetchOptions output = Ok options ->
  (forall mbefore n before section e after mafter,
      imapclient.stream _ _ batchFetchCmd
      = mbefore
        ++ imapclient.mkFetchMessageData n
             (before ++ imapclient.FetchItemDataBodySection section (Some (Err e)) :: after)
        :: mafter ->
      Forall (fun msg => Forall (fun item => unreadable item = false)
                           (imapclient.data_items msg)) mbefore ->
      Forall (fun item => unreadable item = false) before ->
      fetchContent output client totalFound messagesToFetch result_
      = Err ("failed to read body section: " +:+ e))
  /\ (forall err,
         is_Ok (read_stream (imapclient.stream _ _ batchFetchCmd) ∅) ->
         imapclient.Close _ _ batchFetchCmd = Some err ->
         fetchContent output client totalFound messagesToFetch result_
         = Err ("failed to close batch fetch command: " +:+ err)).
Proof.
  intros batchFetchCmd Hopts. unfold fetchContent. rewrite Hopts.
  cbn [wrapErr mbind result_bind]. fold batchFetchCmd. split.
  - intros mbefore n before section e after mafter -> Hm Hb.
    by rewrite read_stream_unreadable.
  - intros err Hread Hclose.
    destruct (read_stream _ ∅) as [contentMap|]; [|done].
    cbn [mbind result_bind]. by rewrite Hclose.
Qed.

Lemma batch_fetch_all_or_nothing_witness :
  fetchContent (paging 0 0 0 0) broken_client 1 broken_batch []
  = Err "failed to read body section: unexpected EOF".
Proof.
  destruct (batch_fetch_all_or_nothing (paging 0 0 0 0) broken_client 1
              broken_batch []
              (imapclient.mkFetchOptions true true false false true true [])
              eq_refl) as [Hread _].
  apply (Hread
           [imapclient.mkFetchMessageData 8
              [imapclient.FetchItemDataBodySection
                 (imapclient.mkFetchItemBodySection "" [1] true) (Some (Ok "world"))]]
           99 [imapclient.FetchItemDataOther]
           (imapclient.mkFetchItemBodySection "" [1] true) "unexpected EOF" [] []
           eq_refl);
    repeat constructor.
Defined.

(** X14: the ways [FetchMessages] ends before any fetch.  An error of the
    compiler is returned behind [failed to build search criteria: ], so
    an unreadable [since] of a flat condition gives the three-level
    message below, whatever else the rule holds and without the session
    being used; an error of the search is returned behind [failed to
    execute search: ]; and a search response without numbers and without
    count gives no message and no error. *)
Theorem FetchMessages_early_exits `{rt : GoRuntime} {il : @ImapLib rt}
    {fd : @FetchDeps rt} (rule : Rule) (client : Client) :
  (forall e,
      BuildSearchCriteria (Search rule) (Some (Output rule)) = Err e ->
      FetchMessages rule client = Err ("failed to build search criteria: " +:+ e))
  /\ (Operator_ (Search rule) = "" -> Since (Search rule) <> "" ->
      Forall (fun l => time_Parse l (Since (Search rule)) = None) all_layouts ->
      FetchMessages rule client
      = Err ("failed to build search criteria: "
             +:+ ("invalid 'since' date: "
                  +:+ ("could not parse date: " +:+ Since (Search rule)))))
  /\ (forall criteria options e,
         BuildSearchCriteria (Search rule) (Some (Output rule)) = Ok (criteria, options) ->
         client_Search client criteria options = Err e ->
         FetchMessages rule client = Err ("failed to execute search: " +:+ e))
  /\ (forall criteria options count,
         BuildSearchCriteria (Search rule) (Some (Output rule)) = Ok (criteria, options) ->
         client_Search client criteria options = Ok (imapclient.mkSearchData [] count) ->
         count <= 0 ->
         FetchMessages rule client = Ok []).
Proof.
  assert (Hbuild : forall e,
      BuildSearchCriteria (Search rule) (Some (Output rule)) = Err e ->
      FetchMessages rule client = Err ("failed to build search criteria: " +:+ e)).
  { intros e He. unfold FetchMessages. by rewrite He. }
  split; [exact Hbuild|]. split; [|split].
  - intros Hop Hne Hnone. apply Hbuild.
    rewrite BuildSearchCriteria_flat by done.
    unfold buildFlatCriteria, date_criteria. rewrite decide_False by done.
    assert (parseDate (Since (Search rule))
            = Err ("could not parse date: " +:+ Since (Search rule))) as ->.
    { rewrite parseDate_as_formats.
      by apply (parseDate_formats_spec all_layouts (Since (Search rule))). }
    reflexivity.
  - intros criteria options e Hb Hs. unfold FetchMessages. rewrite Hb.
    cbn [wrapErr mbind result_bind]. by rewrite Hs.
  - intros criteria options count Hb Hs Hcount. unfold FetchMessages. rewrite Hb.
    cbn [wrapErr mbind result_bind]. rewrite Hs. cbn [wrapErr mbind result_bind].
    unfold windowOf. cbn [imapclient.AllSeqNums imapclient.Count].
    destruct (Z.ltb_spec 0 count); [lia|]. reflexivity.
Qed.

Lemma FetchMessages_early_exits_witness :
  FetchMessages
    (example_rule
       (mkSearchConfig "soon" "never" "" 0 "" "" "" "" "" "" None "" "" None None "" [])
       (paging 0 0 0 0))
    two_message_client
  = Err "failed to build search criteria: invalid 'since' date: could not parse date: soon".
Proof.
  destruct (FetchMessages_early_exits
              (example_rule
                 (mkSearchConfig "soon" "never" "" 0 "" "" "" "" "" "" None "" "" None None
                    "" [])
                 (paging 0 0 0 0))
              two_message_client) as (_ & Hsince & _).
  apply Hsince; [reflexivity | done | repeat constructor].
Defined.

(** ** Actions *)

Lemma sends_ret {A : Type} (P : Command -> Prop) (a : A) : sends P (act_ret a).
Proof. intros trace. exists []. by rewrite app_nil_r. Qed.

Lemma sends_fail {A : Type} (P : Command -> Prop) (e : string) :
  sends P (@act_fail A e).
Proof. intros trace. exists []. by rewrite app_nil_r. Qed.

Lemma sends_bind {A B : Type} (P : Command -> Prop) (m : Act A) (k : A -> Act B) :
  sends P m -> (forall a, sends P (k a)) -> sends P (act_bind m k).
Proof.
  intros Hm Hk trace. unfold act_bind.
  destruct (Hm trace) as (cmds & Ht & Hc).
  destruct (m trace) as [trace' [a|e]]; simpl in Ht; subst trace'.
  - destruct (Hk a (trace ++ cmds)) as (cmds' & -> & Hc').
    exists (cmds ++ cmds'). rewrite app_assoc. split; [done | by apply Forall_app].
  - by exists cmds.
Qed.

Lemma sends_seq (P : Command -> Prop) (m k : Act unit) :
  sends P m -> sends P k -> sends P (act_seq m k).
Proof. intros Hm Hk. apply sends_bind; [done | by intros _]. Qed.

Lemma sends_wrap {A : Type} (P : Command -> Prop) (prefix : string) (m : Act A) :
  sends P m -> sends P (act_wrap prefix m).
Proof.
  intros Hm trace. unfold act_wrap. destruct (Hm trace) as (cmds & Ht & Hc).
  destruct (m trace) as [trace' r]. by exists cmds.
Qed.

Lemma sends_send (P : Command -> Prop) (session : Session) (cmd : Command) :
  P cmd -> sends P (send session cmd).
Proof. intros Hp trace. exists [cmd]. split; [done | by constructor]. Qed.

Lemma sends_collect (P : Command -> Prop) (session : Session) (cmd : Command) :
  P cmd -> sends P (collect session cmd).
Proof. intros Hp trace. exists [cmd]. split; [done | by constructor]. Qed.

Create HintDb sends.
#[local] Hint Resolve sends_ret sends_fail sends_seq sends_wrap sends_send sends_collect
  : sends.

Section ActionProperties.
Context `{GoRuntime} `{ActionDeps}.
Variable session : Session.
Variable messages : list Msg.

Lemma executeFlags_sends (flagActions : option FlagActions) :
  sends (addresses (uidSetOf messages)) (executeFlags session messages flagActions).
Proof.
  unfold executeFlags. destruct flagActions as [fa|]; [|auto with sends].
  destruct (_ && _); [auto with sends|].
  apply sends_seq; destruct (0 <? _); auto with sends;
    apply sends_wrap, sends_send; done.
Qed.

Lemma executeCopy_sends (targetMailbox : string) :
  sends (addresses (uidSetOf messages)) (executeCopy session messages targetMailbox).
Proof.
  unfold executeCopy. case_decide; [auto with sends|].
  apply sends_wrap, sends_send. done.
Qed.

Lemma executeMove_sends (targetMailbox : string) :
  sends (addresses (uidSetOf messages)) (executeMove session messages targetMailbox).
Proof.
  unfold executeMove. case_decide; [auto with sends|].
  apply sends_wrap, sends_send. done.
Qed.

Lemma executeDelete_sends (deleteConfig : option DeleteValue) :
  sends (addresses (uidSetOf messages)) (executeDelete session messages deleteConfig).
Proof.
  unfold executeDelete. destruct deleteConfig as [v|]; [|auto with sends].
  destruct (moveToTrash v) as [[|]|]; [| |auto with sends].
  - apply sends_wrap, sends_send. done.
  - apply sends_seq; apply sends_wrap, sends_send; done.
Qed.

Lemma exportMessages_sends (P : Command -> Prop) (exportConfig : ExportConfig)
    (directory format : string) (msgs : list Msg) :
  (forall kind numSet options,
      (exists num, kind = SeqSet /\ numSet = [(num, num)]) ->
      P (CmdFetch kind numSet options)) ->
  (forall name data perm, P (CmdWriteFile name data perm)) ->
  forall i, sends P (exportMessages session exportConfig directory format i msgs).
Proof.
  intros Hfetch Hwrite. induction msgs as [|msg msgs IH]; intros i; [apply sends_ret|].
  cbn [exportMessages]. apply sends_bind.
  - apply sends_wrap, sends_collect, Hfetch. eexists. split; reflexivity.
  - intros [|[|content ?] ?]; [apply IH | apply IH |].
    destruct (_ =? _)%nat; [apply IH|].
    apply sends_seq; [|apply IH]. apply sends_wrap, sends_send, Hwrite.
Qed.

Lemma executeExport_sends (P : Command -> Prop) (exportConfig : option ExportConfig) :
  (forall kind numSet options,
      (exists num, kind = SeqSet /\ numSet = [(num, num)]) ->
      P (CmdFetch kind numSet options)) ->
  (forall name data perm, P (CmdWriteFile name data perm)) ->
  (forall path perm, P (CmdMkdirAll path perm)) ->
  sends P (executeExport session messages exportConfig).
Proof.
  intros Hfetch Hwrite Hmkdir. unfold executeExport.
  destruct exportConfig as [e|]; [|apply sends_ret]. cbv zeta.
  destruct (_ && _); [apply sends_fail|].
  apply sends_seq; [apply sends_wrap, sends_send, Hmkdir|].
  by apply exportMessages_sends.
Qed.

Lemma ExecuteActions_sends (actions : option ActionConfig) :
  sends (addresses (uidSetOf messages)) (ExecuteActions session messages actions).
Proof.
  unfold ExecuteActions. destruct actions as [a|]; [|apply sends_ret].
  destruct (isZeroConfig a); [apply sends_ret|].
  apply sends_seq.
  { destruct (action_Flags a); [|apply sends_ret].
    apply sends_wrap, executeFlags_sends. }
  apply sends_seq.
  { case_decide; [|apply sends_ret]. apply sends_wrap, executeCopy_sends. }
  case_decide; [apply sends_wrap, executeMove_sends|].
  apply sends_seq.
  { destruct (Delete a); [|apply sends_ret]. apply sends_wrap, executeDelete_sends. }
  destruct (Export a); [|apply sends_ret].
  apply sends_wrap, executeExport_sends.
  - intros kind numSet options (num & -> & ->). split; [done | by exists num].
  - done.
  - done.
Qed.
End ActionProperties.

Lemma uidSetOf_nums `{ActionDeps} (messages : list Msg) :
  uidSetOf messages = nums (map (fun msg => UInt32.wrap (msg_UID msg)) messages).
Proof.
  unfold uidSetOf, nums.
  assert (Hfold : forall acc,
             fold_left (fun uidSet msg => imap.AddNum uidSet (UInt32.wrap (msg_UID msg)))
                       messages acc
             = acc ++ map (fun n => (n, n))
                          (map (fun msg => UInt32.wrap (msg_UID msg)) messages)).
  { induction messages as [|msg msgs IH]; intros acc; simpl; [by rewrite app_nil_r|].
    rewrite IH. unfold imap.AddNum. by rewrite <- app_assoc. }
  apply (Hfold []).
Qed.

(** X15: every command that [ExecuteActions] sends for a set of messages
    names that set as a sequence set holding the UIDs of all the
    messages: [STORE], [COPY] and [MOVE] are sent (as sequence-number
    commands) for one and the same set, built from [msg.UID], whatever
    the actions are, also when there is no message; a [FETCH] of the
    export names one number, again as a sequence set.  The commands
    already sent are left as they are. *)
Theorem actions_address_uids_as_sequence_numbers `{GoRuntime} `{ActionDeps}
    (session : Session) (messages : list Msg) (actions : option ActionConfig)
    (trace : list Command) :
  exists cmds,
    fst (ExecuteActions session messages actions trace) = trace ++ cmds
    /\ Forall (addresses (uidSetOf messages)) cmds
    /\ uidSetOf messages = nums (map (fun msg => UInt32.wrap (msg_UID msg)) messages).
Proof.
  destruct (ExecuteActions_sends session messages actions trace) as (cmds & Ht & Hc).
  exists cmds. split; [done|]. split; [done|].
  apply uidSetOf_nums.
Qed.

(** X16: a move ends [ExecuteActions].  When [move_to] is set, the
    delete and the export of the configuration are never executed,
    whether the move succeeds or fails: the call behaves as if neither
    were configured.  With nothing else configured the only command is
    the [MOVE], and its error comes back behind the same prefix twice. *)
Theorem move_skips_delete_and_export `{GoRuntime} `{ActionDeps}
    (session : Session) (messages : list Msg) (actions : ActionConfig)
    (trace : list Command) :
  MoveTo actions <> "" ->
  ExecuteActions session messages (Some actions) trace
  = ExecuteActions session messages
      (Some (mkActionConfig (action_Flags actions) (MoveTo actions) (CopyTo actions)
               None None))
      trace
  /\ (action_Flags actions = None -> CopyTo actions = "" ->
      ExecuteActions session messages (Some actions) trace
      = (trace ++ [CmdMove SeqSet (uidSetOf messages) (MoveTo actions)],
         match session_error session trace
                 (CmdMove SeqSet (uidSetOf messages) (MoveTo actions)) with
         | Some e =>
             Err (("failed to move messages to " +:+ MoveTo actions +:+ ": ")
                  +:+ (("failed to move messages to " +:+ MoveTo actions +:+ ": ") +:+ e))
         | None => Ok tt
         end)).
Proof.
  intros Hmove.
  assert (Hz : forall f c d e,
             isZeroConfig (mkActionConfig f (MoveTo actions) c d e) = false).
  { intros f c d e. apply bool_decide_eq_false. by intros (_ & Hm & _). }
  split.
  - destruct actions as [f m c d e]. cbn [MoveTo] in *.
    unfold ExecuteActions. rewrite !Hz.
    cbn [action_Flags MoveTo CopyTo Delete Export].
    by rewrite !(decide_True (P := m <> "")) by done.
  - intros Hf Hc. destruct actions as [f m c d e].
    cbn [MoveTo action_Flags CopyTo] in *. subst f c.
    unfold ExecuteActions. rewrite Hz.
    cbn [action_Flags MoveTo CopyTo Delete Export].
    rewrite (decide_False (P := "" <> "")) by (by intros Hne).
    rewrite (decide_True (P := m <> "")) by done.
    unfold act_seq, act_bind, act_ret, act_wrap, executeMove.
    rewrite (decide_False (P := m = "")) by done.
    unfold act_wrap, send.
    by destruct (session_error session trace _).
Qed.

Lemma move_skips_delete_and_export_witness :
  ExecuteActions obliging_session two_messages
    (Some (mkActionConfig None "Archive" "" (Some (DeleteBool true))
             (Some (mkExportConfig "eml" "out" ""))))
    []
  = ([CmdMove SeqSet [(101, 101); (102, 102)] "Archive"], Ok tt).
Proof.
  destruct (move_skips_delete_and_export obliging_session two_messages
              (mkActionConfig None "Archive" "" (Some (DeleteBool true))
                 (Some (mkExportConfig "eml" "out" "")))
              [] ltac:(done)) as [_ Honly].
  exact (Honly eq_refl eq_refl).
Defined.

(** The commands of a permanent delete. *)
Lemma executeDelete_permanent `{GoRuntime} `{ActionDeps} (session : Session)
    (messages : list Msg) (deleteConfig : DeleteValue) (trace : list Command) :
  moveToTrash deleteConfig = Ok false ->
  let store :=
    CmdStore SeqSet (uidSetOf messages)
      (mkStoreFlags StoreFlagsAdd true [imap_FlagDeleted]) in
  executeDelete session messages (Some deleteConfig) trace
  = match session_error session trace store with
    | Some e => (trace ++ [store], Err ("failed to mark messages as deleted: " +:+ e))
    | None =>
        (trace ++ [store; CmdExpunge],
         match session_error session (trace ++ [store]) CmdExpunge with
         | Some e => Err ("failed to expunge messages: " +:+ e)
         | None => Ok tt
         end)
    end.
Proof.
  intros Htrash store. unfold executeDelete. rewrite Htrash.
  unfold act_seq, act_bind, act_wrap, send. fold store.
  destruct (session_error session trace store); [done|].
  cbn [wrapErr]. rewrite <- app_assoc.
  by destruct (session_error session (trace ++ [store]) CmdExpunge).
Qed.

(** X17: what a delete configuration does.  A boolean is not read: both
    [delete: true] and [delete: false] flag the messages [\Deleted] and
    expunge the mailbox.  An object moves the messages to [Trash] only
    when its [trash] entry is the boolean [true]; with any other entry,
    or none, it deletes permanently too.  A permanent delete sends the
    [STORE] and, if that succeeds, one [EXPUNGE] without message set.
    [ActionConfig.Validate] and [executeDelete] disagree on the types:
    validation rejects a [DeleteConfig] value, which the execution
    accepts, and accepts an object whose [trash] entry is not a boolean,
    which the execution treats as a permanent delete. *)
Theorem delete_configuration `{GoRuntime} `{ActionDeps} (session : Session)
    (messages : list Msg) (trace : list Command) :
  let store :=
    CmdStore SeqSet (uidSetOf messages)
      (mkStoreFlags StoreFlagsAdd true [imap_FlagDeleted]) in
  (forall b,
      executeDelete session messages (Some (DeleteBool b)) trace
      = match session_error session trace store with
        | Some e => (trace ++ [store], Err ("failed to mark messages as deleted: " +:+ e))
        | None =>
            (trace ++ [store; CmdExpunge],
             match session_error session (trace ++ [store]) CmdExpunge with
             | Some e => Err ("failed to expunge messages: " +:+ e)
             | None => Ok tt
             end)
        end)
  /\ (forall config,
         moveToTrash (DeleteMap config) = Ok true <-> config !! "trash" = Some (AnyBool true))
  /\ (forall config,
         config !! "trash" <> Some (AnyBool true) ->
         executeDelete session messages (Some (DeleteMap config)) trace
         = executeDelete session messages (Some (DeleteBool true)) trace)
  /\ (forall deleteConfig,
         moveToTrash deleteConfig = Ok true ->
         executeDelete session messages (Some deleteConfig) trace
         = (trace ++ [CmdMove SeqSet (uidSetOf messages) "Trash"],
            wrapErr "failed to move messages to Trash: "
              (match session_error session trace
                       (CmdMove SeqSet (uidSetOf messages) "Trash") with
               | Some e => Err e
               | None => Ok tt
               end)))
  /\ (forall actions config,
         Delete actions = Some (DeleteStruct config) ->
         ~ is_Ok (ActionConfig_Validate actions)
         /\ moveToTrash (DeleteStruct config) = Ok (Trash config))
  /\ (forall config typeName,
         config !! "trash" = Some (AnyOther typeName) ->
         is_Ok (ActionConfig_Validate
                  (mkActionConfig None "" "" (Some (DeleteMap config)) None))
         /\ moveToTrash (DeleteMap config) = Ok false).
Proof.
  intros store.
  assert (Hmap : forall config,
             moveToTrash (DeleteMap config) = Ok true
             <-> config !! "trash" = Some (AnyBool true)).
  { intros config. cbn [moveToTrash].
    destruct (config !! "trash") as [[[|]|]|]; split; intros Heq; congruence. }
  split; [|split; [|split; [|split; [|split]]]].
  - intros b. by apply executeDelete_permanent.
  - exact Hmap.
  - intros config Hne.
    rewrite !executeDelete_permanent; [done | done |].
    cbn [moveToTrash]. destruct (config !! "trash") as [[[|]|]|]; done.
  - intros deleteConfig Htrash. unfold executeDelete. rewrite Htrash.
    unfold act_wrap, send. done.
  - intros actions config Hd. split; [|done].
    unfold ActionConfig_Validate. rewrite Hd.
    destruct (match action_Flags actions with Some _ => _ | None => _ end);
      cbn [mbind result_bind is_Ok]; [|tauto].
    destruct (match Export actions with Some _ => _ | None => _ end);
      cbn [mbind result_bind is_Ok]; tauto.
  - intros config typeName Ht. split.
    + unfold ActionConfig_Validate. cbn [action_Flags Export Delete mbind result_bind].
      by rewrite Ht.
    + cbn [moveToTrash]. by rewrite Ht.
Qed.

Lemma delete_configuration_witness :
  executeDelete obliging_session two_messages
    (Some (DeleteMap (<["trash" := AnyOther "string"]> ∅))) []
  = executeDelete obliging_session two_messages (Some (DeleteBool true)) [].
Proof.
  destruct (delete_configuration obliging_session two_messages [])
    as (_ & _ & Hmap & _).
  apply Hmap. by rewrite lookup_insert_eq.
Defined.








(** ** The flags of the actions *)

Lemma isStandardFlag_spec `{GoRuntime} `{ActionDeps} (flag : string) :
  isStandardFlag flag = true
  <-> strings_ToLower flag ∈ ["seen"; "answered"; "flagged"; "deleted"; "draft"; "recent"].
Proof.
  unfold isStandardFlag. cbv zeta. rewrite existsb_exists. split.
  - intros (std & Hin & Heq). apply bool_decide_eq_true in Heq. rewrite Heq.
    by apply list_elem_of_In.
  - intros Hin. exists (strings_ToLower flag).
    split; [by apply list_elem_of_In | by apply bool_decide_eq_true].
Qed.

(** X19: the flags of the actions are converted differently from the
    flags of a search.  [convertToIMAPFlags] lower-cases the name first
    and returns the lower-cased name whenever it is not one of [seen],
    [answered], [flagged], [deleted], [draft] or [recent]; so (lower-casing
    being idempotent) a keyword loses its upper-case letters, and
    [important] stays [important], while [convertToIMAPFlag] keeps the
    case of a keyword and turns [important] into [$Important].  The six
    standard names give the same system flags in both. *)
Theorem convertToIMAPFlags_spec `{GoRuntime} `{ActionDeps} (flag : string) :
  strings_ToLower (strings_ToLower flag) = strings_ToLower flag ->
  strings_ToUpper "r" = "R" ->
  (forall flags, convertToIMAPFlags flags = map convertFlag flags)
  /\ (strings_ToLower flag = "seen" -> convertFlag flag = "\Seen")
  /\ (strings_ToLower flag = "answered" -> convertFlag flag = "\Answered")
  /\ (strings_ToLower flag = "flagged" -> convertFlag flag = "\Flagged")
  /\ (strings_ToLower flag = "deleted" -> convertFlag flag = "\Deleted")
  /\ (strings_ToLower flag = "draft" -> convertFlag flag = "\Draft")
  /\ (strings_ToLower flag = "recent" -> convertFlag flag = "\Recent")
  /\ (strings_ToLower flag
        ∉ ["seen"; "answered"; "flagged"; "deleted"; "draft"; "recent"] ->
      convertFlag flag = strings_ToLower flag)
  /\ (HasPrefix flag backslash = false -> HasPrefix flag "$" = false ->
      strings_ToLower flag = "important" ->
      convertToIMAPFlag flag = "$Important" /\ convertFlag flag = "important")
  /\ (HasPrefix flag backslash = false -> HasPrefix flag "$" = false ->
      strings_ToLower flag
        ∉ ["seen"; "answered"; "flagged"; "deleted"; "draft"; "recent"; "important"] ->
      convertToIMAPFlag flag = flag /\ convertFlag flag = strings_ToLower flag).
Proof.
  intros Hidem Hupper.
  assert (Hother : strings_ToLower flag
                     ∉ ["seen"; "answered"; "flagged"; "deleted"; "draft"; "recent"] ->
                   convertFlag flag = strings_ToLower flag).
  { intros Hnot. unfold convertFlag. cbv zeta.
    repeat (case_decide as Heq; [exfalso; apply Hnot; rewrite Heq; by repeat constructor|];
            clear Heq).
    destruct (isStandardFlag (strings_ToLower flag)) eqn:Hstd; [|done].
    apply isStandardFlag_spec in Hstd. rewrite Hidem in Hstd. done. }
  split; [done|].
  do 5 (split; [by intros Heq; unfold convertFlag; cbv zeta; rewrite Heq|]).
  split.
  { intros Heq. unfold convertFlag. cbv zeta.
    assert (isStandardFlag (strings_ToLower flag) = true) as ->.
    { apply isStandardFlag_spec. rewrite Hidem, Heq. by repeat constructor. }
    rewrite Heq. cbn. by rewrite Hupper. }
  split; [exact Hother|].
  split.
  - intros Hb Hd Himp. split.
    + unfold convertToIMAPFlag. rewrite Hb, Hd. cbn [orb]. cbv zeta.
      rewrite standardFlags_lookup, Himp. reflexivity.
    + rewrite Hother; [done|]. rewrite Himp.
      intros Hin. repeat (apply elem_of_cons in Hin as [Hin|Hin]; [done|]).
      by apply elem_of_nil in Hin.
  - intros Hb Hd Hnot. split.
    + unfold convertToIMAPFlag. rewrite Hb, Hd. cbn [orb]. cbv zeta.
      rewrite standardFlags_lookup.
      repeat (case_decide as Heq;
              [exfalso; apply Hnot; rewrite Heq; by repeat constructor|];
              clear Heq).
      reflexivity.
    + apply Hother. intros Hin. apply Hnot.
      repeat (apply elem_of_cons in Hin as [->|Hin]; [by repeat constructor|]).
      by apply elem_of_nil in Hin.
Qed.

Lemma convertToIMAPFlags_spec_witness :
  convertToIMAPFlag "Important" = "$Important" /\ convertFlag "Important" = "important".
Proof.
  destruct (@convertToIMAPFlags_spec example_runtime example_actions "Important"
              eq_refl eq_refl)
    as (_ & _ & _ & _ & _ & _ & _ & _ & Himp & _).
  by apply Himp.
Defined.

(** ** Export and rule validation *)

(** The loop of the export reads the configuration only to test whether
    a filename template is given. *)
Lemma exportMessages_template `{GoRuntime} `{ActionDeps} (session : Session)
    (e1 e2 : ExportConfig) (directory format : string) (messages : list Msg) :
  (FilenameTemplate e1 = "" <-> FilenameTemplate e2 = "") ->
  forall i trace,
    exportMessages session e1 directory format i messages trace
    = exportMessages session e2 directory format i messages trace.
Proof.
  intros Ht. induction messages as [|msg msgs IH]; intros i trace; [reflexivity|].
  cbn [exportMessages]. unfold act_bind, act_seq.
  destruct (act_wrap _ _ trace) as [trace1 [[|[|content ?] ?]|]]; try apply IH; [|done].
  destruct (_ =? _)%nat; [apply IH|].
  assert (exportFilename e1 format msg = exportFilename e2 format msg) as ->.
  { unfold exportFilename.
    destruct (decide (FilenameTemplate e1 <> "")), (decide (FilenameTemplate e2 <> ""));
      try done; exfalso; tauto. }
  unfold act_bind. destruct (act_wrap _ _ trace1) as [trace2 [[]|]]; [apply IH | done].
Qed.

Lemma ExportConfig_Validate_ok (e : ExportConfig) :
  is_Ok (ExportConfig_Validate e) <-> export_Format e ∈ [""; "eml"; "mbox"].
Proof.
  unfold ExportConfig_Validate.
  destruct (bool_decide_reflect (export_Format e <> "")) as [H1|H1];
    destruct (bool_decide_reflect (export_Format e <> "eml")) as [H2|H2];
    destruct (bool_decide_reflect (export_Format e <> "mbox")) as [H3|H3];
    cbn [andb]; try case_decide; cbn [is_Ok];
    (split; [intros Hok | intros Hin]); try done;
    try (destruct (decide (export_Format e = "")) as [->|];
         [by repeat constructor|]);
    try (destruct (decide (export_Format e = "eml")) as [->|];
         [by repeat constructor|]);
    try (destruct (decide (export_Format e = "mbox")) as [->|];
         [by repeat constructor|]);
    try tauto.
  repeat (apply elem_of_cons in Hin as [Hin|Hin]; [done|]).
  by apply elem_of_nil in Hin.
Qed.

(** X20: the export configuration.  [ExportConfig.Validate] and
    [executeExport] accept the same formats: the empty one (read as
    [eml]), [eml] and [mbox]; with any other format [executeExport]
    fails before a command is sent.  A validated configuration is
    exported like the original one.  The filename template is only
    tested for being empty: two configurations that differ in their
    non-empty templates are exported to the same files. *)
Theorem export_configuration `{GoRuntime} `{ActionDeps} (session : Session)
    (messages : list Msg) (e : ExportConfig) (trace : list Command) :
  (is_Ok (ExportConfig_Validate e) <-> export_Format e ∈ [""; "eml"; "mbox"])
  /\ (export_Format e ∉ [""; "eml"; "mbox"] ->
      executeExport session messages (Some e) trace
      = (trace, Err ("unsupported export format: " +:+ export_Format e)))
  /\ (forall e',
         ExportConfig_Validate e = Ok e' ->
         export_Format e' ∈ ["eml"; "mbox"]
         /\ executeExport session messages (Some e') trace
            = executeExport session messages (Some e) trace)
  /\ (forall t1 t2,
         t1 <> "" -> t2 <> "" ->
         executeExport session messages
           (Some (mkExportConfig (export_Format e) (Directory e) t1)) trace
         = executeExport session messages
             (Some (mkExportConfig (export_Format e) (Directory e) t2)) trace).
Proof.
  split; [apply ExportConfig_Validate_ok|]. split; [|split].
  - intros Hnot. unfold executeExport. cbv zeta.
    assert (export_Format e <> "" /\ export_Format e <> "eml"
            /\ export_Format e <> "mbox") as (H1 & H2 & H3).
    { repeat split; intros Heq; apply Hnot; rewrite Heq; by repeat constructor. }
    rewrite (decide_False (P := export_Format e = "")) by done.
    by rewrite !bool_decide_eq_true_2 by done.
  - intros e' Hv.
    assert (Hok : export_Format e ∈ [""; "eml"; "mbox"])
      by (apply ExportConfig_Validate_ok; by rewrite Hv).
    unfold ExportConfig_Validate in Hv.
    destruct (_ && _); [done|].
    destruct (decide (export_Format e = "")) as [Hempty|Hfull]; injection Hv as <-.
    + split; [by repeat constructor|].
      unfold executeExport. cbn [export_Format Directory]. cbv zeta.
      rewrite Hempty.
      rewrite (decide_False (P := "eml" = "")) by done.
      rewrite (decide_True (P := "" = "")) by done.
      destruct (_ && _); [done|].
      unfold act_seq, act_bind.
      destruct (act_wrap _ _ trace) as [trace1 [[]|]]; [|done].
      by apply exportMessages_template.
    + split; [|done].
      apply elem_of_cons in Hok as [Hok|Hok]; done.
  - intros t1 t2 Ht1 Ht2. unfold executeExport. cbn [export_Format Directory]. cbv zeta.
    destruct (_ && _); [done|].
    unfold act_seq, act_bind.
    destruct (act_wrap _ _ trace) as [trace1 [[]|]]; [|done].
    apply exportMessages_template. cbn [FilenameTemplate]. tauto.
Qed.

Lemma export_configuration_witness :
  executeExport obliging_session two_messages (Some (mkExportConfig "pdf" "out" "")) []
  = ([], Err "unsupported export format: pdf").
Proof.
  destruct (export_configuration obliging_session two_messages
              (mkExportConfig "pdf" "out" "") []) as (_ & Hbad & _).
  apply Hbad. cbn [export_Format].
  intros Hin. repeat (apply elem_of_cons in Hin as [Hin|Hin]; [done|]).
  by apply elem_of_nil in Hin.
Defined.

Lemma validate_flags_ok `{GoRuntime} (listName : string) (flags : list string) :
  is_Ok (validate_flags listName flags)
  <-> Forall (fun flag => isValidFlag flag = true) flags.
Proof.
  induction flags as [|flag flags IH]; cbn [validate_flags].
  - split; [constructor | done].
  - rewrite Forall_cons. destruct (isValidFlag flag); [|by split; [|intros []]].
    rewrite IH. by split; [|intros []].
Qed.

Lemma ExportConfig_Validate_format (e e' : ExportConfig) :
  ExportConfig_Validate e = Ok e' -> export_Format e' ∈ ["eml"; "mbox"].
Proof.
  intros Hv.
  assert (Hok : export_Format e ∈ [""; "eml"; "mbox"])
    by (apply ExportConfig_Validate_ok; by rewrite Hv).
  unfold ExportConfig_Validate in Hv. destruct (_ && _); [done|].
  destruct (decide (export_Format e = "")) as [Hempty|Hfull]; injection Hv as <-.
  - by repeat constructor.
  - apply elem_of_cons in Hok as [Hok|Hok]; done.
Qed.

Lemma ActionConfig_Validate_ok `{GoRuntime} (actions actions' : ActionConfig) :
  ActionConfig_Validate actions = Ok actions' ->
  (forall f, action_Flags actions = Some f ->
             Forall (fun flag => isValidFlag flag = true) (Add f ++ Remove f))
  /\ (forall d, Delete actions = Some d ->
                (exists b, d = DeleteBool b)
                \/ (exists config, d = DeleteMap config /\ is_Some (config !! "trash")))
  /\ (forall e', Export actions' = Some e' -> export_Format e' ∈ ["eml"; "mbox"])
  /\ action_Flags actions' = action_Flags actions
  /\ MoveTo actions' = MoveTo actions /\ CopyTo actions' = CopyTo actions
  /\ Delete actions' = Delete actions.
Proof.
  unfold ActionConfig_Validate. intros Ha.
  assert (Hflags : forall f, action_Flags actions = Some f ->
             Forall (fun flag => isValidFlag flag = true) (Add f ++ Remove f)).
  { intros f Hf. rewrite Hf in Ha. unfold FlagActions_Validate in Ha.
    destruct (validate_flags "add" (Add f)) as [[]|] eqn:Hadd; [|done].
    cbn [check mbind result_bind] in Ha.
    destruct (validate_flags "remove" (Remove f)) as [[]|] eqn:Hrem; [|done].
    apply Forall_app. split; eapply validate_flags_ok.
    - by rewrite Hadd.
    - by rewrite Hrem. }
  split; [exact Hflags|]. clear Hflags.
  destruct (match action_Flags actions with Some _ => _ | None => _ end) as [[]|];
    [|done].
  cbn [mbind result_bind] in Ha.
  destruct (match Export actions with Some _ => _ | None => _ end)
    as [export|] eqn:Hexport; [|done].
  cbn [mbind result_bind] in Ha.
  assert (Hformat : forall e', export = Some e' -> export_Format e' ∈ ["eml"; "mbox"]).
  { intros e' ->. destruct (Export actions) as [e|]; [|done].
    destruct (ExportConfig_Validate e) as [e''|] eqn:He; [|done].
    injection Hexport as <-. by eapply ExportConfig_Validate_format. }
  destruct (Delete actions) as [[b|config|config|typeName]|] eqn:Hd;
    try done; cbn [mbind result_bind] in Ha.
  - injection Ha as <-. repeat split; try done. intros d [= <-]. left. by exists b.
  - destruct (config !! "trash") as [v|] eqn:Ht; [|done].
    injection Ha as <-. repeat split; try done. intros d [= <-]. right.
    exists config. by rewrite Ht.
  - injection Ha as <-. repeat split; done.
Qed.

(** X21: a rule that passes [Rule.Validate].  Its name is not empty; its
    search compiles with its output configuration, so [FetchMessages]
    cannot fail while building the criteria; its limit is not negative
    and it has an output field; the flags of its actions are valid flag
    names; its delete configuration is a boolean or an object with a
    [trash] entry; and the validated actions are the given ones except
    for an empty export format, which has become [eml].  The offset and
    the UID bounds are not checked. *)
Theorem validated_rule `{ImapLib} (r : Rule) (actions actions' : ActionConfig) :
  Rule_Validate r actions = Ok actions' ->
  Name r <> ""
  /\ is_Ok (SearchConfig_Validate (Search r))
  /\ is_Ok (BuildSearchCriteria (Search r) (Some (Output r)))
  /\ 0 <= Limit (Output r)
  /\ Fields (Output r) <> []
  /\ (forall f, action_Flags actions = Some f ->
                Forall (fun flag => isValidFlag flag = true) (Add f ++ Remove f))
  /\ (forall d, Delete actions = Some d ->
                (exists b, d = DeleteBool b)
                \/ (exists config, d = DeleteMap config /\ is_Some (config !! "trash")))
  /\ (forall e', Export actions' = Some e' -> export_Format e' ∈ ["eml"; "mbox"])
  /\ action_Flags actions' = action_Flags actions
  /\ MoveTo actions' = MoveTo actions /\ CopyTo actions' = CopyTo actions
  /\ Delete actions' = Delete actions.
Proof.
  unfold Rule_Validate. intros Hv.
  destruct (decide (Name r = "")) as [|Hname]; [done|].
  destruct (SearchConfig_Validate (Search r)) as [[]|] eqn:Hs; [|done].
  cbn [check mbind result_bind] in Hv.
  destruct (OutputConfig_Validate (Output r)) as [[]|] eqn:Ho; [|done].
  cbn [check mbind result_bind] in Hv.
  destruct (ActionConfig_Validate actions) as [a|] eqn:Ha; [|done].
  injection Hv as ->.
  split; [done|]. split; [done|].
  split; [apply valid_search_compiles; by rewrite Hs|].
  unfold OutputConfig_Validate in Ho.
  destruct (_ && _ && _ && _); [done|].
  destruct (bool_decide_reflect (length (Fields (Output r)) = 0%nat)) as [|Hf]; [done|].
  destruct (Z.ltb_spec (Limit (Output r)) 0) as [|Hl]; [done|].
  split; [lia|]. split; [by destruct (Fields (Output r))|].
  by apply ActionConfig_Validate_ok.
Qed.

Lemma validated_rule_witness :
  is_Ok (BuildSearchCriteria
           (combinator "not" [from_condition "spam@example.com"])
           (Some (paging 10 (-5) 0 0))).
Proof.
  destruct (validated_rule
              (mkRule "cleanup" "" (combinator "not" [from_condition "spam@example.com"])
                 (paging 10 (-5) 0 0))
              (mkActionConfig (Some (mkFlagActions ["seen"] ["$Junk"])) "" ""
                 (Some (DeleteBool false)) (Some (mkExportConfig "" "out" "")))
              (mkActionConfig (Some (mkFlagActions ["seen"] ["$Junk"])) "" ""
                 (Some (DeleteBool false)) (Some (mkExportConfig "eml" "out" "")))
              ltac:(by vm_compute)) as (_ & _ & Hc & _).
  exact Hc.
Defined.

(** ** The template configuration of mailgen *)

(** Induction on a value of the variables: the property holds for a
    slice or a map when it holds for each of its values. *)
Lemma Value_nested_ind (P : Value -> Prop) :
  (forall s, P (VString s)) ->
  (forall n, P (VInt n)) ->
  (forall b, P (VBool b)) ->
  (forall elems, Forall P elems -> P (VSlice elems)) ->
  (forall entries, Forall (fun entry => P entry.2) entries -> P (VMap entries)) ->
  (forall typeName, P (VOther typeName)) ->
  forall value, P value.
Proof.
  intros Hs Hn Hb Hl Hm Ho. fix go 1. intros [s|n|b|elems|entries|typeName].
  - apply Hs.
  - apply Hn.
  - apply Hb.
  - apply Hl. induction elems as [|x l IH]; constructor; [apply go | exact IH].
  - apply Hm. induction entries as [|[k x] l IH]; constructor; [apply go | exact IH].
  - apply Ho.
Qed.

Lemma validateElems_ok (currentPath : string) (elems : list Value) :
  forall i, is_Ok (validateElems currentPath i elems)
            <-> Forall (fun elem => exists s, elem = VString s) elems.
Proof.
  induction elems as [|elem elems IH]; intros i; cbn [validateElems].
  - split; [constructor | done].
  - rewrite Forall_cons. destruct elem as [s| | | | |]; cbn [is_Ok];
      [rewrite IH; split; [intros Hok; split; [by exists s | done] | by intros [_ Hok]]
      | split; [done | by intros [[s Hs] _]]..].
Qed.

Lemma validateValue_ok (value : Value) :
  forall currentPath, is_Ok (validateValue currentPath value) <-> well_typed value.
Proof.
  induction value as [s|n|b|elems _|entries IH|typeName] using Value_nested_ind;
    intros currentPath; cbn [validateValue well_typed]; try done.
  - apply validateElems_ok.
  - induction IH as [|[key value] entries Hvalue _ IHentries]; [done|].
    cbn [snd] in Hvalue.
    destruct (validateValue (joinPath currentPath key) value) as [[]|] eqn:Hv;
      cbn [mbind result_bind].
    + rewrite IHentries. rewrite <- (Hvalue (joinPath currentPath key)), Hv. cbn [is_Ok].
      tauto.
    + rewrite <- (Hvalue (joinPath currentPath key)), Hv. cbn [is_Ok]. tauto.
Qed.

Lemma validateVariables_ok (vars : list (string * Value)) (path : string) :
  is_Ok (validateVariables vars path) <-> Forall (fun entry => well_typed entry.2) vars.
Proof.
  induction vars as [|[key value] vars IH]; cbn [validateVariables].
  - split; [constructor | done].
  - rewrite Forall_cons. cbn [snd].
    rewrite <- (validateValue_ok value (joinPath path key)).
    destruct (validateValue (joinPath path key) value) as [[]|];
      cbn [mbind result_bind is_Ok]; [rewrite IH|]; tauto.
Qed.

Lemma validateVariation_ok (ruleName : string) (i : Z) (variation : list (string * string)) :
  is_Ok (validateVariation ruleName i variation)
  <-> Forall (fun entry => entry.2 <> "") variation.
Proof.
  induction variation as [|[key value] variation IH]; cbn [validateVariation].
  - split; [constructor | done].
  - rewrite Forall_cons. cbn [snd]. case_decide; cbn [is_Ok]; [tauto|].
    rewrite IH. tauto.
Qed.

Lemma validateVariations_ok (ruleName : string)
    (variations : list (list (string * string))) :
  forall i, is_Ok (validateVariations ruleName i variations)
            <-> Forall (Forall (fun entry => entry.2 <> "")) variations.
Proof.
  induction variations as [|variation variations IH]; intros i;
    cbn [validateVariations].
  - split; [constructor | done].
  - rewrite Forall_cons, <- (validateVariation_ok ruleName i variation).
    destruct (validateVariation ruleName i variation) as [[]|];
      cbn [mbind result_bind is_Ok]; [rewrite IH|]; tauto.
Qed.

Lemma validateRules_ok (templates : list (string * EmailTemplate))
    (rules : list (string * RuleConfig)) :
  is_Ok (validateRules templates rules)
  <-> Forall (fun entry =>
                is_Some (lookup_entry (rule_Template entry.2) templates)
                /\ Forall (Forall (fun entry => entry.2 <> "")) (Variations entry.2))
             rules.
Proof.
  induction rules as [|[ruleName rule] rules IH]; cbn [validateRules].
  - split; [constructor | done].
  - rewrite Forall_cons. cbn [snd].
    destruct (lookup_entry (rule_Template rule) templates) as [tmpl|]; cbn [is_Ok].
    + rewrite <- (validateVariations_ok ruleName (Variations rule) 0).
      destruct (validateVariations ruleName 0 (Variations rule)) as [[]|];
        cbn [mbind result_bind is_Ok]; [rewrite IH|]; split; try tauto.
      intros Hok. split; [split; [by eexists | done] | done].
    + split; [done|]. intros [[Hsome _] _]. by destruct Hsome.
Qed.

Lemma validateGenerate_ok (rules : list (string * RuleConfig))
    (generate : list GenerateConfig) :
  forall i, is_Ok (validateGenerate rules i generate)
            <-> Forall (fun gen => is_Some (lookup_entry (gen_Rule gen) rules)
                                   /\ 0 < gen_Count gen) generate.
Proof.
  induction generate as [|gen generate IH]; intros i; cbn [validateGenerate].
  - split; [constructor | done].
  - rewrite Forall_cons.
    destruct (lookup_entry (gen_Rule gen) rules) as [rule|]; cbn [is_Ok].
    + destruct (Z.leb_spec (gen_Count gen) 0); cbn [is_Ok].
      * split; [done | lia].
      * rewrite IH. split; [|tauto]. intros Hok. split; [split; [by eexists | lia] | done].
    + split; [done|]. intros [[Hsome _] _]. by destruct Hsome.
Qed.

Lemma lookup_entry_is_Some {A : Type} (key : string) (m : list (string * A)) :
  is_Some (lookup_entry key m) <-> key ∈ m.*1.
Proof.
  induction m as [|[k v] m IH]; cbn [lookup_entry fmap list_fmap fst].
  - split; [by intros [? ?] | by intros ?%elem_of_nil].
  - rewrite elem_of_cons. case_decide as Hk.
    + split; [by left | by eexists].
    + rewrite IH. split; [by right | by intros [?|?]].
Qed.

Lemma TemplateConfig_Validate_ok (tc : TemplateConfig) :
  is_Ok (TemplateConfig_Validate tc)
  <-> Forall (fun entry => well_typed entry.2) (Variables tc)
      /\ Templates tc <> [] /\ Rules tc <> [] /\ Generate_ tc <> []
      /\ Forall (fun entry =>
                   is_Some (lookup_entry (rule_Template entry.2) (Templates tc))
                   /\ Forall (Forall (fun entry => entry.2 <> "")) (Variations entry.2))
                (Rules tc)
      /\ Forall (fun gen => is_Some (lookup_entry (gen_Rule gen) (Rules tc))
                            /\ 0 < gen_Count gen) (Generate_ tc).
Proof.
  unfold TemplateConfig_Validate.
  rewrite <- (validateVariables_ok (Variables tc) ""),
    <- (validateRules_ok (Templates tc) (Rules tc)),
    <- (validateGenerate_ok (Rules tc) (Generate_ tc) 0).
  destruct (validateVariables (Variables tc) "") as [[]|];
    cbn [wrapErr mbind result_bind is_Ok]; [|tauto].
  destruct (Templates tc) as [|t ts]; cbn [length];
    [rewrite decide_True by done; cbn [is_Ok]; tauto|].
  rewrite (decide_False (P := S (length ts) = 0%nat)) by done.
  destruct (Rules tc) as [|r rs]; cbn [length];
    [rewrite decide_True by done; cbn [is_Ok]; tauto|].
  rewrite (decide_False (P := S (length rs) = 0%nat)) by done.
  destruct (Generate_ tc) as [|g gs]; cbn [length];
    [rewrite decide_True by done; cbn [is_Ok]; tauto|].
  rewrite (decide_False (P := S (length gs) = 0%nat)) by done.
  destruct (validateRules (t :: ts) (r :: rs)) as [[]|];
    cbn [mbind result_bind is_Ok]; [|tauto].
  split; [intros Hok; repeat split; done | tauto].
Qed.

(** X22: what [TemplateConfig.Validate] accepts.  A configuration is
    valid exactly when every variable is a string, a slice of strings or
    a map of such values; there is a template, a rule and a generate
    entry; every rule names a defined template and has no empty variation
    value; and every generate entry names a defined rule and has a
    positive count.  Go iterates the maps in an order of its own: the
    error that is reported depends on it, the verdict does not.  A rule
    need not have any variation. *)
Theorem TemplateConfig_Validate_spec (tc : TemplateConfig) :
  (is_Ok (TemplateConfig_Validate tc)
   <-> Forall (fun entry => well_typed entry.2) (Variables tc)
       /\ Templates tc <> [] /\ Rules tc <> [] /\ Generate_ tc <> []
       /\ Forall (fun entry =>
                    rule_Template entry.2 ∈ (Templates tc).*1
                    /\ Forall (Forall (fun entry => entry.2 <> "")) (Variations entry.2))
                 (Rules tc)
       /\ Forall (fun gen => gen_Rule gen ∈ (Rules tc).*1 /\ 0 < gen_Count gen)
                 (Generate_ tc))
  /\ (forall variables templates rules,
         variables ≡ₚ Variables tc -> templates ≡ₚ Templates tc -> rules ≡ₚ Rules tc ->
         is_Ok (TemplateConfig_Validate
                  (mkTemplateConfig variables templates rules (Generate_ tc)))
         <-> is_Ok (TemplateConfig_Validate tc)).
Proof.
  assert (Hspec : forall tc,
    is_Ok (TemplateConfig_Validate tc)
    <-> Forall (fun entry => well_typed entry.2) (Variables tc)
       /\ Templates tc <> [] /\ Rules tc <> [] /\ Generate_ tc <> []
       /\ Forall (fun entry =>
                    rule_Template entry.2 ∈ (Templates tc).*1
                    /\ Forall (Forall (fun entry => entry.2 <> "")) (Variations entry.2))
                 (Rules tc)
       /\ Forall (fun gen => gen_Rule gen ∈ (Rules tc).*1 /\ 0 < gen_Count gen)
                 (Generate_ tc)).
  { intros tc0. rewrite TemplateConfig_Validate_ok.
    assert (Hr : forall entry : string * RuleConfig,
               is_Some (lookup_entry (rule_Template entry.2) (Templates tc0))
               /\ Forall (Forall (fun entry => entry.2 <> "")) (Variations entry.2)
               <-> rule_Template entry.2 ∈ (Templates tc0).*1
                   /\ Forall (Forall (fun entry => entry.2 <> "")) (Variations entry.2))
      by (intros entry; by rewrite lookup_entry_is_Some).
    assert (Hg : forall gen,
               is_Some (lookup_entry (gen_Rule gen) (Rules tc0)) /\ 0 < gen_Count gen
               <-> gen_Rule gen ∈ (Rules tc0).*1 /\ 0 < gen_Count gen)
      by (intros gen; by rewrite lookup_entry_is_Some).
    rewrite (Forall_iff _ _ _ Hr), (Forall_iff _ _ _ Hg). done. }
  split; [apply Hspec|].
  intros variables templates rules Hv Ht Hr. rewrite !Hspec.
  cbn [Variables Templates Rules Generate_].
  assert (Hnil : forall (A : Type) (l l' : list A), l ≡ₚ l' -> l <> [] <-> l' <> []).
  { intros A l l' Hp. split; intros Hne ->.
    - by apply Permutation_nil_r in Hp.
    - by apply Permutation_nil_l in Hp. }
  rewrite (Hnil _ _ _ Ht), (Hnil _ _ _ Hr). rewrite Hv. rewrite Hr at 1.
  assert (Hrule : forall entry : string * RuleConfig,
             rule_Template entry.2 ∈ templates.*1
             /\ Forall (Forall (fun entry => entry.2 <> "")) (Variations entry.2)
             <-> rule_Template entry.2 ∈ (Templates tc).*1
                 /\ Forall (Forall (fun entry => entry.2 <> "")) (Variations entry.2))
    by (intros entry; by rewrite Ht).
  assert (Hgen : forall gen,
             gen_Rule gen ∈ rules.*1 /\ 0 < gen_Count gen
             <-> gen_Rule gen ∈ (Rules tc).*1 /\ 0 < gen_Count gen)
    by (intros gen; by rewrite Hr).
  rewrite (Forall_iff _ _ _ Hrule), (Forall_iff _ _ _ Hgen). done.
Qed.

(** ** [MailGenerator.Generate] *)

Section GeneratorProperties.
Context `{TemplateEngine}.
Hypothesis engine_total : forall name tmpl ctx, is_Ok (processTemplate name tmpl ctx).

Lemma processEmailTemplate_total (emailTemplate : EmailTemplate)
    (ctx : gmap string CtxValue) :
  is_Ok (processEmailTemplate emailTemplate ctx).
Proof.
  unfold processEmailTemplate.
  repeat match goal with
         | |- context [decide ?P] => destruct (decide P)
         | |- context [processTemplate ?n ?t ?c] =>
             let Hok := fresh "Hok" in
             pose proof (engine_total n t c) as Hok;
             destruct (processTemplate n t c); [|done];
             cbn [mbind result_bind]
         end; done.
Qed.

Lemma processVariation_total (varCtx : gmap string CtxValue)
    (variation : list (string * string)) :
  forall processed, is_Ok (processVariation varCtx variation processed).
Proof.
  induction variation as [|[key value] variation IH]; intros processed; [done|].
  cbn [processVariation].
  pose proof (engine_total key value varCtx) as Hok.
  destruct (processTemplate key value varCtx); [|done].
  cbn [wrapErr mbind result_bind]. apply IH.
Qed.

Lemma generateEntry_total (variables : list (string * Value)) (genConfig : GenerateConfig)
    (rule : RuleConfig) (tmpl : EmailTemplate) :
  Variations rule <> [] ->
  forall n i emails,
  exists new,
    generateEntry variables genConfig rule tmpl n i emails = Ok (emails ++ new)
    /\ length new = n.
Proof.
  intros Hne. induction n as [|n IH]; intros i emails.
  - exists []. by rewrite app_nil_r.
  - cbn [generateEntry].
    rewrite decide_False by (by destruct (Variations rule)).
    cbv zeta.
    match goal with
    | |- context [processVariation ?c ?v ?p] =>
        pose proof (processVariation_total c v p) as Hv;
        destruct (processVariation c v p) as [processed|]; [|done]
    end.
    cbn [mbind result_bind].
    match goal with
    | |- context [processEmailTemplate ?t ?c] =>
        pose proof (processEmailTemplate_total t c) as He;
        destruct (processEmailTemplate t c) as [email|]; [|done]
    end.
    cbn [wrapErr mbind result_bind].
    destruct (IH (i + 1) (emails ++ [email])) as (new & -> & Hlen).
    exists (email :: new). rewrite <- app_assoc. split; [done|]. simpl. by rewrite Hlen.
Qed.

Lemma generateEntry_divide_by_zero (variables : list (string * Value))
    (genConfig : GenerateConfig) (rule : RuleConfig) (tmpl : EmailTemplate)
    (n : nat) (i : Z) (emails : list Email) :
  Variations rule = [] -> (0 < n)%nat ->
  generateEntry variables genConfig rule tmpl n i emails = Err divide_by_zero.
Proof.
  intros Hnil Hn. destruct n as [|n]; [lia|].
  cbn [generateEntry]. by rewrite decide_True by (by rewrite Hnil).
Qed.

Lemma generateAll_total (config : TemplateConfig) (generate : list GenerateConfig) :
  Forall (fun gen => forall rule,
            lookup_entry (gen_Rule gen) (Rules config) = Some rule ->
            Variations rule <> []) generate ->
  Forall (fun gen => is_Some (lookup_entry (gen_Rule gen) (Rules config))) generate ->
  forall emails,
  exists new,
    generateAll config generate emails = Ok (emails ++ new)
    /\ length new = requested generate.
Proof.
  intros Hvar. induction Hvar as [|gen generate Hgen _ IH]; intros Hsome emails.
  - exists []. by rewrite app_nil_r.
  - apply Forall_cons in Hsome as [[rule Hrule] Hsome].
    cbn [generateAll]. cbv zeta. rewrite Hrule. cbn [default from_option id].
    destruct (generateEntry_total (Variables config) gen rule
                (default (mkEmailTemplate "" "" "" "" "" "" "")
                         (lookup_entry (rule_Template rule) (Templates config)))
                (Hgen rule Hrule) (Z.to_nat (gen_Count gen)) 0 emails)
      as (new1 & -> & Hlen1).
    cbn [mbind result_bind].
    destruct (IH Hsome (emails ++ new1)) as (new2 & -> & Hlen2).
    exists (new1 ++ new2). rewrite app_assoc. split; [done|].
    rewrite length_app, Hlen1, Hlen2. reflexivity.
Qed.

Lemma generateAll_divide_by_zero (config : TemplateConfig)
    (generate : list GenerateConfig) :
  Forall (fun gen => is_Some (lookup_entry (gen_Rule gen) (Rules config))
                     /\ 0 < gen_Count gen) generate ->
  Exists (fun gen => exists rule,
            lookup_entry (gen_Rule gen) (Rules config) = Some rule
            /\ Variations rule = []) generate ->
  forall emails, generateAll config generate emails = Err divide_by_zero.
Proof.
  intros Hvalid Hex. induction generate as [|gen generate IH]; intros emails.
  - by apply Exists_nil in Hex.
  - apply Forall_cons in Hvalid as [[[rule Hrule] Hcount] Hvalid].
    cbn [generateAll]. cbv zeta. rewrite Hrule. cbn [default from_option id].
    destruct (decide (Variations rule = [])) as [Hnil|Hne].
    + rewrite generateEntry_divide_by_zero by (done || lia). done.
    + destruct (generateEntry_total (Variables config) gen rule
                  (default (mkEmailTemplate "" "" "" "" "" "" "")
                           (lookup_entry (rule_Template rule) (Templates config)))
                  Hne (Z.to_nat (gen_Count gen)) 0 emails) as (new1 & -> & _).
      cbn [mbind result_bind]. apply IH; [done|].
      apply Exists_cons in Hex as [(rule' & Hrule' & Hnil)|Hex]; [|done].
      congruence.
Qed.
End GeneratorProperties.

(** X23: the number of generated emails.  For a valid configuration
    whose rules in use all have a variation, and an engine that expands
    every template, [Generate] returns as many emails as the generate
    entries ask for in total, the counts added up. *)
Theorem Generate_count `{TemplateEngine} (config : TemplateConfig) :
  (forall name tmpl ctx, is_Ok (processTemplate name tmpl ctx)) ->
  is_Ok (TemplateConfig_Validate config) ->
  Forall (fun gen => forall rule,
            lookup_entry (gen_Rule gen) (Rules config) = Some rule ->
            Variations rule <> []) (Generate_ config) ->
  exists emails,
    Generate config = Ok emails
    /\ length emails = requested (Generate_ config).
Proof.
  intros Hengine Hvalid Hvar. unfold Generate.
  pose proof (proj1 (TemplateConfig_Validate_ok config) Hvalid)
    as (_ & _ & _ & _ & _ & Hgen).
  destruct (TemplateConfig_Validate config) as [[]|]; [|done].
  cbn [wrapErr mbind result_bind].
  destruct (generateAll_total Hengine config (Generate_ config) Hvar) with (emails := @nil Email)
    as (new & Hrun & Hlen).
  { eapply Forall_impl; [exact Hgen|]. by intros gen [Hsome _]. }
  exists new. by rewrite Hrun.
Qed.

Lemma Generate_count_witness :
  exists emails,
    Generate
      (mkTemplateConfig [("team", VSlice [VString "a"; VString "b"])]
         [("hello", mkEmailTemplate "Hi" "me@example.com" "" "" "" "" "Hello")]
         [("greet", mkRuleConfig "hello" [[("name", "Ann")]; [("name", "Bob")]])]
         [mkGenerateConfig "greet" 3 ""; mkGenerateConfig "greet" 2 ""])
    = Ok emails
    /\ length emails = 5%nat.
Proof.
  apply (Generate_count
           (mkTemplateConfig [("team", VSlice [VString "a"; VString "b"])]
              [("hello", mkEmailTemplate "Hi" "me@example.com" "" "" "" "" "Hello")]
              [("greet", mkRuleConfig "hello" [[("name", "Ann")]; [("name", "Bob")]])]
              [mkGenerateConfig "greet" 3 ""; mkGenerateConfig "greet" 2 ""])).
  - intros name tmpl ctx. exact I.
  - by vm_compute.
  - repeat constructor; intros rule [= <-]; done.
Defined.

(** X24: a rule without variations passes validation and makes
    [Generate] panic.  [TemplateConfig.Validate] does not ask a rule to
    have a variation; when a generate entry of a valid configuration
    uses such a rule, [Generate] computes [i % 0] in the first round of
    that entry, which is a run-time panic (integer divide by zero), also
    when every template expands. *)
Theorem Generate_without_variations `{TemplateEngine} (config : TemplateConfig) :
  (forall name tmpl ctx, is_Ok (processTemplate name tmpl ctx)) ->
  is_Ok (TemplateConfig_Validate config) ->
  Exists (fun gen => exists rule,
            lookup_entry (gen_Rule gen) (Rules config) = Some rule
            /\ Variations rule = []) (Generate_ config) ->
  Generate config = Err divide_by_zero.
Proof.
  intros Hengine Hvalid Hex. unfold Generate.
  pose proof (proj1 (TemplateConfig_Validate_ok config) Hvalid)
    as (_ & _ & _ & _ & _ & Hgen).
  destruct (TemplateConfig_Validate config) as [[]|]; [|done].
  cbn [wrapErr mbind result_bind].
  by apply generateAll_divide_by_zero.
Qed.

Lemma Generate_without_variations_witness :
  Generate
    (mkTemplateConfig []
       [("hello", mkEmailTemplate "Hi" "me@example.com" "" "" "" "" "Hello")]
       [("greet", mkRuleConfig "hello" [])]
       [mkGenerateConfig "greet" 1 ""])
  = Err divide_by_zero.
Proof.
  apply (Generate_without_variations
           (mkTemplateConfig []
              [("hello", mkEmailTemplate "Hi" "me@example.com" "" "" "" "" "Hello")]
              [("greet", mkRuleConfig "hello" [])]
              [mkGenerateConfig "greet" 1 ""])).
  - intros name tmpl ctx. exact I.
  - by vm_compute.
  - apply Exists_cons_hd. by exists (mkRuleConfig "hello" []).
Defined.

(** ** Decoding the output configuration *)

Lemma decodeFields_spec (fields : list Value) (decoded : list AnyField) :
  decodeFields fields = Ok decoded ->
  Forall2 (fun field f => decodeField field = Ok f) fields decoded.
Proof.
  revert decoded. induction fields as [|field fields IH]; intros decoded Hd.
  - injection Hd as <-. constructor.
  - cbn [decodeFields] in Hd.
    destruct (decodeField field) as [f|] eqn:Hf; [|done].
    cbn [mbind result_bind] in Hd.
    destruct (decodeFields fields) as [fs|]; [|done].
    injection Hd as <-. constructor; [done | by apply IH].
Qed.

(** X25: what [UnmarshalYAML] reads.  Only [format], [limit] and
    [fields] are taken from the document; the offset and the two UID
    bounds of the receiver are left as they were, so they cannot be set
    from a rule file.  Each field of the document gives one output field:
    a string gives the field of that name; an object with a [body] object
    gives a [body] field that shows its content, also when the object has
    a [mime_parts] entry as well; an object with a [mime_parts] object
    gives a [mime_parts] field that shows the types and, unless asked
    to, not the content.  An error of the decoder is returned as it
    is. *)
Theorem UnmarshalYAML_spec (o o' : OutputConfig) (format : string) (limit : Z)
    (fields : list Value) :
  UnmarshalYAML o (Ok (format, limit, fields)) = Ok o' ->
  Format o' = format /\ Limit o' = limit
  /\ Offset o' = Offset o /\ AfterUID o' = AfterUID o /\ BeforeUID o' = BeforeUID o
  /\ length (Fields o') = length fields
  /\ (forall (i : nat) name,
         fields !! i = Some (VString name) ->
         Fields o' !! i = Some (IsField (mkField name None)))
  /\ (forall (i : nat) f contentMap,
         fields !! i = Some (VMap f) ->
         lookup_entry "body" f = Some (VMap contentMap) ->
         Fields o' !! i = Some (IsField (mkField "body" (Some (bodyContent contentMap))))
         /\ ShowContent (bodyContent contentMap) = true)
  /\ (forall (i : nat) f contentMap,
         fields !! i = Some (VMap f) ->
         asMap (lookup_entry "body" f) = None ->
         lookup_entry "mime_parts" f = Some (VMap contentMap) ->
         exists contentField,
           Fields o' !! i = Some (IsField (mkField "mime_parts" (Some contentField)))
           /\ (lookup_entry "show_types" contentMap = None -> ShowTypes contentField = true)
           /\ (lookup_entry "show_content" contentMap = None ->
               ShowContent contentField = false))
  /\ (forall e, UnmarshalYAML o (Err e) = Err e).
Proof.
  unfold UnmarshalYAML. cbn [mbind result_bind]. intros Hu.
  destruct (decodeFields fields) as [decoded|] eqn:Hd; [|done].
  injection Hu as <-. cbn [Format Limit Offset AfterUID BeforeUID Fields].
  apply decodeFields_spec in Hd.
  do 5 (split; [done|]).
  split; [symmetry; by eapply Forall2_length|].
  split; [|split; [|split; [|done]]].
  - intros i name Hi.
    destruct (Forall2_lookup_l _ _ _ _ _ Hd Hi) as (f & -> & Hf).
    cbn [decodeField] in Hf. by injection Hf as <-.
  - intros i f contentMap Hi Hbody.
    destruct (Forall2_lookup_l _ _ _ _ _ Hd Hi) as (f' & -> & Hf).
    cbn [decodeField] in Hf. rewrite Hbody in Hf. cbn [asMap] in Hf.
    by injection Hf as <-.
  - intros i f contentMap Hi Hbody Hmime.
    destruct (Forall2_lookup_l _ _ _ _ _ Hd Hi) as (f' & -> & Hf).
    cbn [decodeField] in Hf. rewrite Hbody, Hmime in Hf. cbn [asMap] in Hf.
    unfold mimePartsContent in Hf.
    destruct (match asSlice (lookup_entry "types" contentMap) with
              | Some types => typesOf types
              | None => Ok []
              end) as [types|]; [|done].
    cbn [mbind result_bind] in Hf. injection Hf as <-.
    eexists. split; [reflexivity|]. cbn [ShowTypes ShowContent].
    split; intros ->; reflexivity.
Qed.

Lemma UnmarshalYAML_spec_witness :
  Offset (mkOutputConfig "json" 10 7 3 9 [IsField (mkField "subject" None)])
  = Offset (mkOutputConfig "" 0 7 3 9 []).
Proof.
  destruct (UnmarshalYAML_spec
              (mkOutputConfig "" 0 7 3 9 [])
              (mkOutputConfig "json" 10 7 3 9 [IsField (mkField "subject" None)])
              "json" 10 [VString "subject"] eq_refl) as (_ & _ & Hoff & _).
  exact Hoff.
Defined.
